(** * AccessibleHealthcare: authenticated API client and encrypted credential store

    A shallow embedding of
      - [src/lib/security/encryption.ts]   (module [Encryption]),
      - [src/lib/storage/secure-storage.ts] (module [SecureStorage]),
      - [src/lib/utils/error-handlers.ts]   (module [ErrorHandlers]),
      - [src/lib/api/api-client.ts]         (module [ApiClient]),
      - [src/hooks/useAuth.ts], [getQueryFn] (module [UseAuth]),
      - [src/lib/utils/validation.ts]       (module [Validation]),
    together with the properties the specification states about them and
    further properties of the same code.

    JavaScript strings are modelled as [string]; a thrown value is a
    [JsError]; an [async] function is a state transformer that returns either
    a value or the thrown error; the event loop is a step function on the
    client state, one step per macrotask. *)

From Stdlib Require Import ZArith NArith Lia List Bool Ascii String.
From Stdlib Require Strings.Byte DecimalString QArith.
From stdpp Require Import base option gmap strings list.

Import ListNotations.
Local Open Scope string_scope.
Local Open Scope Z_scope.

(** ** JavaScript values shared by all modules *)

Module Js.

(** The shape of [ApiError] in [src/core/types/index.ts]. *)
Record ApiError := mkApiError {
  status : Z;
  code : string;
  message : string;
  errors : option (list (string * list string))
}.

(** [String.prototype.slice(start)] with an integral [start]: a negative
    [start] counts from the end, and the result runs to the end of the
    string. *)
Definition slice (s : string) (start : Z) : string :=
  let len := Z.of_nat (String.length s) in
  let from := if start <? 0 then Z.max (len + start) 0 else Z.min start len in
  substring (Z.to_nat from) (Z.to_nat (len - from)) s.

(** [c.repeat(n)] for a one-character string [c] and an integral count that
    is not negative (a negative count raises [RangeError]). *)
Fixpoint repeat (c : ascii) (n : nat) : string :=
  match n with
  | O => ""
  | S n' => String c (repeat c n')
  end.

(** [s.split(':')]: the pieces between the separators, in order; a string
    without separator is the only piece. *)
Fixpoint split_colon (s : string) : list string :=
  match s with
  | "" => [""]
  | String c s' =>
      if Ascii.eqb c ":" then "" :: split_colon s'
      else match split_colon s' with
           | [] => [String c ""]
           | p :: ps => String c p :: ps
           end
  end.

(** Whether the separator occurs in [s]. *)
Fixpoint has_colon (s : string) : bool :=
  match s with
  | "" => false
  | String c s' => Ascii.eqb c ":" || has_colon s'
  end.

(** Truthiness of a value of type [string | undefined]. *)
Definition truthy (v : option string) : bool :=
  match v with
  | Some s => negb (String.eqb s "")
  | None => false
  end.

(** Body of an HTTP error response, as far as [handleApiError] inspects it.
    An empty string stands for a missing (falsy) field. *)
Inductive ErrorField :=
| ErrorAbsent
| ErrorString (s : string)
| ErrorObject.

(** [responseData.message], which the code reads without a [typeof] test:
    absent (or another falsy value), a string, or a truthy value that is no
    string (a number, an object, [true]). *)
Inductive MessageField :=
| MessageAbsent
| MessageString (s : string)
| MessageOther.

Record ResponseData := mkResponseData {
  rd_code : string;
  rd_error : ErrorField;
  rd_message : MessageField;
  rd_errors : option (list (string * list string))
}.

Record AxiosResponse := mkAxiosResponse {
  resp_status : Z;
  resp_data : option ResponseData
}.

(** The [environment] property a caller may have put on a request
    configuration; [AxiosRequestConfig] itself declares none. *)
Record Environment := mkEnvironment { version : string }.

(** [AxiosRequestConfig & { _retry?: boolean }]. *)
Record AxiosRequestConfig := mkConfig {
  url : string;
  headers : option (gmap string string);
  environment : option Environment;
  _retry : bool
}.

(** Values that are thrown or used to reject a promise. *)
Inductive JsError :=
| Error (msg : string)
| TypeError (msg : string)
| AxiosError (cfg : AxiosRequestConfig) (response : option AxiosResponse)
             (request : bool) (axios_code : string)
| Rejection (e : ApiError).

(** Outcome of awaiting a promise: its value or the thrown error. *)
Inductive result (A : Type) :=
| Ok (a : A)
| Throw (e : JsError).
Arguments Ok {A} a.
Arguments Throw {A} e.

(** [try { body } catch (error) { handler }]. *)
Definition try_catch {A} (body : result A) (handler : JsError -> result A) : result A :=
  match body with
  | Ok a => Ok a
  | Throw e => handler e
  end.

Definition is_ok {A} (r : result A) : bool :=
  match r with Ok _ => true | Throw _ => false end.

End Js.

(** ** [src/lib/security/encryption.ts] *)

Module Encryption.
Import Js.

(** *** Hex encoding ([CryptoJS.enc.Hex], [byte.toString(16).padStart(2, '0')]) *)

Definition hex_digit (n : N) : ascii :=
  match n with
  | 0 => "0" | 1 => "1" | 2 => "2" | 3 => "3" | 4 => "4" | 5 => "5"
  | 6 => "6" | 7 => "7" | 8 => "8" | 9 => "9" | 10 => "a" | 11 => "b"
  | 12 => "c" | 13 => "d" | 14 => "e" | _ => "f"
  end%N%char.

(** Value of a hexadecimal digit, as [parseInt(_, 16)] reads it. *)
Definition hex_value (c : ascii) : option N :=
  let n := N_of_ascii c in
  if ((48 <=? n) && (n <=? 57))%N then Some (n - 48)%N
  else if ((97 <=? n) && (n <=? 102))%N then Some (n - 87)%N
  else if ((65 <=? n) && (n <=? 70))%N then Some (n - 55)%N
  else None.

Definition byte_of_N (n : N) : Byte.byte :=
  match Byte.of_N n with
  | Some b => b
  | None => Byte.x00
  end.

Fixpoint Hex_stringify (bytes : list Byte.byte) : string :=
  match bytes with
  | [] => ""
  | b :: bs =>
      let n := Byte.to_N b in
      String (hex_digit (n / 16)) (String (hex_digit (n mod 16)) (Hex_stringify bs))
  end.

(** [parseInt(pair, 16)]: [NaN] (which the shift turns into 0) when the
    first character is no digit, the first digit alone when the second is
    none. *)
Definition parseInt16 (a : ascii) (b : option ascii) : N :=
  match hex_value a with
  | None => 0
  | Some h =>
      match b with
      | None => h
      | Some b' =>
          match hex_value b' with
          | None => h
          | Some l => 16 * h + l
          end
      end
  end%N.

Fixpoint Hex_parse (hexStr : string) : list Byte.byte :=
  match hexStr with
  | "" => []
  | String a "" => [byte_of_N (parseInt16 a None)]
  | String a (String b rest) => byte_of_N (parseInt16 a (Some b)) :: Hex_parse rest
  end.

(** *** Libraries and platform services the module calls *)

(** [crypto-js].  [AES_encrypt data key iv salt] is
    [CryptoJS.AES.encrypt(data, key, {iv, mode: CBC, padding: Pkcs7}).toString()],
    [salt] being the random bytes the library draws itself;
    [AES_decrypt ct key iv] is
    [CryptoJS.AES.decrypt(ct, key, {iv, ...}).toString(CryptoJS.enc.Utf8)]. *)
Record CryptoJS := mkCryptoJS {
  SHA256 : string -> string;
  AES_encrypt : string -> string -> list Byte.byte -> list Byte.byte -> result string;
  AES_decrypt : string -> string -> list Byte.byte -> result string
}.

(** [process.env], [expo-device], [expo-random] and the random source of
    [CryptoJS.lib.WordArray.random]; the [nat] argument is the number of
    draws made so far. *)
Record Platform := mkPlatform {
  ENCRYPTION_KEY : option string;
  getDeviceIdAsync : result (option string);
  getRandomBytesAsync : nat -> nat -> result (list Byte.byte);
  WordArray_random : nat -> nat -> list Byte.byte
}.

(** Module-level state: the cached key promise (it never rejects, so it is
    the key it resolves to) and the number of random draws made. *)
Record State := mkState {
  encryptionKeyPromise : option string;
  draws : nat
}.

Definition tick (st : State) : State :=
  mkState (encryptionKeyPromise st) (S (draws st)).

Section WithLibraries.
Variable lib : CryptoJS.
Variable platform : Platform.

(** The [try] block of [getEncryptionKey] and its [catch]. *)
Definition deviceSpecificKey (st : State) : string * State :=
  match getDeviceIdAsync platform with
  | Throw _ => ("MedicalAppDefaultEncryptionKey12345678901234", st)
  | Ok dev =>
      let deviceId := if truthy dev then default "" dev else "unknown-device" in
      match getRandomBytesAsync platform (draws st) 16 with
      | Throw _ => ("MedicalAppDefaultEncryptionKey12345678901234", tick st)
      | Ok randomBytes =>
          let randomSeed := Hex_stringify randomBytes in
          (SHA256 lib (deviceId ++ "-" ++ randomSeed ++ "-MedicalAppSecretKey"),
           tick st)
      end
  end.

Definition getEncryptionKey (st : State) : string * State :=
  match ENCRYPTION_KEY platform with
  | Some envKey =>
      if negb (String.eqb envKey "") && (32 <=? String.length envKey)%nat
      then (envKey, st)
      else deviceSpecificKey st
  | None => deviceSpecificKey st
  end.

Definition initEncryption (st : State) : State :=
  let '(key, st') := getEncryptionKey st in
  mkState (Some key) (draws st').

(** [if (!encryptionKeyPromise) encryptionKeyPromise = getEncryptionKey();
    const key = await encryptionKeyPromise;] *)
Definition awaitKey (st : State) : string * State :=
  match encryptionKeyPromise st with
  | Some key => (key, st)
  | None =>
      let '(key, st') := getEncryptionKey st in
      (key, mkState (Some key) (draws st'))
  end.

Definition encrypt (data : string) (st : State) : result string * State :=
  let '(key, st1) := awaitKey st in
  let iv := WordArray_random platform (draws st1) 16 in
  let salt := WordArray_random platform (S (draws st1)) 8 in
  let st3 := tick (tick st1) in
  (try_catch
     (match AES_encrypt lib data key iv salt with
      | Throw e => Throw e
      | Ok encryptedHex =>
          let ivHex := Hex_stringify iv in
          Ok (ivHex ++ ":" ++ encryptedHex)
      end)
     (fun _ => Throw (Error "Failed to encrypt data")),
   st3).

Definition decrypt (encryptedData : string) (st : State) : result string * State :=
  let '(key, st1) := awaitKey st in
  let parts := split_colon encryptedData in
  let ivHex := parts !! 0%nat in
  let encryptedHex := parts !! 1%nat in
  (try_catch
     (if negb (truthy ivHex) || negb (truthy encryptedHex)
      then Throw (Error "Invalid encrypted data format")
      else
        let iv := Hex_parse (default "" ivHex) in
        AES_decrypt lib (default "" encryptedHex) key iv)
     (fun _ => Throw (Error "Failed to decrypt data")),
   st1).

(** The IV that a call of [encrypt] in state [st] draws. *)
Definition drawn_iv (st : State) : list Byte.byte :=
  WordArray_random platform (draws (snd (awaitKey st))) 16.

(** The salt that the cipher library draws in that call. *)
Definition drawn_salt (st : State) : list Byte.byte :=
  WordArray_random platform (S (draws (snd (awaitKey st)))) 8.

Definition encryptPHI (data : string) (st : State) : result string * State :=
  let '(r, st') := encrypt data st in
  (try_catch r (fun _ => Throw (Error "Failed to encrypt sensitive data")), st').

Definition decryptPHI (encryptedData : string) (st : State) : result string * State :=
  let '(r, st') := decrypt encryptedData st in
  (try_catch r (fun _ => Throw (Error "Failed to decrypt sensitive data")), st').

Definition hash (data : string) : string := SHA256 lib data.

(** [generateRandomToken(length = 32)]: the bytes of [expo-random] in hex,
    and those of the cipher library's random source when [expo-random]
    throws. *)
Definition generateRandomToken (length : nat) (st : State) : string * State :=
  match getRandomBytesAsync platform (draws st) length with
  | Ok randomBytes => (Hex_stringify randomBytes, tick st)
  | Throw _ =>
      let fallbackRandom := WordArray_random platform (S (draws st)) length in
      (Hex_stringify fallbackRandom, tick (tick st))
  end.

End WithLibraries.

(** The digits that [toString(16)] and [CryptoJS.enc.Hex] write. *)
Definition is_lower_hex (c : ascii) : bool :=
  let n := N_of_ascii c in
  (((48 <=? n) && (n <=? 57)) || ((97 <=? n) && (n <=? 102)))%N.

(** The random sources return as many bytes as they are asked for. *)
Record Random_contract (platform : Platform) : Prop := {
  expo_random_length : forall i n bytes,
    getRandomBytesAsync platform i n = Ok bytes -> length bytes = n;
  WordArray_random_length : forall i n, length (WordArray_random platform i n) = n
}.

(** What the code relies on from [CryptoJS.AES]: encryption of a string
    succeeds, its text form is not empty and has no [":"] (it is Base64),
    and decryption under the same key and IV gives the plaintext back. *)
Record AES_contract (lib : CryptoJS) : Prop := {
  AES_roundtrip : forall data key iv salt,
    exists ct, AES_encrypt lib data key iv salt = Ok ct /\
               AES_decrypt lib ct key iv = Ok data;
  AES_base64 : forall data key iv salt ct,
    AES_encrypt lib data key iv salt = Ok ct -> ct <> "" /\ Js.has_colon ct = false
}.

(** What makes two encryptions of one plaintext under one key differ: with
    another IV and another salt the cipher text is another one (in CBC mode
    the first block depends on the IV; the library's text form carries the
    salt). *)
Definition AES_fresh (lib : CryptoJS) : Prop :=
  forall data key iv iv' salt salt' ct ct',
    iv <> iv' -> salt <> salt' ->
    AES_encrypt lib data key iv salt = Ok ct ->
    AES_encrypt lib data key iv' salt' = Ok ct' ->
    ct <> ct'.

(** The inputs the format check of [decrypt] is meant to refuse: no
    separator, or nothing before or after the first one. *)
Definition missing_or_empty_half (s : string) : Prop :=
  has_colon s = false \/
  exists a b, s = a ++ ":" ++ b /\ has_colon a = false /\ (a = "" \/ b = "").

(** [maskSensitiveData(value, visibleChars = 4)]; [visibleChars] is a
    JavaScript number, here an integer.  On the last branch
    [value.length - visibleChars] is positive, so [repeat] does not raise. *)
Definition maskSensitiveData (value : string) (visibleChars : Z) : string :=
  if String.eqb value "" then ""
  else if Z.of_nat (String.length value) <=? visibleChars then value
  else
    let visible := slice value (- visibleChars) in
    let masked := repeat "*" (Z.to_nat (Z.of_nat (String.length value) - visibleChars)) in
    masked ++ visible.

End Encryption.

(** ** [src/lib/storage/secure-storage.ts] *)

Module SecureStorage.
Import Js.

Definition KEY_PREFIX : string := "medical_app_secure_".

Definition SENSITIVE_KEYS : list string :=
  ["auth_token"; "refresh_token"; "user_data"; "personal_info";
   "medical_data"; "patient_data"].

Inductive PlatformOS := ios | android | web.

Definition is_web (os : PlatformOS) : bool :=
  match os with web => true | _ => false end.

(** The two platform stores ([expo-secure-store] and [AsyncStorage]) are
    finite maps from keys to strings whose reads and writes complete; the
    removal of one key ([deleteItemAsync], [removeItem]) completes or is
    rejected by the platform, [removal_rejected] telling for which keys (the
    same ones throughout a run).  The encryption module's state travels with
    them. *)
Record State := mkState {
  OS : PlatformOS;
  SecureStore : gmap string string;
  AsyncStorage : gmap string string;
  cipher : Encryption.State;
  removal_rejected : string -> bool
}.

(** What the backend in use holds under [key]. *)
Definition stored (key : string) (st : State) : option string :=
  if is_web (OS st) then AsyncStorage st !! (KEY_PREFIX ++ key)
  else SecureStore st !! (KEY_PREFIX ++ key).

(** The content of the two stores, apart from the encryption module's state. *)
Definition contents (st : State) : gmap string string * gmap string string :=
  (SecureStore st, AsyncStorage st).

Definition with_cipher (st : State) (c : Encryption.State) : State :=
  mkState (OS st) (SecureStore st) (AsyncStorage st) c (removal_rejected st).

(** [JSON.stringify] and [JSON.parse] at the type [T] of the stored object;
    [parse] throws [SyntaxError] on malformed text. *)
Record JSON (T : Type) := mkJSON {
  stringify : T -> result string;
  parse : string -> result T
}.
Arguments mkJSON {T} _ _.
Arguments stringify {T} _ _.
Arguments parse {T} _ _.

Section WithLibraries.
Variable lib : Encryption.CryptoJS.
Variable platform : Encryption.Platform.

Definition setItem (key value : string) (st : State) : result unit * State :=
  let prefixedKey := KEY_PREFIX ++ key in
  if negb (is_web (OS st)) then
    (Ok tt, mkState (OS st) (<[prefixedKey := value]> (SecureStore st))
                    (AsyncStorage st) (cipher st) (removal_rejected st))
  else
    let '(r, c) := Encryption.encrypt lib platform value (cipher st) in
    match r with
    | Ok encryptedValue =>
        (Ok tt, mkState (OS st) (SecureStore st)
                        (<[prefixedKey := encryptedValue]> (AsyncStorage st)) c
                        (removal_rejected st))
    | Throw _ =>
        (Throw (Error ("Failed to securely store data for key: " ++ key)),
         with_cipher st c)
    end.

Definition getItem (key : string) (st : State) : result (option string) * State :=
  let prefixedKey := KEY_PREFIX ++ key in
  if negb (is_web (OS st)) then
    (try_catch (Ok (SecureStore st !! prefixedKey)) (fun _ => Ok None), st)
  else
    let encryptedValue := AsyncStorage st !! prefixedKey in
    if negb (truthy encryptedValue) then (Ok None, st)
    else
      let '(r, c) :=
        Encryption.decrypt lib platform (default "" encryptedValue) (cipher st) in
      (try_catch
         (match r with
          | Ok value => Ok (Some value)
          | Throw e => Throw e
          end)
         (fun _ => Ok None),
       with_cipher st c).

(** [SecureStore.deleteItemAsync(key)] and [AsyncStorage.removeItem(key)] on
    a platform store: the store without the entry, or [None] when the
    platform rejects the removal. *)
Definition platform_remove (st : State) (prefixedKey : string)
    (store : gmap string string) : option (gmap string string) :=
  if removal_rejected st prefixedKey then None else Some (delete prefixedKey store).

Definition deleteItem (key : string) (st : State) : result unit * State :=
  let prefixedKey := KEY_PREFIX ++ key in
  let failure := Error ("Failed to delete secure data for key: " ++ key) in
  if negb (is_web (OS st)) then
    match platform_remove st prefixedKey (SecureStore st) with
    | Some store' =>
        (Ok tt, mkState (OS st) store' (AsyncStorage st) (cipher st) (removal_rejected st))
    | None => (Throw failure, st)
    end
  else
    match platform_remove st prefixedKey (AsyncStorage st) with
    | Some store' =>
        (Ok tt, mkState (OS st) (SecureStore st) store' (cipher st) (removal_rejected st))
    | None => (Throw failure, st)
    end.

Definition hasKey (key : string) (st : State) : result bool * State :=
  let '(r, st') := getItem key st in
  (match r with
   | Ok value => Ok (bool_decide (value <> None))
   | Throw e => Throw e
   end,
   st').

(** [clear()]; [getAllKeys] and [multiRemove] are taken to complete. *)
Definition clear (st : State) : State :=
  if is_web (OS st) then
    mkState (OS st) (SecureStore st)
            (filter (fun kv => negb (String.prefix KEY_PREFIX (fst kv)) = true)
                    (AsyncStorage st))
            (cipher st) (removal_rejected st)
  else st.

Section Objects.
Context {T : Type} (json : JSON T).

Definition setObject (key : string) (value : T) (st : State) : result unit * State :=
  match stringify json value with
  | Throw _ => (Throw (Error ("Failed to securely store object for key: " ++ key)), st)
  | Ok jsonValue =>
      let '(r, st') := setItem key jsonValue st in
      (try_catch r
         (fun _ => Throw (Error ("Failed to securely store object for key: " ++ key))),
       st')
  end.

Definition getObject (key : string) (st : State) : result (option T) * State :=
  let '(r, st') := getItem key st in
  (try_catch
     (match r with
      | Throw e => Throw e
      | Ok jsonValue =>
          if truthy jsonValue
          then match parse json (default "" jsonValue) with
               | Ok v => Ok (Some v)
               | Throw e => Throw e
               end
          else Ok None
      end)
     (fun _ => Ok None),
   st').

End Objects.
End WithLibraries.
End SecureStorage.

(** ** [src/lib/utils/error-handlers.ts] *)

Module ErrorHandlers.
Import Js.

Definition getDefaultMessageForStatus (status : Z) : string :=
  match status with
  | 400 => "The request was invalid. Please check your information and try again."
  | 401 => "You need to be logged in to access this. Please log in and try again."
  | 403 => "You don't have permission to access this resource."
  | 404 => "The requested information could not be found."
  | 408 | 504 => "The server took too long to respond. Please try again later."
  | 409 => "There was a conflict with the current state of the resource."
  | 422 => "The provided information could not be processed."
  | 429 => "Too many requests. Please try again later."
  | 500 | 502 | 503 => "The server encountered an error. Please try again later."
  | _ => "An unexpected error occurred. Please try again."
  end.

(** [apiError.message] while [handleApiError] fills the object in: a
    string, or the value the response body carried when that is no string. *)
Inductive MessageValue :=
| Text (s : string)
| NotText.

(** The object [apiError] before its message is sanitized. *)
Record Draft := mkDraft {
  draft_status : Z;
  draft_code : string;
  draft_message : MessageValue;
  draft_errors : option (list (string * list string))
}.

(** [!apiError.message]. *)
Definition message_falsy (m : MessageValue) : bool :=
  match m with
  | Text s => String.eqb s ""
  | NotText => false
  end.

(** [apiError.message === apiError.code], the code being a string. *)
Definition message_is (m : MessageValue) (c : string) : bool :=
  match m with
  | Text s => String.eqb s c
  | NotText => false
  end.

(** What [message.replace] throws when [message] is no string. *)
Definition not_a_function : JsError :=
  TypeError "sanitizedMessage.replace is not a function".

Definition truthy_error (e : ErrorField) : bool :=
  match e with
  | ErrorAbsent => false
  | ErrorString s => negb (String.eqb s "")
  | ErrorObject => true
  end.

(** The part of [handleApiError] that reads [axiosError.response]. *)
Definition fromResponse (apiError : Draft) (response : AxiosResponse) : Draft :=
  let status' := resp_status response in
  let extracted :=
    match resp_data response with
    | None =>
        mkDraft status' (draft_code apiError) (draft_message apiError) (draft_errors apiError)
    | Some responseData =>
        let code' :=
          if negb (String.eqb (rd_code responseData) "") then rd_code responseData
          else if truthy_error (rd_error responseData) then
                 match rd_error responseData with
                 | ErrorString s => s
                 | _ => "API_ERROR"
                 end
               else draft_code apiError in
        let fromError :=
          match rd_error responseData with
          | ErrorString s => if String.eqb s "" then draft_message apiError else Text s
          | _ => draft_message apiError
          end in
        let message' :=
          match rd_message responseData with
          | MessageString s => if String.eqb s "" then fromError else Text s
          | MessageOther => NotText
          | MessageAbsent => fromError
          end in
        let errors' :=
          match rd_errors responseData with
          | Some es => Some es
          | None => draft_errors apiError
          end in
        mkDraft status' code' message' errors'
    end in
  if message_falsy (draft_message extracted) ||
     message_is (draft_message extracted) (draft_code extracted)
  then mkDraft (draft_status extracted) (draft_code extracted)
               (Text (getDefaultMessageForStatus (draft_status extracted)))
               (draft_errors extracted)
  else extracted.

(** The body of the response, if it has one, has a [message] that is a
    string or is absent. *)
Definition textual (response : AxiosResponse) : Prop :=
  forall data, resp_data response = Some data -> rd_message data <> MessageOther.

Section WithRegExp.
(** The ten [message.replace(pattern, replacement)] calls of
    [sanitizationPatterns], applied in order by the regular-expression
    engine. *)
Variable replacePatterns : string -> string.

Definition sanitizeErrorMessage (message : string) : string :=
  if String.eqb message "" then "An unknown error occurred"
  else replacePatterns message.

(** [apiError.message = sanitizeErrorMessage(apiError.message); return
    apiError]: on a message that is no string, [sanitizeErrorMessage] gets
    past its [!message] test and calls [replace] on it. *)
Definition sanitized (apiError : Draft) : result ApiError :=
  match draft_message apiError with
  | Text s =>
      Ok (mkApiError (draft_status apiError) (draft_code apiError)
                     (sanitizeErrorMessage s) (draft_errors apiError))
  | NotText => Throw not_a_function
  end.

(** [handleApiError(error)]: the normalized error it returns, or what it
    throws. *)
Definition handleApiError (error : JsError) : result ApiError :=
  let apiError :=
    mkDraft 500 "UNKNOWN_ERROR"
      (Text "An unexpected error occurred while communicating with the server.") None in
  let apiError' :=
    match error with
    | AxiosError _ response request axios_code =>
        let a :=
          match response with
          | Some r => fromResponse apiError r
          | None =>
              if request
              then mkDraft 0 "NETWORK_ERROR"
                     (Text "Network error. Please check your internet connection.")
                     (draft_errors apiError)
              else apiError
          end in
        if String.eqb (draft_code a) ""
        then mkDraft (draft_status a)
               (if String.eqb axios_code "" then "API_ERROR" else axios_code)
               (draft_message a) (draft_errors a)
        else a
    | Error msg | TypeError msg =>
        mkDraft (draft_status apiError) "CLIENT_ERROR" (Text msg) (draft_errors apiError)
    | Rejection obj =>
        mkDraft (status obj) (code obj) (Text (message obj))
          (match errors obj with Some es => Some es | None => draft_errors apiError end)
    end in
  sanitized apiError'.

(** [Promise.reject(handleApiError(error))] in an [async] function: the
    promise is rejected with the normalized error, or with what
    [handleApiError] threw. *)
Definition rejection (error : JsError) : JsError :=
  match handleApiError error with
  | Ok apiError => Rejection apiError
  | Throw thrown => thrown
  end.

End WithRegExp.
End ErrorHandlers.

(** ** [src/lib/api/api-client.ts] *)

Module ApiClient.
Import Js.

(** [config.environment.version] of [src/core/constants/config.ts]. *)
Definition app_version : string := "1.0.0".

Definition AUTH_REQUIRED : ApiError :=
  mkApiError 401 "AUTH_REQUIRED" "Authentication required. Please log in again." None.

(** One call of [refreshToken()], that is the promise it returned: where
    the call is suspended, or how the promise settled. *)
Inductive RefreshTask :=
| AwaitGetItem
| AwaitPost (refreshToken : string)
| AwaitSetItem (token : string)
| Resolved (token : string)
| Rejected (e : JsError).

(** The promise with the calls awaiting it, in the order they began to. *)
Record Refresh := mkRefresh {
  task : RefreshTask;
  waiters : list nat
}.

(** Where one call [apiClient(config)] is suspended. *)
Inductive Pc :=
| Queued
| InFlight
| AwaitFollower (p : nat)
| AwaitLeader (p : nat)
| AwaitDeleteAuth
| AwaitDeleteRefresh
| Settled (outcome : result AxiosResponse).

Record Call := mkCall {
  config : AxiosRequestConfig;
  pc : Pc
}.

(** The two module-level variables, the promises made by [refreshToken()]
    (numbered in the order of the calls), the calls of [apiClient], the
    credential store, the number of requests made to the refresh endpoint
    and the requests handed to the transport, latest first. *)
Record State := mkState {
  isRefreshingToken : bool;
  tokenRefreshPromise : option nat;
  refreshes : gmap nat Refresh;
  nextPromise : nat;
  calls : gmap nat Call;
  secureStore : SecureStorage.State;
  refreshPosts : nat;
  sent : list (nat * AxiosRequestConfig)
}.

Inductive ServerReply :=
| Success (response : AxiosResponse)
| Failure (response : AxiosResponse)
| NoResponse.

Inductive PostReply :=
| PostData (token : string)
| PostError (e : JsError).

(** How the one call of [refreshToken()] ends. *)
Inductive RefreshOutcome :=
| NoRefreshToken
| EndpointError (e : JsError)
| NewToken (token : string).

(** One macrotask of the event loop. *)
Inductive Event :=
| Dispatch (r : nat) (isConnected : bool)
| Respond (r : nat) (reply : ServerReply)
| RefreshResume (p : nat)
| RefreshResponse (p : nat) (reply : PostReply)
| StoreDone (r : nat).

Definition set_header (name value : string) (cfg : AxiosRequestConfig) : AxiosRequestConfig :=
  mkConfig (url cfg) (insert name value <$> headers cfg) (environment cfg) (_retry cfg).

Definition set_retry (cfg : AxiosRequestConfig) : AxiosRequestConfig :=
  mkConfig (url cfg) (headers cfg) (environment cfg) true.

Definition has_headers (cfg : AxiosRequestConfig) : bool :=
  match headers cfg with
  | Some _ => true
  | None => false
  end.

Definition set_call (r : nat) (c : Call) (st : State) : State :=
  mkState (isRefreshingToken st) (tokenRefreshPromise st) (refreshes st) (nextPromise st)
          (<[r := c]> (calls st)) (secureStore st) (refreshPosts st) (sent st).

Definition set_store (s : SecureStorage.State) (st : State) : State :=
  mkState (isRefreshingToken st) (tokenRefreshPromise st) (refreshes st) (nextPromise st)
          (calls st) s (refreshPosts st) (sent st).

Definition set_refresh (p : nat) (t : Refresh) (st : State) : State :=
  mkState (isRefreshingToken st) (tokenRefreshPromise st) (<[p := t]> (refreshes st))
          (nextPromise st) (calls st) (secureStore st) (refreshPosts st) (sent st).

(** [axios.post] to the refresh endpoint is called. *)
Definition count_post (st : State) : State :=
  mkState (isRefreshingToken st) (tokenRefreshPromise st) (refreshes st) (nextPromise st)
          (calls st) (secureStore st) (S (refreshPosts st)) (sent st).

(** The transport takes the request of call [r]. *)
Definition log_sent (r : nat) (cfg : AxiosRequestConfig) (st : State) : State :=
  mkState (isRefreshingToken st) (tokenRefreshPromise st) (refreshes st) (nextPromise st)
          (calls st) (secureStore st) (refreshPosts st) ((r, cfg) :: sent st).

(** [finally { isRefreshingToken = false; tokenRefreshPromise = null; }] *)
Definition finally (st : State) : State :=
  mkState false None (refreshes st) (nextPromise st) (calls st) (secureStore st)
          (refreshPosts st) (sent st).

Section WithLibraries.
Variable lib : Encryption.CryptoJS.
Variable platform : Encryption.Platform.
Variable replacePatterns : string -> string.

Abbreviation getItem := (SecureStorage.getItem lib platform).
Abbreviation setItem := (SecureStorage.setItem lib platform).
Abbreviation deleteItem := (SecureStorage.deleteItem).
Abbreviation handleApiError := (ErrorHandlers.handleApiError replacePatterns).
Abbreviation rejection := (ErrorHandlers.rejection replacePatterns).

(** The request interceptor.  Its parameter is named [config], so
    [config.environment] reads the request configuration. *)
Definition requestInterceptor (isConnected : bool) (config : AxiosRequestConfig)
    (store : SecureStorage.State) : result AxiosRequestConfig * SecureStorage.State :=
  if negb isConnected then (Throw (Error "No network connection available"), store)
  else
    let '(tokenR, store1) := getItem "auth_token" store in
    let config1 :=
      match tokenR with
      | Ok token =>
          if truthy token then set_header "Authorization" ("Bearer " ++ default "" token) config
          else config
      | Throw _ => config
      end in
    match headers config1 with
    | None => (Ok config1, store1)
    | Some _ =>
        match environment config1 with
        | None =>
            (Throw (TypeError "Cannot read properties of undefined (reading 'version')"),
             store1)
        | Some env =>
            let config2 := set_header "X-App-Version" (version env) config1 in
            let '(userIdR, store2) := getItem "user_id" store1 in
            match userIdR with
            | Throw e => (Throw e, store2)
            | Ok userId =>
                if truthy userId
                then (Ok (set_header "X-User-ID" (default "" userId) config2), store2)
                else (Ok config2, store2)
            end
        end
    end.

Definition settle_call (r : nat) (cfg : AxiosRequestConfig)
    (outcome : result AxiosResponse) (st : State) : State :=
  set_call r (mkCall cfg (Settled outcome)) st.

(** Lines 89-92: [isRefreshingToken = true; tokenRefreshPromise =
    refreshToken(); await tokenRefreshPromise].  The new call of
    [refreshToken] runs up to its first [await]. *)
Definition start_refresh (r : nat) (cfg : AxiosRequestConfig) (st : State) : State :=
  let p := nextPromise st in
  mkState true (Some p) (<[p := mkRefresh AwaitGetItem [r]]> (refreshes st)) (S p)
          (<[r := mkCall cfg (AwaitLeader p)]> (calls st))
          (secureStore st) (refreshPosts st) (sent st).

(** [return apiClient(originalRequest)] followed by the [finally] block:
    the same configuration enters the pipeline again. *)
Definition replay (r : nat) (cfg : AxiosRequestConfig) (st : State) : State :=
  finally (set_call r (mkCall cfg Queued) st).

(** What call [r] does when the promise it awaits settles. *)
Definition resume (outcome : result string) (st : State) (r : nat) : State :=
  match calls st !! r with
  | Some (mkCall cfg (AwaitFollower _)) =>
      match outcome with
      | Ok newToken =>
          if negb (String.eqb newToken "") && has_headers cfg
          then replay r (set_header "Authorization" ("Bearer " ++ newToken) cfg) st
          else start_refresh r cfg st
      | Throw _ => set_call r (mkCall cfg AwaitDeleteAuth) st
      end
  | Some (mkCall cfg (AwaitLeader _)) =>
      match outcome with
      | Ok newToken => replay r (set_header "Authorization" ("Bearer " ++ newToken) cfg) st
      | Throw _ => set_call r (mkCall cfg AwaitDeleteAuth) st
      end
  | _ => st
  end.

Definition outcome_of (t : RefreshTask) : option (result string) :=
  match t with
  | Resolved token => Some (Ok token)
  | Rejected e => Some (Throw e)
  | _ => None
  end.

(** [await tokenRefreshPromise] on line 81. *)
Definition await_follower (r : nat) (cfg : AxiosRequestConfig) (p : nat) (st : State) : State :=
  match refreshes st !! p with
  | None => st
  | Some t =>
      let st1 := set_call r (mkCall cfg (AwaitFollower p)) st in
      match outcome_of (task t) with
      | Some outcome => resume outcome st1 r
      | None => set_refresh p (mkRefresh (task t) (waiters t ++ [r])%list) st1
      end
  end.

(** The rejection handler of the response interceptor, up to its first
    suspension. *)
Definition responseRejected (r : nat) (error : JsError) (st : State) : State :=
  match error with
  | AxiosError originalRequest (Some response) _ _ =>
      if (resp_status response =? 401) && negb (_retry originalRequest) then
        let originalRequest' := set_retry originalRequest in
        if isRefreshingToken st then
          match tokenRefreshPromise st with
          | Some p => await_follower r originalRequest' p st
          | None => start_refresh r originalRequest' st
          end
        else start_refresh r originalRequest' st
      else
        settle_call r originalRequest (Throw (rejection error)) st
  | AxiosError originalRequest None _ _ =>
      settle_call r originalRequest (Throw (rejection error)) st
  | _ =>
      match calls st !! r with
      | Some c => settle_call r (config c) (Throw (rejection error)) st
      | None => st
      end
  end.

(** The promise of refresh [p] settles: the calls awaiting it continue in
    the order they began to wait. *)
Definition settle_refresh (p : nat) (outcome : result string) (st : State) : State :=
  match refreshes st !! p with
  | None => st
  | Some t =>
      let settled :=
        match outcome with
        | Ok token => Resolved token
        | Throw e => Rejected e
        end in
      foldl (resume outcome) (set_refresh p (mkRefresh settled []) st) (waiters t)
  end.

(** [refreshToken()] continues after the [await] it is suspended at. *)
Definition refreshResume (p : nat) (st : State) : State :=
  match refreshes st !! p with
  | Some (mkRefresh AwaitGetItem ws) =>
      let '(v, store') := getItem "refresh_token" (secureStore st) in
      let st1 := set_store store' st in
      match v with
      | Throw e => settle_refresh p (Throw e) st1
      | Ok refreshToken =>
          if truthy refreshToken then
            count_post
              (set_refresh p (mkRefresh (AwaitPost (default "" refreshToken)) ws) st1)
          else settle_refresh p (Throw (Error "No refresh token available")) st1
      end
  | Some (mkRefresh (AwaitSetItem token) ws) =>
      let '(w, store') := setItem "auth_token" token (secureStore st) in
      let st1 := set_store store' st in
      match w with
      | Ok _ => settle_refresh p (Ok token) st1
      | Throw e => settle_refresh p (Throw e) st1
      end
  | _ => st
  end.

Definition refreshResponse (p : nat) (reply : PostReply) (st : State) : State :=
  match refreshes st !! p with
  | Some (mkRefresh (AwaitPost _) ws) =>
      match reply with
      | PostData token => set_refresh p (mkRefresh (AwaitSetItem token) ws) st
      | PostError e => settle_refresh p (Throw e) st
      end
  | _ => st
  end.

(** The [catch] block of the response interceptor, one [await] at a time. *)
Definition storeDone (r : nat) (st : State) : State :=
  match calls st !! r with
  | Some (mkCall cfg AwaitDeleteAuth) =>
      let '(d, store') := deleteItem "auth_token" (secureStore st) in
      let st1 := set_store store' st in
      match d with
      | Ok _ => set_call r (mkCall cfg AwaitDeleteRefresh) st1
      | Throw e => finally (settle_call r cfg (Throw e) st1)
      end
  | Some (mkCall cfg AwaitDeleteRefresh) =>
      let '(d, store') := deleteItem "refresh_token" (secureStore st) in
      let st1 := set_store store' st in
      match d with
      | Ok _ => finally (settle_call r cfg (Throw (Rejection AUTH_REQUIRED)) st1)
      | Throw e => finally (settle_call r cfg (Throw e) st1)
      end
  | _ => st
  end.

(** [apiClient(config)] from the request interceptor to the transport; the
    interceptor's own [await]s are taken in this one step. *)
Definition dispatch (r : nat) (isConnected : bool) (st : State) : State :=
  match calls st !! r with
  | Some (mkCall cfg Queued) =>
      let '(c, store') := requestInterceptor isConnected cfg (secureStore st) in
      let st1 := set_store store' st in
      match c with
      | Ok cfg' => log_sent r cfg' (set_call r (mkCall cfg' InFlight) st1)
      | Throw e => responseRejected r e st1
      end
  | _ => st
  end.

Definition respond (r : nat) (reply : ServerReply) (st : State) : State :=
  match calls st !! r with
  | Some (mkCall cfg InFlight) =>
      match reply with
      | Success response => settle_call r cfg (Ok response) st
      | Failure response =>
          responseRejected r (AxiosError cfg (Some response) true "ERR_BAD_REQUEST") st
      | NoResponse => responseRejected r (AxiosError cfg None true "ERR_NETWORK") st
      end
  | _ => st
  end.

Definition step (st : State) (ev : Event) : State :=
  match ev with
  | Dispatch r isConnected => dispatch r isConnected st
  | Respond r reply => respond r reply st
  | RefreshResume p => refreshResume p st
  | RefreshResponse p reply => refreshResponse p reply st
  | StoreDone r => storeDone r st
  end.

Definition run (st : State) (evs : list Event) : State := foldl step st evs.

(** *** Vocabulary of the properties *)

(** Event [ev] makes the call of [refreshToken()] behind promise [p] throw:
    no refresh token is stored, the endpoint answers with an error, or the new
    token cannot be stored. *)
Definition refresh_fails (st : State) (ev : Event) (p : nat) : Prop :=
  match ev with
  | RefreshResume p' =>
      p' = p /\
      match task <$> refreshes st !! p with
      | Some AwaitGetItem =>
          forall v, fst (getItem "refresh_token" (secureStore st)) = Ok v -> truthy v = false
      | Some (AwaitSetItem token) =>
          is_ok (fst (setItem "auth_token" token (secureStore st))) = false
      | _ => False
      end
  | RefreshResponse p' (PostError _) =>
      p' = p /\ exists rt, task <$> refreshes st !! p = Some (AwaitPost rt)
  | _ => False
  end.

(** What the store makes of the one call of [refreshToken()]: whether it
    finds a refresh token, and whether it can store the new token. *)
Definition store_allows (store : SecureStorage.State) (outcome : RefreshOutcome) : Prop :=
  let '(v, store1) := getItem "refresh_token" store in
  match outcome with
  | NoRefreshToken => exists t, v = Ok t /\ truthy t = false
  | EndpointError _ => exists t, v = Ok t /\ truthy t = true
  | NewToken token =>
      (exists t, v = Ok t /\ truthy t = true) /\ token <> "" /\
      is_ok (fst (setItem "auth_token" token store1)) = true
  end.

End WithLibraries.

(** Call [r] is suspended at one of the two [await tokenRefreshPromise]. *)
Definition awaiting (st : State) (r : nat) (cfg : AxiosRequestConfig) : Prop :=
  exists q, calls st !! r = Some (mkCall cfg (AwaitLeader q)) \/
            (calls st !! r = Some (mkCall cfg (AwaitFollower q)) /\ has_headers cfg = true).

Definition is_await (pc : Pc) : bool :=
  match pc with
  | AwaitLeader _ | AwaitFollower _ => true
  | _ => false
  end.

(** Steps of calls other than [r]: their dispatch, the response to them,
    the steps of their [catch] blocks. *)
Definition of_other_call (r : nat) (ev : Event) : Prop :=
  match ev with
  | Dispatch r' _ | Respond r' _ | StoreDone r' => r' <> r
  | RefreshResume _ | RefreshResponse _ _ => False
  end.

(** The calls [fs] receive their 401 responses, one after the other. *)
Definition joins (reply : nat -> AxiosResponse) (fs : list nat) : list Event :=
  map (fun r => Respond r (Failure (reply r))) fs.

(** The leader receives its 401 and starts refresh [p]; the other calls
    receive theirs while the refresh is at its first, second or third
    [await]; the refresh runs to its end. *)
Definition single_flight (reply : nat -> AxiosResponse) (p leader : nat)
    (fs1 fs2 fs3 : list nat) (outcome : RefreshOutcome) : list Event :=
  (Respond leader (Failure (reply leader)) :: joins reply fs1 ++ RefreshResume p ::
   match outcome with
   | NoRefreshToken => []
   | EndpointError e => joins reply fs2 ++ [RefreshResponse p (PostError e)]
   | NewToken token =>
       joins reply fs2 ++ RefreshResponse p (PostData token) :: joins reply fs3 ++
       [RefreshResume p]
   end)%list.

Definition participants (leader : nat) (fs1 fs2 fs3 : list nat)
    (outcome : RefreshOutcome) : list nat :=
  (leader :: fs1 ++
   match outcome with
   | NoRefreshToken => []
   | EndpointError _ => fs2
   | NewToken _ => fs2 ++ fs3
   end)%list.

(** While refresh [p], started from state [st0], is pending in state [st]:
    the calls [ws] wait for it, the other calls are as they were. *)
Record Waiting (st0 : State) (p : nat) (t : RefreshTask) (ws : list nat)
    (posts : nat) (store : SecureStorage.State) (st : State) : Prop := {
  w_flag : isRefreshingToken st = true;
  w_promise : tokenRefreshPromise st = Some p;
  w_refresh : refreshes st !! p = Some (mkRefresh t ws);
  w_next : nextPromise st = S p;
  w_posts : refreshPosts st = posts;
  w_store : secureStore st = store;
  w_waiters : forall r, r ∈ ws ->
    exists cfg, calls st0 !! r = Some (mkCall cfg InFlight) /\
                awaiting st r (set_retry cfg) /\ has_headers cfg = true;
  w_others : forall r, r ∉ ws -> calls st !! r = calls st0 !! r
}.

(** The two module-level variables agree, the promise variable holds a
    promise that a call of [refreshToken()] returned, and the promises are
    numbered below [nextPromise]. *)
Record Consistent (st : State) : Prop := {
  c_flag : isRefreshingToken st = true <-> is_Some (tokenRefreshPromise st);
  c_promise : forall p, tokenRefreshPromise st = Some p -> is_Some (refreshes st !! p);
  c_fresh : forall p, is_Some (refreshes st !! p) -> (p < nextPromise st)%nat
}.

(** How often the transport has taken a request of call [r]. *)
Definition times_sent (r : nat) (st : State) : nat :=
  length (filter (fun e : nat * AxiosRequestConfig => fst e = r) (sent st)).

(** How often call [r] can still be handed to the transport: twice before
    its [_retry] flag is set, once after, counting down when it is on the
    wire. *)
Definition sends_of (c : Call) : nat :=
  match pc c with
  | Queued | AwaitLeader _ | AwaitFollower _ => if _retry (config c) then 1 else 2
  | InFlight => if _retry (config c) then 0 else 1
  | _ => 0
  end.

Definition sends_left (st : State) (r : nat) : nat :=
  from_option sends_of 0%nat (calls st !! r).

(** What [deleteItem(key)] throws when the platform rejects the removal. *)
Definition removal_failure (key : string) : JsError :=
  Error ("Failed to delete secure data for key: " ++ key).

(** The store accepts the removal of the two tokens. *)
Definition removals_accepted (store : SecureStorage.State) : Prop :=
  SecureStorage.removal_rejected store (SecureStorage.KEY_PREFIX ++ "auth_token") = false /\
  SecureStorage.removal_rejected store (SecureStorage.KEY_PREFIX ++ "refresh_token") = false.

(** Events other than the steps of the [catch] block of call [r]. *)
Definition besides_catch_of (r : nat) (evs : list Event) : Prop :=
  Forall (fun ev => ev <> StoreDone r) evs.

(** The moves of one call [apiClient(config)], from the request interceptor
    to the promise it settles. *)
Inductive moves : Call -> Call -> Prop :=
| sent_to_transport cfg cfg' :
    _retry cfg' = _retry cfg -> moves (mkCall cfg Queued) (mkCall cfg' InFlight)
| rejected_before_sending cfg a :
    moves (mkCall cfg Queued) (mkCall cfg (Settled (Throw (Rejection a))))
| answered cfg response :
    moves (mkCall cfg InFlight) (mkCall cfg (Settled (Ok response)))
| failed cfg a :
    moves (mkCall cfg InFlight) (mkCall cfg (Settled (Throw (Rejection a))))
| normalization_failed cfg :
    moves (mkCall cfg InFlight)
          (mkCall cfg (Settled (Throw ErrorHandlers.not_a_function)))
| refresh_started cfg p :
    _retry cfg = false -> moves (mkCall cfg InFlight) (mkCall (set_retry cfg) (AwaitLeader p))
| refresh_joined cfg p :
    _retry cfg = false -> moves (mkCall cfg InFlight) (mkCall (set_retry cfg) (AwaitFollower p))
| replayed cfg pc token :
    is_await pc = true ->
    moves (mkCall cfg pc)
          (mkCall (set_header "Authorization" ("Bearer " ++ token) cfg) Queued)
| refresh_restarted cfg p p' :
    moves (mkCall cfg (AwaitFollower p)) (mkCall cfg (AwaitLeader p'))
| refresh_failed cfg pc :
    is_await pc = true -> moves (mkCall cfg pc) (mkCall cfg AwaitDeleteAuth)
| auth_token_deleted cfg :
    moves (mkCall cfg AwaitDeleteAuth) (mkCall cfg AwaitDeleteRefresh)
| tokens_deleted cfg :
    moves (mkCall cfg AwaitDeleteRefresh)
          (mkCall cfg (Settled (Throw (Rejection AUTH_REQUIRED))))
| auth_token_kept cfg :
    moves (mkCall cfg AwaitDeleteAuth)
          (mkCall cfg (Settled (Throw (removal_failure "auth_token"))))
| refresh_token_kept cfg :
    moves (mkCall cfg AwaitDeleteRefresh)
          (mkCall cfg (Settled (Throw (removal_failure "refresh_token")))).

(** Call [r] is where it was, or has made some of these moves. *)
Definition lifecycle (st st' : State) (r : nat) : Prop :=
  option_Forall2 (rtc moves) (calls st !! r) (calls st' !! r).

(** What the client rejects a call with: a normalized error object, what
    [handleApiError] throws on a message that is no string, or the error of
    a removal that failed in the [catch] block. *)
Definition client_error (e : JsError) : Prop :=
  (exists a, e = Rejection a) \/ e = ErrorHandlers.not_a_function \/
  exists key, e = removal_failure key.

(** No call was rejected with anything else, such as the error of the
    transport or of the request interceptor as it was thrown. *)
Definition Normalized (st : State) : Prop :=
  forall r cfg e, calls st !! r = Some (mkCall cfg (Settled (Throw e))) ->
    client_error e.

End ApiClient.

(** ** [src/hooks/useAuth.ts] *)

Module UseAuth.
Import Js.

Inductive On401 := returnNull | throw.

(** What the query function returns: [response.data], or [null]. *)
Inductive QueryData :=
| Data (data : option ResponseData)
| Null.

(** [error.response?.status]: an Axios error carries the response; an
    [Error] and the objects the API client rejects with ([ApiError]) have no
    [response] property. *)
Definition response_status (error : JsError) : option Z :=
  match error with
  | AxiosError _ (Some response) _ _ => Some (resp_status response)
  | _ => None
  end.

(** [getQueryFn(options)], applied to the outcome of [apiClient.get(url)]. *)
Definition getQueryFn (on401 : option On401) (outcome : result AxiosResponse) :
    result QueryData :=
  match outcome with
  | Ok response => Ok (Data (resp_data response))
  | Throw error =>
      if bool_decide (response_status error = Some 401) &&
         match on401 with Some returnNull => true | _ => false end
      then Ok Null
      else Throw error
  end.

End UseAuth.

(** ** [src/lib/utils/validation.ts] *)

Module Validation.
Import Js.

(** The values of type [number]: the finite ones, which are rational
    numbers, the two infinities and [NaN]. *)
Inductive Number :=
| Finite (q : QArith_base.Q)
| PlusInfinity
| MinusInfinity
| NaN.

Definition of_Z (n : Z) : Number := Finite (QArith_base.inject_Z n).

(** [a < b] on numbers: false as soon as one of them is [NaN]. *)
Definition lt (a b : Number) : bool :=
  match a, b with
  | NaN, _ | _, NaN => false
  | Finite x, Finite y => negb (QArith_base.Qle_bool y x)
  | MinusInfinity, MinusInfinity => false
  | MinusInfinity, _ => true
  | PlusInfinity, _ => false
  | Finite _, PlusInfinity => true
  | Finite _, MinusInfinity => false
  end.

(** The values of form fields. *)
#[warnings="-register-all"]
Inductive Value :=
| VUndefined
| VNull
| VBoolean (b : bool)
| VNumber (x : Number)
| VString (s : string)
| VArray (items : list Value).

(** [required?: boolean | string]. *)
Inductive Required :=
| RequiredAbsent
| RequiredFlag (b : bool)
| RequiredMessage (message : string).

(** [number | { value: number; message: string }] and its like. *)
Inductive Limit (A : Type) :=
| Plain (value : A)
| WithMessage (value : A) (message : string).
Arguments Plain {A} _.
Arguments WithMessage {A} _ _.

Definition limit_value {A} (l : Limit A) : A :=
  match l with Plain v | WithMessage v _ => v end.

(** What a custom [validate] function returns. *)
Inductive Verdict :=
| VerdictMessage (message : string)
| VerdictBoolean (b : bool)
| VerdictUndefined.

(** [ValidationRule]; a pattern is used through [RegExp.prototype.test], and
    the limits are integers, as in the rule sets of the repository. *)
Record ValidationRule := mkRule {
  required : Required;
  min : option (Limit Z);
  max : option (Limit Z);
  minLength : option (Limit Z);
  maxLength : option (Limit Z);
  pattern : option (Limit (string -> bool));
  validate_fn : option (Value -> gmap string Value -> Verdict)
}.

Definition required_truthy (r : Required) : bool :=
  match r with
  | RequiredAbsent => false
  | RequiredFlag b => b
  | RequiredMessage m => negb (String.eqb m "")
  end.

(** The characters [String.prototype.trim] removes, among the code units
    below 256. *)
Definition is_white_space (c : ascii) : bool :=
  let n := N_of_ascii c in
  (((9 <=? n) && (n <=? 13)) || (n =? 32) || (n =? 160))%N.

(** [value.trim() === '']. *)
Definition blank (s : string) : bool :=
  forallb is_white_space (list_ascii_of_string s).

Definition isValueEmpty (value : Value) : bool :=
  match value with
  | VUndefined | VNull => true
  | VString s => blank s
  | VArray items => match items with [] => true | _ => false end
  | _ => false
  end.

(** [`${n}`] for an integer. *)
Definition show (n : Z) : string := DecimalString.NilZero.string_of_int (Z.to_int n).

Definition limit_message {A} (l : Limit A) (default_message : string) : string :=
  match l with
  | Plain _ => default_message
  | WithMessage _ message => message
  end.

Definition number_rules (x : Number) (rules : ValidationRule) : option string :=
  match
    match min rules with
    | Some l =>
        if lt x (of_Z (limit_value l))
        then Some (limit_message l ("Value must be at least " ++ show (limit_value l)))
        else None
    | None => None
    end
  with
  | Some message => Some message
  | None =>
      match max rules with
      | Some l =>
          if lt (of_Z (limit_value l)) x
          then Some (limit_message l ("Value must be at most " ++ show (limit_value l)))
          else None
      | None => None
      end
  end.

Definition string_rules (s : string) (rules : ValidationRule) : option string :=
  match
    match minLength rules with
    | Some l =>
        if Z.of_nat (String.length s) <? limit_value l
        then Some (limit_message l
                     ("Must be at least " ++ show (limit_value l) ++ " characters"))
        else None
    | None => None
    end
  with
  | Some message => Some message
  | None =>
      match
        match maxLength rules with
        | Some l =>
            if limit_value l <? Z.of_nat (String.length s)
            then Some (limit_message l
                         ("Must be at most " ++ show (limit_value l) ++ " characters"))
            else None
        | None => None
        end
      with
      | Some message => Some message
      | None =>
          match pattern rules with
          | Some l =>
              if negb (limit_value l s) then Some (limit_message l "Invalid format")
              else None
          | None => None
          end
      end
  end.

Definition custom_rule (value : Value) (allValues : gmap string Value)
    (rules : ValidationRule) : option string :=
  match validate_fn rules with
  | Some f =>
      match f value allValues with
      | VerdictMessage message => Some message
      | VerdictBoolean false => Some "Invalid value"
      | _ => None
      end
  | None => None
  end.

(** [validateValue(value, rules, allValues)]; [None] is [undefined]. *)
Definition validateValue (value : Value) (rules : option ValidationRule)
    (allValues : gmap string Value) : option string :=
  match rules with
  | None => None
  | Some rules =>
      if required_truthy (required rules) && isValueEmpty value then
        Some (match required rules with
              | RequiredMessage message => message
              | _ => "This field is required"
              end)
      else
        match value with
        | VUndefined | VNull | VString "" => None
        | _ =>
            match
              match value with
              | VNumber x => number_rules x rules
              | VString s => string_rules s rules
              | _ => None
              end
            with
            | Some message => Some message
            | None => custom_rule value allValues rules
            end
        end
  end.

(** [validate(values, rules)]: the errors of the fields that have rules. *)
Definition validate (values : gmap string Value) (rules : gmap string ValidationRule) :
    gmap string string :=
  map_imap (fun key fieldRules =>
              let error :=
                validateValue (default VUndefined (values !! key)) (Some fieldRules) values in
              if truthy error then error else None)
           rules.

(** [validationRuleSets.confirmPassword(getPassword)]. *)
Definition confirmPassword (getPassword : string) : ValidationRule :=
  mkRule (RequiredMessage "Please confirm your password") None None None None None
    (Some (fun value _ =>
             match value with
             | VString s =>
                 if String.eqb s getPassword then VerdictBoolean true
                 else VerdictMessage "Passwords must match"
             | _ => VerdictMessage "Passwords must match"
             end)).

End Validation.

(** ** Stand-ins for the libraries, used to run the model on examples *)

Module Fixture.
Import Js.

(** A reversible stand-in for the cipher: ["S"] followed by the hex of the
    plaintext bytes.  Like the library's output it is never empty and
    contains no [":"]. *)
Definition cryptoJS : Encryption.CryptoJS :=
  Encryption.mkCryptoJS
    (fun data => "sha256(" ++ data ++ ")")
    (fun data _ _ _ => Ok (String "S" (Encryption.Hex_stringify (list_byte_of_string data))))
    (fun ct _ _ =>
       match ct with
       | String "S" rest => Ok (string_of_list_byte (Encryption.Hex_parse rest))
       | _ => Throw (Error "Malformed UTF-8 data")
       end).

(** A stand-in closer to the library called with a pass phrase: the text
    carries the salt that was drawn, and decryption under another key does
    not throw but returns the empty string. *)
Definition saltedCryptoJS : Encryption.CryptoJS :=
  Encryption.mkCryptoJS
    (fun data => "sha256(" ++ data ++ ")")
    (fun data key _ salt =>
       Ok (String "S" (Encryption.Hex_stringify
                         (salt ++ list_byte_of_string (key ++ "|" ++ data))%list)))
    (fun ct key _ =>
       match ct with
       | String "S" rest =>
           let text := string_of_list_byte (drop 8 (Encryption.Hex_parse rest)) in
           if String.prefix (key ++ "|") text
           then Ok (substring (String.length key + 1) (String.length text) text)
           else Ok ""
       | _ => Ok ""
       end).

(** The [i]-th draw of [n] random bytes is [n] copies of the byte [i]. *)
Definition platform : Encryption.Platform :=
  Encryption.mkPlatform
    None
    (Ok (Some "device-1"))
    (fun i n => Ok (replicate n (Encryption.byte_of_N (N.of_nat i))))
    (fun i n => replicate n (Encryption.byte_of_N (N.of_nat i))).

(** The same platform with an encryption key in the environment. *)
Definition platformWithKey : Encryption.Platform :=
  Encryption.mkPlatform
    (Some "0123456789abcdef0123456789abcdef")
    (Ok (Some "device-1"))
    (fun i n => Ok (replicate n (Encryption.byte_of_N (N.of_nat i))))
    (fun i n => replicate n (Encryption.byte_of_N (N.of_nat i))).

(** The same platform when the device identifier cannot be read:
    [Device.getDeviceIdAsync()] throws. *)
Definition platformWithoutDeviceId : Encryption.Platform :=
  Encryption.mkPlatform
    None
    (Throw (TypeError "Device.getDeviceIdAsync is not a function"))
    (fun i n => Ok (replicate n (Encryption.byte_of_N (N.of_nat i))))
    (fun i n => replicate n (Encryption.byte_of_N (N.of_nat i))).

Definition cipher0 : Encryption.State := Encryption.mkState None 0.

Definition replacePatterns (message : string) : string := message.

(** A web store and a native store holding a session. *)
Definition nativeStore : SecureStorage.State :=
  SecureStorage.mkState SecureStorage.ios
    (<["medical_app_secure_auth_token" := "stale"]>
       (<["medical_app_secure_refresh_token" := "rt-1"]> ∅))
    ∅ cipher0 (fun _ => false).

Definition emptyStore : SecureStorage.State :=
  SecureStorage.mkState SecureStorage.ios ∅ ∅ cipher0 (fun _ => false).

Definition webStore (blob : string) : SecureStorage.State :=
  SecureStorage.mkState SecureStorage.web ∅
    (<["medical_app_secure_auth_token" := blob]> ∅) cipher0 (fun _ => false).

Definition emptyWebStore : SecureStorage.State :=
  SecureStorage.mkState SecureStorage.web ∅ ∅ cipher0 (fun _ => false).

(** The native store when the keychain rejects every removal (the device
    is locked, say). *)
Definition lockedStore : SecureStorage.State :=
  SecureStorage.mkState SecureStorage.ios
    (<["medical_app_secure_auth_token" := "stale"]>
       (<["medical_app_secure_refresh_token" := "rt-1"]> ∅))
    ∅ cipher0 (fun _ => true).

(** [JSON] at the type of strings: a document is a string literal between
    double quotes. *)
Definition quote : string := String (ascii_of_nat 34) "".

Definition json : SecureStorage.JSON string :=
  SecureStorage.mkJSON
    (fun v => Ok (quote ++ v ++ quote))
    (fun text =>
       match text with
       | String c rest =>
           if Ascii.eqb c (ascii_of_nat 34) && (1 <=? String.length rest)%nat
           then Ok (substring 0 (String.length rest - 1) rest)
           else Throw (Error "SyntaxError: Unexpected token")
       | "" => Throw (Error "SyntaxError: Unexpected end of JSON input")
       end).

(** Request configurations as the callers in [src/lib/api/hooks.ts] make
    them ([apiClient.get(endpoints.auth.me)]: the instance's default headers
    and nothing else), and one that carries an [environment] property. *)
Definition defaultHeaders : gmap string string :=
  <["Content-Type" := "application/json"]> (<["Accept" := "application/json"]> ∅).

Definition getMe : AxiosRequestConfig :=
  mkConfig "/auth/me" (Some defaultHeaders) None false.

Definition getPatients : AxiosRequestConfig :=
  mkConfig "/patients" (Some defaultHeaders)
           (Some (mkEnvironment ApiClient.app_version)) false.

Definition unauthorized : AxiosResponse := mkAxiosResponse 401 None.

(** A client with no refresh in progress and the given calls and store. *)
Definition client (store : SecureStorage.State) (cs : list (nat * ApiClient.Call)) : ApiClient.State :=
  ApiClient.mkState false None ∅ 0 (list_to_map cs) store 0 [].

(** Four calls on the wire, sent with the stored access token. *)
Definition fourInFlight (store : SecureStorage.State) : ApiClient.State :=
  client store
    [(0%nat, ApiClient.mkCall getPatients ApiClient.InFlight);
     (1%nat, ApiClient.mkCall getPatients ApiClient.InFlight);
     (2%nat, ApiClient.mkCall getPatients ApiClient.InFlight);
     (3%nat, ApiClient.mkCall getPatients ApiClient.InFlight)].

Definition reply401 (r : nat) : AxiosResponse := unauthorized.

Definition step := ApiClient.step cryptoJS platform replacePatterns.
Definition run := ApiClient.run cryptoJS platform replacePatterns.

End Fixture.

(** * Properties *)

(** ** Strings *)

Module JsFacts.
Import Js.

Lemma split_colon_nonempty s : split_colon s <> [].
Proof.
  induction s as [|c s IH]; simpl; [discriminate|].
  destruct (Ascii.eqb c ":"); [discriminate|].
  destruct (split_colon s); discriminate.
Qed.

Lemma split_colon_no_colon s : has_colon s = false -> split_colon s = [s].
Proof.
  induction s as [|c s IH]; simpl; [reflexivity|].
  destruct (Ascii.eqb c ":"); simpl; [discriminate|].
  intros H. rewrite (IH H). reflexivity.
Qed.

Lemma split_colon_app a b :
  has_colon a = false -> split_colon (a ++ ":" ++ b) = a :: split_colon b.
Proof.
  induction a as [|c a IH]; simpl; [reflexivity|].
  destruct (Ascii.eqb c ":"); simpl; [discriminate|].
  intros H. rewrite (IH H). reflexivity.
Qed.

Lemma has_colon_app a b : has_colon (a ++ b) = has_colon a || has_colon b.
Proof.
  induction a as [|c a IH]; simpl; [reflexivity|].
  rewrite IH. apply orb_assoc.
Qed.

Lemma truthy_Some s : truthy (Some s) = negb (String.eqb s "").
Proof. reflexivity. Qed.

Lemma truthy_true v : truthy v = true -> exists s, v = Some s /\ s <> "".
Proof.
  destruct v as [s|]; simpl; [|discriminate].
  intros H. exists s. split; [reflexivity|].
  intros ->. discriminate.
Qed.

Lemma truthy_nonempty s : s <> "" -> truthy (Some s) = true.
Proof.
  intros H. simpl. destruct (String.eqb_spec s ""); [contradiction|reflexivity].
Qed.

Lemma length_repeat c n : String.length (repeat c n) = n.
Proof. induction n; simpl; congruence. Qed.

Lemma length_append a b :
  String.length (a ++ b) = (String.length a + String.length b)%nat.
Proof. induction a as [|c a IH]; simpl; [reflexivity|]. rewrite IH. reflexivity. Qed.

End JsFacts.

(** ** The symmetric cipher *)

Module EncryptionFacts.
Import Js JsFacts Encryption.

Lemma hex_byte_no_colon b :
  let n := Byte.to_N b in
  Ascii.eqb (hex_digit (n / 16)) ":" = false /\ Ascii.eqb (hex_digit (n mod 16)) ":" = false.
Proof. destruct b; split; reflexivity. Qed.

Lemma hex_byte_roundtrip b :
  let n := Byte.to_N b in
  byte_of_N (parseInt16 (hex_digit (n / 16)) (Some (hex_digit (n mod 16)))) = b.
Proof. destruct b; reflexivity. Qed.

Lemma Hex_parse_stringify bytes : Hex_parse (Hex_stringify bytes) = bytes.
Proof.
  induction bytes as [|b bs IH]; [reflexivity|].
  cbn [Hex_stringify Hex_parse]. rewrite IH.
  f_equal. apply hex_byte_roundtrip.
Qed.

Lemma Hex_stringify_inj a b : Hex_stringify a = Hex_stringify b -> a = b.
Proof.
  intros H. rewrite <- (Hex_parse_stringify a), <- (Hex_parse_stringify b).
  now rewrite H.
Qed.

Lemma Hex_stringify_no_colon bytes : has_colon (Hex_stringify bytes) = false.
Proof.
  induction bytes as [|b bs IH]; [reflexivity|].
  cbn [Hex_stringify has_colon].
  destruct (hex_byte_no_colon b) as [-> ->]. exact IH.
Qed.

Lemma Hex_stringify_empty bytes : Hex_stringify bytes = "" -> bytes = [].
Proof. destruct bytes; [reflexivity|discriminate]. Qed.

Section WithLibraries.
Variable lib : CryptoJS.
Variable platform : Platform.

Lemma awaitKey_caches st key st1 :
  awaitKey lib platform st = (key, st1) -> encryptionKeyPromise st1 = Some key.
Proof.
  unfold awaitKey. destruct (encryptionKeyPromise st) as [k|] eqn:E.
  - intros [= <- <-]. exact E.
  - destruct (getEncryptionKey lib platform st) as [k st']. intros [= <- <-]. reflexivity.
Qed.

Lemma awaitKey_cached st key :
  encryptionKeyPromise st = Some key -> awaitKey lib platform st = (key, st).
Proof. unfold awaitKey. intros ->. reflexivity. Qed.

Lemma encrypt_Ok data st e st' :
  encrypt lib platform data st = (Ok e, st') ->
  exists key ct,
    encryptionKeyPromise st' = Some key /\
    AES_encrypt lib data key (drawn_iv lib platform st)
      (WordArray_random platform (S (draws (snd (awaitKey lib platform st)))) 8) = Ok ct /\
    e = Hex_stringify (drawn_iv lib platform st) ++ ":" ++ ct.
Proof.
  unfold encrypt, drawn_iv.
  destruct (awaitKey lib platform st) as [key st1] eqn:K. cbn [snd].
  destruct (AES_encrypt lib data key _ _) as [ct|err] eqn:A; cbn [try_catch];
    intros [= <- <-].
  exists key, ct. split; [|split; [exact A|reflexivity]].
  cbn. exact (awaitKey_caches _ _ _ K).
Qed.

Lemma encrypt_draws data st :
  draws (snd (encrypt lib platform data st)) =
  S (S (draws (snd (awaitKey lib platform st)))).
Proof.
  unfold encrypt. destruct (awaitKey lib platform st) as [key st1]. reflexivity.
Qed.

Lemma decrypt_blob iv ct key st :
  encryptionKeyPromise st = Some key ->
  ct <> "" -> has_colon ct = false -> iv <> [] ->
  decrypt lib platform (Hex_stringify iv ++ ":" ++ ct) st =
  (try_catch (AES_decrypt lib ct key iv)
             (fun _ => Throw (Error "Failed to decrypt data")), st).
Proof.
  intros K Hne Hcol Hiv. unfold decrypt. rewrite (awaitKey_cached _ _ K).
  rewrite split_colon_app by apply Hex_stringify_no_colon.
  rewrite (split_colon_no_colon _ Hcol). cbn [lookup list_lookup default].
  rewrite !truthy_nonempty; [|exact Hne|].
  - cbn [negb orb id]. rewrite Hex_parse_stringify. reflexivity.
  - intros H. apply Hiv. now apply Hex_stringify_empty.
Qed.

End WithLibraries.
End EncryptionFacts.

Module CipherClaims.
Import Js JsFacts Encryption EncryptionFacts.

Lemma Fixture_AES_contract : AES_contract Fixture.cryptoJS.
Proof.
  split.
  - intros data key iv salt. eexists. split; [reflexivity|].
    unfold Fixture.cryptoJS. cbn [AES_decrypt].
    rewrite Hex_parse_stringify, string_of_list_byte_of_string. reflexivity.
  - intros data key iv salt ct [= <-]. split; [discriminate|].
    cbn [has_colon]. apply Hex_stringify_no_colon.
Qed.

Lemma Fixture_random_length i n :
  length (WordArray_random Fixture.platform i n) = n.
Proof. cbn. apply length_replicate. Qed.

(** C6 (round trip).  With a cipher library that meets [AES_contract] and a
    random source that returns as many bytes as asked for, [encrypt] succeeds
    on every string [s], and [decrypt] of its output, run in any later state
    that still holds the same cached key, returns [s]. *)
Theorem decrypt_encrypt_roundtrip (lib : CryptoJS) (platform : Platform) :
  AES_contract lib ->
  (forall i n, length (WordArray_random platform i n) = n) ->
  forall (s : string) (st : State),
  exists e st1,
    encrypt lib platform s st = (Ok e, st1) /\
    forall st2, encryptionKeyPromise st2 = encryptionKeyPromise st1 ->
                fst (decrypt lib platform e st2) = Ok s.
Proof.
  intros [Hrt Hb64] Hlen s st.
  destruct (encrypt lib platform s st) as [r st1] eqn:E.
  assert (Hok : exists e, r = Ok e).
  { revert E. unfold encrypt. destruct (awaitKey lib platform st) as [key st0].
    destruct (Hrt s key (WordArray_random platform (draws st0) 16)
                  (WordArray_random platform (S (draws st0)) 8)) as [ct [-> _]].
    cbn [try_catch]. intros [= <- _]. eauto. }
  destruct Hok as [e ->]. exists e, st1. split; [reflexivity|].
  intros st2 Hkey.
  destruct (encrypt_Ok _ _ _ _ _ _ E) as (key & ct & K & A & ->).
  destruct (Hb64 _ _ _ _ _ A) as [Hne Hcol].
  rewrite decrypt_blob with (key := key).
  - cbn [fst]. destruct (Hrt s key (drawn_iv lib platform st)
      (WordArray_random platform (S (draws (snd (awaitKey lib platform st)))) 8))
      as [ct' [A' D]].
    rewrite A in A'. injection A' as <-. rewrite D. reflexivity.
  - congruence.
  - exact Hne.
  - exact Hcol.
  - intros H. pose proof (Hlen (draws (snd (awaitKey lib platform st))) 16%nat) as L.
    unfold drawn_iv in H. rewrite H in L. discriminate.
Qed.

Lemma decrypt_encrypt_roundtrip_witness :
  exists e st1,
    encrypt Fixture.cryptoJS Fixture.platform "abc123" Fixture.cipher0 = (Ok e, st1) /\
    forall st2, encryptionKeyPromise st2 = encryptionKeyPromise st1 ->
                fst (decrypt Fixture.cryptoJS Fixture.platform e st2) = Ok "abc123".
Proof.
  apply (decrypt_encrypt_roundtrip Fixture.cryptoJS Fixture.platform
           Fixture_AES_contract Fixture_random_length "abc123" Fixture.cipher0).
Defined.

Lemma encrypt_cipher_call (lib : CryptoJS) (platform : Platform) data st e st' :
  encrypt lib platform data st = (Ok e, st') ->
  exists ct,
    AES_encrypt lib data (fst (awaitKey lib platform st)) (drawn_iv lib platform st)
      (drawn_salt lib platform st) = Ok ct /\
    e = Hex_stringify (drawn_iv lib platform st) ++ ":" ++ ct.
Proof.
  unfold encrypt, drawn_iv, drawn_salt.
  destruct (awaitKey lib platform st) as [key st1]. cbn [fst snd].
  destruct (AES_encrypt lib data key _ _) as [ct|err] eqn:A; cbn [try_catch];
    intros [= <- <-].
  exists ct. split; reflexivity.
Qed.

Lemma saltedCryptoJS_fresh : AES_fresh Fixture.saltedCryptoJS.
Proof.
  intros data key iv iv' salt salt' ct ct' _ Hs [= <-] [= <-] [= H].
  apply Hex_stringify_inj, app_inv_tail in H. contradiction.
Qed.

(** C7 (IV uniqueness).  Two calls of [encrypt] on the same plaintext whose
    random IV draws differ return different [iv:ciphertext] strings; a call
    made right after another reads the random source at a later position, so
    it does make a draw of its own.  Each output is the hex of the drawn IV,
    [":"], and what the cipher returned when called with the plaintext, the
    cached key, that IV and its own salt; so, under the same key and with a
    cipher whose text differs when IV and salt do, the two cipher texts
    differ as well: the halves after the [":"] do not show that the
    plaintexts are equal. *)
Theorem encrypt_iv_unique (lib : CryptoJS) (platform : Platform)
    (data : string) (st st' : State) (e e' : string) (s1 s2 : State) :
  encrypt lib platform data st = (Ok e, s1) ->
  encrypt lib platform data st' = (Ok e', s2) ->
  drawn_iv lib platform st <> drawn_iv lib platform st' ->
  e <> e' /\
  draws (snd (awaitKey lib platform s1)) = (2 + draws (snd (awaitKey lib platform st)))%nat /\
  exists ct ct',
    e = Hex_stringify (drawn_iv lib platform st) ++ ":" ++ ct /\
    e' = Hex_stringify (drawn_iv lib platform st') ++ ":" ++ ct' /\
    AES_encrypt lib data (fst (awaitKey lib platform st)) (drawn_iv lib platform st)
      (drawn_salt lib platform st) = Ok ct /\
    AES_encrypt lib data (fst (awaitKey lib platform st')) (drawn_iv lib platform st')
      (drawn_salt lib platform st') = Ok ct' /\
    (AES_fresh lib ->
     fst (awaitKey lib platform st) = fst (awaitKey lib platform st') ->
     drawn_salt lib platform st <> drawn_salt lib platform st' ->
     ct <> ct').
Proof.
  intros E1 E2 Hiv.
  destruct (encrypt_cipher_call _ _ _ _ _ _ E1) as (c1 & A1 & ->).
  destruct (encrypt_cipher_call _ _ _ _ _ _ E2) as (c2 & A2 & ->).
  split; [|split].
  - intros Heq. apply Hiv. apply Hex_stringify_inj.
    assert (H : split_colon (Hex_stringify (drawn_iv lib platform st) ++ ":" ++ c1) =
                split_colon (Hex_stringify (drawn_iv lib platform st') ++ ":" ++ c2))
      by now rewrite Heq.
    rewrite !split_colon_app in H by apply Hex_stringify_no_colon.
    now injection H.
  - pose proof (encrypt_draws lib platform data st) as D. rewrite E1 in D. cbn [snd] in D.
    destruct (encrypt_Ok _ _ _ _ _ _ E1) as (k1 & c1' & K & _ & _).
    rewrite (awaitKey_cached _ _ _ _ K). cbn [snd]. exact D.
  - exists c1, c2. split; [reflexivity|]. split; [reflexivity|].
    split; [exact A1|]. split; [exact A2|].
    intros Hf Hk Hs. rewrite <- Hk in A2.
    exact (Hf _ _ _ _ _ _ _ _ Hiv Hs A1 A2).
Qed.

(** Two calls in a row, with a cipher whose text carries the salt. *)
Lemma encrypt_iv_unique_witness :
  let st1 := snd (encrypt Fixture.saltedCryptoJS Fixture.platform "abc" Fixture.cipher0) in
  exists e e' ct ct',
    fst (encrypt Fixture.saltedCryptoJS Fixture.platform "abc" Fixture.cipher0) = Ok e /\
    fst (encrypt Fixture.saltedCryptoJS Fixture.platform "abc" st1) = Ok e' /\
    e <> e' /\
    e = "01010101010101010101010101010101" ++ ":" ++ ct /\
    e' = "03030303030303030303030303030303" ++ ":" ++ ct' /\
    ct <> ct'.
Proof.
  intros st1.
  destruct (encrypt Fixture.saltedCryptoJS Fixture.platform "abc" Fixture.cipher0)
    as [[e|err] s1] eqn:E1; [|vm_compute in E1; discriminate E1].
  destruct (encrypt Fixture.saltedCryptoJS Fixture.platform "abc" s1)
    as [[e'|err] s2] eqn:E2;
    [|apply (f_equal snd) in E1; cbn [snd] in E1; subst s1; vm_compute in E2;
      discriminate E2].
  assert (S1 : s1 = snd (encrypt Fixture.saltedCryptoJS Fixture.platform "abc"
                           Fixture.cipher0)) by (rewrite E1; reflexivity).
  destruct (encrypt_iv_unique Fixture.saltedCryptoJS Fixture.platform "abc"
              Fixture.cipher0 s1 e e' s1 s2 E1 E2)
    as (N & _ & ct & ct' & H1 & H2 & _ & _ & F).
  - rewrite S1. vm_compute. discriminate.
  - exists e, e', ct, ct'. subst st1. cbn [snd]. rewrite E2. cbn [fst].
    split; [reflexivity|]. split; [reflexivity|]. split; [exact N|].
    split; [exact H1|]. split; [rewrite S1 in H2; exact H2|].
    apply F; [exact saltedCryptoJS_fresh| |]; rewrite S1; vm_compute;
      [reflexivity|discriminate].
Defined.

(** C8 (format check), as the code has it.  When the separator is missing,
    or the part before or after the first separator is empty, [decrypt]
    fails, and the error it throws is the one its [catch] block makes for
    every failure, ["Failed to decrypt data"]. *)
Theorem decrypt_bad_format (lib : CryptoJS) (platform : Platform) (s : string) (st : State) :
  missing_or_empty_half s ->
  fst (decrypt lib platform s st) = Throw (Error "Failed to decrypt data").
Proof.
  intros H. unfold decrypt. destruct (awaitKey lib platform st) as [key st1]. cbn [fst].
  destruct H as [H | (a & b & -> & Ha & [-> | ->])].
  - rewrite (split_colon_no_colon _ H). cbn [lookup list_lookup truthy].
    rewrite orb_true_r. reflexivity.
  - reflexivity.
  - rewrite (split_colon_app _ _ Ha). cbn [split_colon lookup list_lookup].
    destruct (truthy (Some a)); reflexivity.
Qed.

Lemma decrypt_bad_format_witness :
  fst (decrypt Fixture.cryptoJS Fixture.platform "0a0b:" Fixture.cipher0) =
  Throw (Error "Failed to decrypt data").
Proof.
  apply (decrypt_bad_format Fixture.cryptoJS Fixture.platform "0a0b:" Fixture.cipher0).
  right. exists "0a0b", "". split; [reflexivity|]. split; [reflexivity|]. right. reflexivity.
Defined.

(** C8 as stated does not hold: on an input without separator the error
    that reaches the caller is not ["Invalid encrypted data format"]. *)
Lemma decrypt_invalid_format_counterexample :
  missing_or_empty_half "ciphertext-without-separator" /\
  fst (decrypt Fixture.cryptoJS Fixture.platform "ciphertext-without-separator"
         Fixture.cipher0) <> Throw (Error "Invalid encrypted data format").
Proof.
  split; [left; reflexivity|]. vm_compute. discriminate.
Qed.

Lemma substring_all s : substring 0 (String.length s) s = s.
Proof. induction s as [|c s IH]; simpl; [reflexivity|]. now rewrite IH. Qed.

Lemma length_substring s : forall n m,
  (n + m <= String.length s)%nat -> String.length (substring n m s) = m.
Proof.
  induction s as [|c s IH]; intros n m H; simpl in H.
  - assert (n = 0%nat) by lia. assert (m = 0%nat) by lia. subst. reflexivity.
  - destruct n as [|n]; simpl.
    + destruct m as [|m]; simpl; [reflexivity|]. rewrite IH; [reflexivity|lia].
    + apply IH. lia.
Qed.

Lemma eqb_empty_length s : String.eqb s "" = false <-> (0 < String.length s)%nat.
Proof. destruct s; simpl; split; intros; try reflexivity; try discriminate; lia. Qed.

(** X1.  Within the range the documentation has in mind (at least one
    visible character), [maskSensitiveData] keeps the length, masks the
    leading characters and shows the last [visibleChars] ones. *)
Lemma maskSensitiveData_visible (value : string) (visibleChars : Z) :
  1 <= visibleChars ->
  let len := Z.of_nat (String.length value) in
  (len <= visibleChars -> maskSensitiveData value visibleChars = value) /\
  (visibleChars < len ->
   maskSensitiveData value visibleChars =
     repeat "*" (Z.to_nat (len - visibleChars)) ++
     substring (Z.to_nat (len - visibleChars)) (Z.to_nat visibleChars) value /\
   String.length (maskSensitiveData value visibleChars) = String.length value).
Proof.
  intros Hv len. unfold maskSensitiveData. fold len. split.
  - intros Hle. destruct (String.eqb_spec value ""); [congruence|].
    destruct (Z.leb_spec len visibleChars); [reflexivity|lia].
  - intros Hlt.
    assert (Hne : String.eqb value "" = false) by (apply eqb_empty_length; lia).
    rewrite Hne. destruct (Z.leb_spec len visibleChars); [lia|].
    assert (Hs : slice value (- visibleChars) =
                 substring (Z.to_nat (len - visibleChars)) (Z.to_nat visibleChars) value).
    { unfold slice. fold len. destruct (Z.ltb_spec (- visibleChars) 0); [|lia].
      rewrite Z.max_l by lia. f_equal; lia. }
    rewrite Hs. split; [reflexivity|].
    rewrite length_append, length_repeat, length_substring; lia.
Qed.

Lemma maskSensitiveData_empty (visibleChars : Z) : maskSensitiveData "" visibleChars = "".
Proof. reflexivity. Qed.

(** With no visible character asked for, the whole value follows the mask. *)
Lemma maskSensitiveData_zero (value : string) :
  value <> "" ->
  maskSensitiveData value 0 = repeat "*" (String.length value) ++ value.
Proof.
  intros Hne. unfold maskSensitiveData.
  destruct (String.eqb_spec value ""); [contradiction|].
  assert (0 < String.length value)%nat by (destruct value; simpl; [contradiction|lia]).
  destruct (Z.leb_spec (Z.of_nat (String.length value)) 0); [lia|].
  unfold slice. change (- 0) with 0. change (0 <? 0) with false. cbv iota.
  rewrite Z.min_l by lia. rewrite Z.sub_0_r, Nat2Z.id.
  change (Z.to_nat 0) with 0%nat. rewrite substring_all. reflexivity.
Qed.

(** C10 at [visibleChars = 0]: the result of masking ["1234"] is twice as
    long as the input and ends with the whole input, where the claim has a
    result of the input's length made of ['*'] only. *)
Theorem maskSensitiveData_zero_visible :
  maskSensitiveData "1234" 0 = "****1234" /\
  String.length (maskSensitiveData "1234" 0) <> String.length "1234".
Proof. split; [reflexivity|]. vm_compute. discriminate. Qed.

End CipherClaims.

(** ** The credential store *)

Module StorageFacts.
Import Js JsFacts SecureStorage.

Section WithLibraries.
Variable lib : Encryption.CryptoJS.
Variable platform : Encryption.Platform.

Lemma getItem_total key st : exists v, fst (getItem lib platform key st) = Ok v.
Proof.
  unfold getItem. destruct (negb (is_web (OS st))); [cbn; eauto|].
  destruct (negb (truthy _)); [cbn; eauto|].
  destruct (Encryption.decrypt _ _ _ _) as [[v|e] c]; cbn; eauto.
Qed.

Lemma getItem_native key st :
  is_web (OS st) = false ->
  getItem lib platform key st = (Ok (SecureStore st !! (KEY_PREFIX ++ key)), st).
Proof. unfold getItem. intros ->. reflexivity. Qed.

Lemma getItem_undecryptable key st blob :
  is_web (OS st) = true ->
  AsyncStorage st !! (KEY_PREFIX ++ key) = Some blob ->
  is_ok (fst (Encryption.decrypt lib platform blob (cipher st))) = false ->
  fst (getItem lib platform key st) = Ok None.
Proof.
  intros Hweb Hblob Hfail. unfold getItem. rewrite Hweb, Hblob. cbn [negb].
  destruct (negb (truthy (Some blob))); [reflexivity|]. cbn [default id] in *.
  destruct (Encryption.decrypt lib platform blob (cipher st)) as [[v|e] c];
    cbn in *; [discriminate|reflexivity].
Qed.

Lemma getItem_decrypted key st blob value :
  is_web (OS st) = true ->
  AsyncStorage st !! (KEY_PREFIX ++ key) = Some blob -> blob <> "" ->
  fst (Encryption.decrypt lib platform blob (cipher st)) = Ok value ->
  fst (getItem lib platform key st) = Ok (Some value).
Proof.
  intros Hweb Hblob Hne Hd. unfold getItem. rewrite Hweb, Hblob. cbn [negb].
  rewrite (truthy_nonempty _ Hne). cbn [negb default id].
  destruct (Encryption.decrypt lib platform blob (cipher st)) as [r c].
  cbn [fst] in *. subst r. reflexivity.
Qed.

Lemma getObject_total {T} (json : JSON T) key st :
  exists v, fst (getObject lib platform json key st) = Ok v.
Proof.
  unfold getObject. destruct (getItem lib platform key st) as [[v|e] st']; cbn; eauto.
  destruct (truthy v); eauto. destruct (parse json _); cbn; eauto.
Qed.

Lemma getObject_malformed {T} (json : JSON T) key st text :
  fst (getItem lib platform key st) = Ok (Some text) ->
  is_ok (parse json text) = false ->
  fst (getObject lib platform json key st) = Ok None.
Proof.
  unfold getObject. destruct (getItem lib platform key st) as [r st']. cbn [fst].
  intros -> Hbad. cbn [default id]. destruct (truthy (Some text)); [|reflexivity].
  destruct (parse json text); [discriminate|reflexivity].
Qed.

Lemma getObject_empty {T} (json : JSON T) key st :
  fst (getItem lib platform key st) = Ok (Some "") ->
  fst (getObject lib platform json key st) = Ok None.
Proof.
  unfold getObject. destruct (getItem lib platform key st) as [r st']. cbn [fst].
  intros ->. reflexivity.
Qed.

End WithLibraries.
End StorageFacts.

Module StorageClaims.
Import Js JsFacts SecureStorage StorageFacts.




End StorageClaims.

(** ** The API client *)

Module ClientFacts.
Import Js JsFacts SecureStorage ErrorHandlers ApiClient.

Lemma has_headers_set_header name value cfg :
  has_headers (set_header name value cfg) = has_headers cfg.
Proof. unfold has_headers, set_header. cbn. destruct (headers cfg); reflexivity. Qed.

Lemma has_headers_set_retry cfg : has_headers (set_retry cfg) = has_headers cfg.
Proof. reflexivity. Qed.

Section WithLibraries.
Variable lib : Encryption.CryptoJS.
Variable platform : Encryption.Platform.
Variable replacePatterns : string -> string.

Abbreviation step := (ApiClient.step lib platform replacePatterns).
Abbreviation run := (ApiClient.run lib platform replacePatterns).
Abbreviation handleApiError := (ErrorHandlers.handleApiError replacePatterns).
Abbreviation rejection := (ErrorHandlers.rejection replacePatterns).

Lemma handleApiError_Error msg :
  handleApiError (Error msg) =
  Ok (mkApiError 500 "CLIENT_ERROR" (sanitizeErrorMessage replacePatterns msg) None).
Proof. reflexivity. Qed.

Lemma handleApiError_TypeError msg :
  handleApiError (TypeError msg) =
  Ok (mkApiError 500 "CLIENT_ERROR" (sanitizeErrorMessage replacePatterns msg) None).
Proof. reflexivity. Qed.

Lemma rejection_Error msg :
  rejection (Error msg) =
  Rejection (mkApiError 500 "CLIENT_ERROR" (sanitizeErrorMessage replacePatterns msg) None).
Proof. reflexivity. Qed.

Lemma rejection_TypeError msg :
  rejection (TypeError msg) =
  Rejection (mkApiError 500 "CLIENT_ERROR" (sanitizeErrorMessage replacePatterns msg) None).
Proof. reflexivity. Qed.

(** The first statement of the request interceptor. *)
Lemma requestInterceptor_offline cfg store :
  requestInterceptor lib platform false cfg store =
  (Throw (Error "No network connection available"), store).
Proof. reflexivity. Qed.

(** With headers and without an [environment] property on the request
    configuration, reading [config.environment.version] throws. *)
Lemma requestInterceptor_no_environment cfg store :
  has_headers cfg = true -> environment cfg = None ->
  fst (requestInterceptor lib platform true cfg store) =
  Throw (TypeError "Cannot read properties of undefined (reading 'version')").
Proof.
  intros Hh He. unfold requestInterceptor. cbn [negb].
  destruct (SecureStorage.getItem lib platform "auth_token" store) as [tokenR store1].
  set (config1 := match tokenR with Ok _ => _ | Throw _ => _ end).
  assert (H1 : has_headers config1 = true /\ environment config1 = None).
  { subst config1. destruct tokenR as [token|e]; [|auto].
    destruct (truthy token); [|auto]. rewrite has_headers_set_header. auto. }
  destruct H1 as [H1 H2]. unfold has_headers in H1.
  destruct (headers config1); [|discriminate]. rewrite H2. reflexivity.
Qed.

(** With an [environment] property the interceptor succeeds, and the version
    header it sets is that property's version. *)
Lemma requestInterceptor_with_environment cfg store env hs :
  headers cfg = Some hs -> environment cfg = Some env ->
  exists cfg',
    fst (requestInterceptor lib platform true cfg store) = Ok cfg' /\
    exists hs', headers cfg' = Some hs' /\ hs' !! "X-App-Version" = Some (version env).
Proof.
  intros Hh He. unfold requestInterceptor. cbn [negb].
  destruct (SecureStorage.getItem lib platform "auth_token" store) as [tokenR store1].
  set (config1 := match tokenR with Ok _ => _ | Throw _ => _ end).
  assert (H1 : exists h1, headers config1 = Some h1 /\ environment config1 = Some env).
  { subst config1. destruct tokenR as [token|e]; [|eauto].
    destruct (truthy token); [|eauto]. unfold set_header. cbn. rewrite Hh. cbn. eauto. }
  destruct H1 as (h1 & H1 & H2). rewrite H1, H2.
  destruct (StorageFacts.getItem_total lib platform "user_id" store1) as [userId Hu].
  destruct (SecureStorage.getItem lib platform "user_id" store1) as [userIdR store2].
  cbn [fst] in Hu. subst userIdR.
  destruct (truthy userId); cbn [fst]; eexists; (split; [reflexivity|]);
    unfold set_header; cbn; rewrite H1; cbn; eexists; (split; [reflexivity|]).
  - rewrite lookup_insert_ne by discriminate. apply lookup_insert_eq.
  - apply lookup_insert_eq.
Qed.

Lemma requestInterceptor_retry cfg store cfg' :
  fst (requestInterceptor lib platform true cfg store) = Ok cfg' -> _retry cfg' = _retry cfg.
Proof.
  unfold requestInterceptor. cbn [negb].
  destruct (SecureStorage.getItem lib platform "auth_token" store) as [tokenR store1].
  set (config1 := match tokenR with Ok _ => _ | Throw _ => _ end).
  assert (H1 : _retry config1 = _retry cfg).
  { subst config1. destruct tokenR as [token|e]; [|reflexivity].
    destruct (truthy token); reflexivity. }
  destruct (headers config1); [|cbn; congruence].
  destruct (environment config1); [|discriminate].
  destruct (SecureStorage.getItem lib platform "user_id" store1) as [[userId|err] store2];
    [|discriminate].
  destruct (truthy userId); cbn; intros [= <-]; exact H1.
Qed.

(** *** One step at a time *)

Lemma dispatch_offline st r cfg :
  calls st !! r = Some (mkCall cfg Queued) ->
  step st (Dispatch r false) =
  settle_call r cfg
    (Throw (rejection (Error "No network connection available")))
    (set_store (secureStore st) st).
Proof.
  intros H. cbn [ApiClient.step]. unfold dispatch. rewrite H.
  rewrite requestInterceptor_offline. unfold responseRejected.
  cbn [calls set_store]. rewrite H. reflexivity.
Qed.

Lemma dispatch_no_environment st r cfg :
  calls st !! r = Some (mkCall cfg Queued) ->
  has_headers cfg = true -> environment cfg = None ->
  step st (Dispatch r true) =
  settle_call r cfg
    (Throw (rejection
       (TypeError "Cannot read properties of undefined (reading 'version')")))
    (set_store (snd (requestInterceptor lib platform true cfg (secureStore st))) st).
Proof.
  intros H Hh He. cbn [ApiClient.step]. unfold dispatch. rewrite H.
  pose proof (requestInterceptor_no_environment cfg (secureStore st) Hh He) as Hi.
  destruct (requestInterceptor lib platform true cfg (secureStore st)) as [c store'].
  cbn [fst snd] in *. subst c. unfold responseRejected.
  cbn [calls set_store]. rewrite H. reflexivity.
Qed.

Lemma dispatch_sent st r cfg cfg' store' :
  calls st !! r = Some (mkCall cfg Queued) ->
  requestInterceptor lib platform true cfg (secureStore st) = (Ok cfg', store') ->
  step st (Dispatch r true) =
  log_sent r cfg' (set_call r (mkCall cfg' InFlight) (set_store store' st)).
Proof.
  intros H Hi. cbn [ApiClient.step]. unfold dispatch. rewrite H, Hi. reflexivity.
Qed.

Lemma respond_final st r cfg response :
  calls st !! r = Some (mkCall cfg InFlight) ->
  resp_status response <> 401 \/ _retry cfg = true ->
  step st (Respond r (Failure response)) =
  settle_call r cfg
    (Throw (rejection (AxiosError cfg (Some response) true "ERR_BAD_REQUEST")))
    st.
Proof.
  intros H Hc. cbn [ApiClient.step]. unfold respond. rewrite H. unfold responseRejected.
  destruct Hc as [Hs | Hr].
  - destruct (Z.eqb_spec (resp_status response) 401); [contradiction|]. reflexivity.
  - rewrite Hr. rewrite andb_false_r. reflexivity.
Qed.

Lemma respond_leader st r cfg response :
  calls st !! r = Some (mkCall cfg InFlight) ->
  resp_status response = 401 -> _retry cfg = false ->
  isRefreshingToken st = false ->
  step st (Respond r (Failure response)) = start_refresh r (set_retry cfg) st.
Proof.
  intros H Hs Hr Hf. cbn [ApiClient.step]. unfold respond. rewrite H. unfold responseRejected.
  rewrite Hs, Hr, Hf. reflexivity.
Qed.

Lemma respond_follower st r cfg response p t :
  calls st !! r = Some (mkCall cfg InFlight) ->
  resp_status response = 401 -> _retry cfg = false ->
  isRefreshingToken st = true -> tokenRefreshPromise st = Some p ->
  refreshes st !! p = Some t -> outcome_of (task t) = None ->
  step st (Respond r (Failure response)) =
  set_refresh p (mkRefresh (task t) (waiters t ++ [r]))
    (set_call r (mkCall (set_retry cfg) (AwaitFollower p)) st).
Proof.
  intros H Hs Hr Hf Hp Ht Ho. cbn [ApiClient.step]. unfold respond. rewrite H.
  unfold responseRejected. rewrite Hs, Hr, Hf, Hp. unfold await_follower.
  rewrite Ht, Ho. reflexivity.
Qed.

Lemma refreshResume_getItem st p ws v store' :
  refreshes st !! p = Some (mkRefresh AwaitGetItem ws) ->
  SecureStorage.getItem lib platform "refresh_token" (secureStore st) = (Ok v, store') ->
  step st (RefreshResume p) =
  if truthy v
  then count_post (set_refresh p (mkRefresh (AwaitPost (default "" v)) ws) (set_store store' st))
  else settle_refresh p (Throw (Error "No refresh token available")) (set_store store' st).
Proof.
  intros H Hg. cbn [ApiClient.step]. unfold refreshResume. rewrite H, Hg. reflexivity.
Qed.

Lemma refreshResume_setItem st p ws token w store' :
  refreshes st !! p = Some (mkRefresh (AwaitSetItem token) ws) ->
  SecureStorage.setItem lib platform "auth_token" token (secureStore st) = (w, store') ->
  step st (RefreshResume p) =
  settle_refresh p (match w with Ok _ => Ok token | Throw e => Throw e end)
                 (set_store store' st).
Proof.
  intros H Hs. cbn [ApiClient.step]. unfold refreshResume. rewrite H, Hs.
  destruct w; reflexivity.
Qed.

Lemma refreshResponse_post st p rt ws reply :
  refreshes st !! p = Some (mkRefresh (AwaitPost rt) ws) ->
  step st (RefreshResponse p reply) =
  match reply with
  | PostData token => set_refresh p (mkRefresh (AwaitSetItem token) ws) st
  | PostError e => settle_refresh p (Throw e) st
  end.
Proof.
  intros H. cbn [ApiClient.step]. unfold refreshResponse. rewrite H. reflexivity.
Qed.

Lemma deleteItem_accepted key store :
  removal_rejected store (KEY_PREFIX ++ key) = false ->
  fst (deleteItem key store) = Ok tt /\ stored key (snd (deleteItem key store)) = None.
Proof.
  intros H. unfold deleteItem, stored, platform_remove. rewrite H.
  destruct (is_web (OS store)) eqn:E; cbn; rewrite E; (split; [reflexivity|]);
    apply lookup_delete_eq.
Qed.

Lemma deleteItem_rejected key store :
  removal_rejected store (KEY_PREFIX ++ key) = true ->
  deleteItem key store = (Throw (removal_failure key), store).
Proof.
  intros H. unfold deleteItem, platform_remove. rewrite H.
  destruct (negb (is_web (OS store))); reflexivity.
Qed.

(** [deleteItem] returns, or throws its own error and leaves the store. *)
Lemma deleteItem_cases key store :
  (removal_rejected store (KEY_PREFIX ++ key) = false /\ fst (deleteItem key store) = Ok tt) \/
  (removal_rejected store (KEY_PREFIX ++ key) = true /\
   deleteItem key store = (Throw (removal_failure key), store)).
Proof.
  destruct (removal_rejected store (KEY_PREFIX ++ key)) eqn:E.
  - right. split; [reflexivity|]. apply deleteItem_rejected, E.
  - left. split; [reflexivity|]. apply deleteItem_accepted, E.
Qed.

Lemma deleteItem_keeps_absent key key' store :
  stored key' store = None -> stored key' (snd (deleteItem key store)) = None.
Proof.
  unfold deleteItem, stored, platform_remove.
  destruct (removal_rejected store (KEY_PREFIX ++ key)).
  - destruct (negb (is_web (OS store))); cbn; auto.
  - destruct (is_web (OS store)) eqn:E; cbn; rewrite E;
      intros H; rewrite lookup_delete; case_decide; auto.
Qed.

Lemma deleteItem_removal_rejected key store :
  removal_rejected (snd (deleteItem key store)) = removal_rejected store.
Proof.
  unfold deleteItem, platform_remove.
  destruct (removal_rejected store (KEY_PREFIX ++ key)), (negb (is_web (OS store)));
    reflexivity.
Qed.

Lemma storeDone_auth st r cfg :
  calls st !! r = Some (mkCall cfg AwaitDeleteAuth) ->
  removal_rejected (secureStore st) (KEY_PREFIX ++ "auth_token") = false ->
  step st (StoreDone r) =
  set_call r (mkCall cfg AwaitDeleteRefresh)
    (set_store (snd (deleteItem "auth_token" (secureStore st))) st).
Proof.
  intros H Ha. cbn [ApiClient.step]. unfold storeDone. rewrite H.
  destruct (deleteItem_accepted "auth_token" (secureStore st) Ha) as [Hd _].
  destruct (deleteItem "auth_token" (secureStore st)) as [d store']. cbn [fst snd] in *.
  subst d. reflexivity.
Qed.

Lemma storeDone_auth_rejected st r cfg :
  calls st !! r = Some (mkCall cfg AwaitDeleteAuth) ->
  removal_rejected (secureStore st) (KEY_PREFIX ++ "auth_token") = true ->
  step st (StoreDone r) =
  finally (settle_call r cfg (Throw (removal_failure "auth_token")) st).
Proof.
  intros H Ha. cbn [ApiClient.step]. unfold storeDone. rewrite H.
  rewrite (deleteItem_rejected "auth_token" (secureStore st) Ha).
  destruct st. reflexivity.
Qed.

Lemma storeDone_refresh st r cfg :
  calls st !! r = Some (mkCall cfg AwaitDeleteRefresh) ->
  removal_rejected (secureStore st) (KEY_PREFIX ++ "refresh_token") = false ->
  step st (StoreDone r) =
  finally (settle_call r cfg (Throw (Rejection AUTH_REQUIRED))
             (set_store (snd (deleteItem "refresh_token" (secureStore st))) st)).
Proof.
  intros H Ha. cbn [ApiClient.step]. unfold storeDone. rewrite H.
  destruct (deleteItem_accepted "refresh_token" (secureStore st) Ha) as [Hd _].
  destruct (deleteItem "refresh_token" (secureStore st)) as [d store']. cbn [fst snd] in *.
  subst d. reflexivity.
Qed.

Lemma storeDone_refresh_rejected st r cfg :
  calls st !! r = Some (mkCall cfg AwaitDeleteRefresh) ->
  removal_rejected (secureStore st) (KEY_PREFIX ++ "refresh_token") = true ->
  step st (StoreDone r) =
  finally (settle_call r cfg (Throw (removal_failure "refresh_token")) st).
Proof.
  intros H Ha. cbn [ApiClient.step]. unfold storeDone. rewrite H.
  rewrite (deleteItem_rejected "refresh_token" (secureStore st) Ha).
  destruct st. reflexivity.
Qed.

(** *** The continuations after [await tokenRefreshPromise] *)

Lemma resume_Ok st r cfg token :
  awaiting st r cfg -> token <> "" ->
  resume (Ok token) st r =
  replay r (set_header "Authorization" ("Bearer " ++ token) cfg) st.
Proof.
  intros [q [H | [H Hh]]] Ht; unfold resume; rewrite H; [reflexivity|].
  rewrite Hh. destruct (String.eqb_spec token ""); [contradiction|]. reflexivity.
Qed.

Lemma resume_Throw st r cfg e :
  awaiting st r cfg ->
  resume (Throw e) st r = set_call r (mkCall cfg AwaitDeleteAuth) st.
Proof. intros [q [H | [H Hh]]]; unfold resume; rewrite H; reflexivity. Qed.

Lemma awaiting_frame st st' r cfg :
  calls st' !! r = calls st !! r -> awaiting st r cfg -> awaiting st' r cfg.
Proof. intros E [q H]. exists q. rewrite E. exact H. Qed.

(** A resolved refresh with a token that is not empty: every waiting call
    is replayed with that token, and nothing else changes but the two
    module-level variables, which the [finally] blocks clear. *)
Lemma foldl_resume_Ok token ws :
  token <> "" ->
  forall st,
  NoDup ws ->
  (forall r, r ∈ ws -> exists cfg, awaiting st r cfg) ->
  let st' := foldl (resume (Ok token)) st ws in
  (forall r cfg, r ∈ ws -> awaiting st r cfg ->
     calls st' !! r =
     Some (mkCall (set_header "Authorization" ("Bearer " ++ token) cfg) Queued)) /\
  (forall r, r ∉ ws -> calls st' !! r = calls st !! r) /\
  refreshes st' = refreshes st /\ nextPromise st' = nextPromise st /\
  refreshPosts st' = refreshPosts st /\ secureStore st' = secureStore st /\
  sent st' = sent st /\
  (ws <> [] -> isRefreshingToken st' = false /\ tokenRefreshPromise st' = None).
Proof.
  intros Ht. induction ws as [|w ws IH]; intros st Hnd Haw.
  - cbn. repeat split; try reflexivity; try contradiction.
    intros r cfg Hr. inversion Hr.
  - apply NoDup_cons in Hnd as [Hw Hnd]. cbn [foldl].
    destruct (Haw w) as [cfgw Hcw]; [left|].
    rewrite (resume_Ok _ _ _ _ Hcw Ht).
    set (st1 := replay w _ st).
    assert (Hother : forall r, r <> w -> calls st1 !! r = calls st !! r).
    { intros r Hr. subst st1. cbn. apply lookup_insert_ne. congruence. }
    destruct (IH st1 Hnd) as (A & B & C & D & E & F & G & _).
    { intros r Hr. destruct (Haw r) as [cfg Hc]; [right; exact Hr|].
      exists cfg. apply (awaiting_frame st); [|exact Hc].
      apply Hother. intros ->. contradiction. }
    split; [|split; [|repeat split]].
    + intros r cfg Hr Hc. apply elem_of_cons in Hr as [-> | Hr].
      * rewrite B by exact Hw. subst st1. cbn. rewrite lookup_insert_eq.
        destruct Hcw as [q1 [H1 | [H1 _]]], Hc as [q2 [H2 | [H2 _]]];
          rewrite H1 in H2; injection H2 as -> _; reflexivity.
      * apply A; [exact Hr|]. apply (awaiting_frame st); [|exact Hc].
        apply Hother. intros ->. contradiction.
    + intros r Hr. apply not_elem_of_cons in Hr as [Hr1 Hr2].
      rewrite B by exact Hr2. apply Hother. exact Hr1.
    + rewrite C. reflexivity.
    + rewrite D. reflexivity.
    + rewrite E. reflexivity.
    + rewrite F. reflexivity.
    + rewrite G. reflexivity.
    + destruct ws as [|w' ws'].
      * reflexivity.
      * destruct (IH st1 Hnd) as (_ & _ & _ & _ & _ & _ & _ & Hfl).
        { intros r Hr. destruct (Haw r) as [cfg Hc]; [right; exact Hr|].
          exists cfg. apply (awaiting_frame st); [|exact Hc].
          apply Hother. intros ->. contradiction. }
        apply Hfl. discriminate.
    + destruct ws as [|w' ws'].
      * reflexivity.
      * destruct (IH st1 Hnd) as (_ & _ & _ & _ & _ & _ & _ & Hfl).
        { intros r Hr. destruct (Haw r) as [cfg Hc]; [right; exact Hr|].
          exists cfg. apply (awaiting_frame st); [|exact Hc].
          apply Hother. intros ->. contradiction. }
        apply Hfl. discriminate.
Qed.

(** A rejected refresh: every waiting call enters its [catch] block, and
    nothing else changes. *)
Lemma foldl_resume_Throw e ws :
  forall st,
  NoDup ws ->
  (forall r, r ∈ ws -> exists cfg, awaiting st r cfg) ->
  let st' := foldl (resume (Throw e)) st ws in
  (forall r cfg, r ∈ ws -> awaiting st r cfg ->
     calls st' !! r = Some (mkCall cfg AwaitDeleteAuth)) /\
  (forall r, r ∉ ws -> calls st' !! r = calls st !! r) /\
  refreshes st' = refreshes st /\ nextPromise st' = nextPromise st /\
  refreshPosts st' = refreshPosts st /\ secureStore st' = secureStore st /\
  sent st' = sent st /\
  isRefreshingToken st' = isRefreshingToken st /\
  tokenRefreshPromise st' = tokenRefreshPromise st.
Proof.
  induction ws as [|w ws IH]; intros st Hnd Haw.
  - cbn. repeat split; try reflexivity. intros r cfg Hr. inversion Hr.
  - apply NoDup_cons in Hnd as [Hw Hnd]. cbn [foldl].
    destruct (Haw w) as [cfgw Hcw]; [left|].
    rewrite (resume_Throw _ _ _ _ Hcw).
    set (st1 := set_call w _ st).
    assert (Hother : forall r, r <> w -> calls st1 !! r = calls st !! r).
    { intros r Hr. subst st1. cbn. apply lookup_insert_ne. congruence. }
    destruct (IH st1 Hnd) as (A & B & C & D & E & F & G & H1 & H2).
    { intros r Hr. destruct (Haw r) as [cfg Hc]; [right; exact Hr|].
      exists cfg. apply (awaiting_frame st); [|exact Hc].
      apply Hother. intros ->. contradiction. }
    split; [|split; [|repeat split]].
    + intros r cfg Hr Hc. apply elem_of_cons in Hr as [-> | Hr].
      * rewrite B by exact Hw. subst st1. cbn. rewrite lookup_insert_eq.
        destruct Hcw as [q1 [H3 | [H3 _]]], Hc as [q2 [H4 | [H4 _]]];
          rewrite H3 in H4; injection H4 as -> _; reflexivity.
      * apply A; [exact Hr|]. apply (awaiting_frame st); [|exact Hc].
        apply Hother. intros ->. contradiction.
    + intros r Hr. apply not_elem_of_cons in Hr as [Hr1 Hr2].
      rewrite B by exact Hr2. apply Hother. exact Hr1.
    + rewrite C. reflexivity.
    + rewrite D. reflexivity.
    + rewrite E. reflexivity.
    + rewrite F. reflexivity.
    + rewrite G. reflexivity.
    + rewrite H1. reflexivity.
    + rewrite H2. reflexivity.
Qed.

(** *** Calls that wait for one refresh *)

Lemma run_nil st : run st [] = st.
Proof. reflexivity. Qed.

Lemma run_cons st ev evs : run st (ev :: evs) = run (step st ev) evs.
Proof. reflexivity. Qed.

Lemma run_app st evs1 evs2 : run st (evs1 ++ evs2) = run (run st evs1) evs2.
Proof. apply foldl_app. Qed.

Lemma waiting_start st0 r cfg response :
  isRefreshingToken st0 = false ->
  calls st0 !! r = Some (mkCall cfg InFlight) ->
  _retry cfg = false -> has_headers cfg = true -> resp_status response = 401 ->
  Waiting st0 (nextPromise st0) AwaitGetItem [r] (refreshPosts st0) (secureStore st0)
          (step st0 (Respond r (Failure response))).
Proof.
  intros Hf Hc Hr Hh Hs. rewrite (respond_leader _ _ _ _ Hc Hs Hr Hf).
  split; cbn; try reflexivity.
  - apply lookup_insert_eq.
  - intros r' Hr'. apply list_elem_of_singleton in Hr' as ->.
    exists cfg. split; [exact Hc|]. split; [|exact Hh].
    exists (nextPromise st0). left. cbn. apply lookup_insert_eq.
  - intros r' Hr'. apply lookup_insert_ne. intros ->. apply Hr'. left.
Qed.

Lemma waiting_join st0 p t ws posts store st f cfg response :
  Waiting st0 p t ws posts store st ->
  outcome_of t = None -> f ∉ ws ->
  calls st0 !! f = Some (mkCall cfg InFlight) ->
  _retry cfg = false -> has_headers cfg = true -> resp_status response = 401 ->
  Waiting st0 p t (ws ++ [f]) posts store (step st (Respond f (Failure response))).
Proof.
  intros W Ho Hf Hc Hr Hh Hs.
  assert (Hcf : calls st !! f = Some (mkCall cfg InFlight))
    by (rewrite (w_others _ _ _ _ _ _ _ W f Hf); exact Hc).
  rewrite (respond_follower _ _ _ _ _ _ Hcf Hs Hr (w_flag _ _ _ _ _ _ _ W)
             (w_promise _ _ _ _ _ _ _ W) (w_refresh _ _ _ _ _ _ _ W) Ho).
  destruct W as [W1 W2 W3 W4 W5 W6 W7 W8].
  split; cbn; try assumption.
  - apply lookup_insert_eq.
  - intros r Hr'. apply elem_of_app in Hr' as [Hr' | Hr'].
    + destruct (W7 r Hr') as (c & Hc0 & Ha & Hhh). exists c.
      split; [exact Hc0|]. split; [|exact Hhh].
      apply (awaiting_frame st); [|exact Ha]. cbn.
      apply lookup_insert_ne. intros ->. contradiction.
    + apply list_elem_of_singleton in Hr' as ->. exists cfg.
      split; [exact Hc|]. split; [|exact Hh].
      exists p. right. split; [|exact Hh]. cbn. apply lookup_insert_eq.
  - intros r Hr'. apply not_elem_of_app in Hr' as [Hr1 Hr2].
    rewrite lookup_insert_ne by (intros ->; apply Hr2; left).
    apply W8. exact Hr1.
Qed.

Lemma waiting_joins st0 p t posts store reply fs :
  outcome_of t = None ->
  (forall r, resp_status (reply r) = 401) ->
  forall ws st,
  Waiting st0 p t ws posts store st ->
  NoDup (ws ++ fs) ->
  (forall f, f ∈ fs -> exists cfg,
      calls st0 !! f = Some (mkCall cfg InFlight) /\ _retry cfg = false /\
      has_headers cfg = true) ->
  Waiting st0 p t (ws ++ fs) posts store (run st (joins reply fs)).
Proof.
  intros Ho Hs. induction fs as [|f fs IH]; intros ws st W Hnd Hfs.
  - rewrite app_nil_r. exact W.
  - cbn [joins map]. change (run st (?e :: ?es)) with (run (step st e) es).
    replace (ws ++ f :: fs)%list with ((ws ++ [f]) ++ fs)%list in *
      by (rewrite <- app_assoc; reflexivity).
    destruct (Hfs f) as (cfg & Hc & Hr & Hh); [left|].
    apply IH.
    + apply (waiting_join _ _ _ _ _ _ _ _ cfg); auto.
      apply NoDup_app in Hnd as (Hnd & _ & _).
      apply NoDup_app in Hnd as (_ & Hnd & _).
      intros Hin. apply (Hnd f Hin). left.
    + exact Hnd.
    + intros f' Hf'. apply Hfs. right. exact Hf'.
Qed.

Lemma waiting_update st0 p t ws posts store st t' posts' store' st' :
  Waiting st0 p t ws posts store st ->
  isRefreshingToken st' = isRefreshingToken st ->
  tokenRefreshPromise st' = tokenRefreshPromise st ->
  refreshes st' !! p = Some (mkRefresh t' ws) ->
  nextPromise st' = nextPromise st ->
  calls st' = calls st ->
  refreshPosts st' = posts' -> secureStore st' = store' ->
  Waiting st0 p t' ws posts' store' st'.
Proof.
  intros [W1 W2 W3 W4 W5 W6 W7 W8] H1 H2 H3 H4 H5 H6 H7.
  split; try congruence.
  - intros r Hr. destruct (W7 r Hr) as (c & Hc0 & Ha & Hh). exists c.
    split; [exact Hc0|]. split; [|exact Hh].
    apply (awaiting_frame st); [|exact Ha]. now rewrite H5.
  - intros r Hr. rewrite H5. apply W8. exact Hr.
Qed.

Lemma waiting_awaiting st0 p t ws posts store st :
  Waiting st0 p t ws posts store st ->
  forall r, r ∈ ws -> exists cfg, awaiting st r cfg.
Proof.
  intros W r Hr. destruct (w_waiters _ _ _ _ _ _ _ W r Hr) as (c & _ & Ha & _). eauto.
Qed.

Lemma awaiting_config st r cfg cfg' : awaiting st r cfg -> awaiting st r cfg' -> cfg = cfg'.
Proof.
  intros [q1 [H1 | [H1 _]]] [q2 [H2 | [H2 _]]]; rewrite H1 in H2; congruence.
Qed.

Lemma settle_Ok_waiting st0 p t ws posts store st token :
  Waiting st0 p t ws posts store st ->
  NoDup ws -> ws <> [] -> token <> "" ->
  let st' := settle_refresh p (Ok token) st in
  (forall r cfg, r ∈ ws -> calls st0 !! r = Some (mkCall cfg InFlight) ->
     calls st' !! r =
     Some (mkCall (set_header "Authorization" ("Bearer " ++ token) (set_retry cfg)) Queued)) /\
  nextPromise st' = S p /\ refreshPosts st' = posts /\ secureStore st' = store /\
  isRefreshingToken st' = false /\ tokenRefreshPromise st' = None.
Proof.
  intros W Hnd Hne Ht. unfold settle_refresh. rewrite (w_refresh _ _ _ _ _ _ _ W).
  cbn [waiters].
  set (x := set_refresh p _ st).
  destruct (foldl_resume_Ok token ws Ht x Hnd) as (A & _ & _ & D & E & F & _ & G).
  { intros r Hr. destruct (waiting_awaiting _ _ _ _ _ _ _ W r Hr) as [c Hc].
    exists c. exact Hc. }
  destruct (G Hne) as [G1 G2].
  split; [|repeat split].
  - intros r cfg Hr Hc.
    destruct (w_waiters _ _ _ _ _ _ _ W r Hr) as (c & Hc0 & Ha & _).
    rewrite Hc in Hc0. injection Hc0 as <-. apply A; [exact Hr|exact Ha].
  - rewrite D. cbn. apply (w_next _ _ _ _ _ _ _ W).
  - rewrite E. cbn. apply (w_posts _ _ _ _ _ _ _ W).
  - rewrite F. cbn. apply (w_store _ _ _ _ _ _ _ W).
  - exact G1.
  - exact G2.
Qed.

Lemma settle_Throw_waiting st0 p t ws posts store st e :
  Waiting st0 p t ws posts store st ->
  NoDup ws ->
  let st' := settle_refresh p (Throw e) st in
  (forall r cfg, r ∈ ws -> calls st0 !! r = Some (mkCall cfg InFlight) ->
     calls st' !! r = Some (mkCall (set_retry cfg) AwaitDeleteAuth)) /\
  nextPromise st' = S p /\ refreshPosts st' = posts /\ secureStore st' = store /\
  isRefreshingToken st' = true /\ tokenRefreshPromise st' = Some p /\
  refreshes st' !! p = Some (mkRefresh (Rejected e) []).
Proof.
  intros W Hnd. unfold settle_refresh. rewrite (w_refresh _ _ _ _ _ _ _ W).
  cbn [waiters].
  set (x := set_refresh p _ st).
  destruct (foldl_resume_Throw e ws x Hnd) as (A & _ & C & D & E & F & _ & G1 & G2).
  { intros r Hr. destruct (waiting_awaiting _ _ _ _ _ _ _ W r Hr) as [c Hc].
    exists c. exact Hc. }
  split; [|repeat split].
  - intros r cfg Hr Hc.
    destruct (w_waiters _ _ _ _ _ _ _ W r Hr) as (c & Hc0 & Ha & _).
    rewrite Hc in Hc0. injection Hc0 as <-. apply A; [exact Hr|exact Ha].
  - rewrite D. cbn. apply (w_next _ _ _ _ _ _ _ W).
  - rewrite E. cbn. apply (w_posts _ _ _ _ _ _ _ W).
  - rewrite F. cbn. apply (w_store _ _ _ _ _ _ _ W).
  - rewrite G1. cbn. apply (w_flag _ _ _ _ _ _ _ W).
  - rewrite G2. cbn. apply (w_promise _ _ _ _ _ _ _ W).
  - rewrite C. cbn. apply lookup_insert_eq.
Qed.

(** *** The single-flight schedule *)

Lemma participants_NoDup (leader : nat) (fs1 fs2 fs3 : list nat) :
  NoDup (leader :: fs1 ++ fs2 ++ fs3) ->
  NoDup ([leader] ++ fs1) /\ NoDup (([leader] ++ fs1) ++ fs2) /\
  NoDup ((([leader] ++ fs1) ++ fs2) ++ fs3).
Proof.
  intros H.
  assert (H3 : NoDup ((([leader] ++ fs1) ++ fs2) ++ fs3))
    by (rewrite <- !app_assoc; exact H).
  pose proof H3 as H2. apply NoDup_app in H2 as [H2 _].
  pose proof H2 as H1. apply NoDup_app in H1 as [H1 _]. auto.
Qed.

Lemma single_flight_no_token st reply (leader : nat) (fs1 fs2 fs3 : list nat) :
  isRefreshingToken st = false ->
  (forall r, resp_status (reply r) = 401) ->
  NoDup (leader :: fs1) ->
  (forall r, r ∈ leader :: fs1 -> exists cfg,
      calls st !! r = Some (mkCall cfg InFlight) /\ _retry cfg = false /\
      has_headers cfg = true) ->
  store_allows lib platform (secureStore st) NoRefreshToken ->
  let st' := run st (single_flight reply (nextPromise st) leader fs1 fs2 fs3 NoRefreshToken) in
  nextPromise st' = S (nextPromise st) /\
  refreshPosts st' = refreshPosts st /\
  (forall r cfg, r ∈ leader :: fs1 -> calls st !! r = Some (mkCall cfg InFlight) ->
     calls st' !! r = Some (mkCall (set_retry cfg) AwaitDeleteAuth)) /\
  isRefreshingToken st' = true /\ tokenRefreshPromise st' = Some (nextPromise st) /\
  exists e, refreshes st' !! nextPromise st = Some (mkRefresh (Rejected e) []).
Proof.
  intros Hf Hs Hnd Hcs Hst. unfold single_flight.
  change (run st (?e :: ?es)) with (run (step st e) es).
  destruct (Hcs leader) as (cfg0 & Hc0 & Hr0 & Hh0); [left|].
  pose proof (waiting_start st leader cfg0 (reply leader) Hf Hc0 Hr0 Hh0 (Hs leader)) as W1.
  rewrite run_app.
  pose proof (waiting_joins st _ AwaitGetItem _ _ reply fs1 eq_refl Hs _ _ W1 Hnd) as W2.
  specialize (W2 (fun f Hf' => Hcs f (list_elem_of_further _ _ _ Hf'))).
  set (st2 := run _ (joins reply fs1)) in *.
  change (run st2 [?e]) with (step st2 e).
  unfold store_allows in Hst.
  destruct (SecureStorage.getItem lib platform "refresh_token" (secureStore st))
    as [v store1] eqn:Hg.
  destruct Hst as (t & -> & Ht).
  rewrite (refreshResume_getItem st2 _ _ t store1 (w_refresh _ _ _ _ _ _ _ W2))
    by (rewrite (w_store _ _ _ _ _ _ _ W2); exact Hg).
  rewrite Ht.
  assert (W3 : Waiting st (nextPromise st) AwaitGetItem ([leader] ++ fs1)
                 (refreshPosts st) store1 (set_store store1 st2)).
  { apply (waiting_update _ _ _ _ _ _ _ _ _ _ _ W2); try reflexivity.
    - apply (w_refresh _ _ _ _ _ _ _ W2).
    - apply (w_posts _ _ _ _ _ _ _ W2). }
  destruct (settle_Throw_waiting _ _ _ _ _ _ _ (Error "No refresh token available") W3 Hnd)
    as (A & B & C & _ & F & P & R).
  split; [exact B|]. split; [exact C|]. split; [exact A|].
  split; [exact F|]. split; [exact P|]. eexists. exact R.
Qed.

Lemma run_middle st evs1 ev evs2 :
  run st (evs1 ++ ev :: evs2) = run (step (run st evs1) ev) evs2.
Proof. rewrite run_app. reflexivity. Qed.

Lemma single_flight_posted st reply (leader : nat) (fs1 : list nat) t store1 :
  isRefreshingToken st = false ->
  (forall r, resp_status (reply r) = 401) ->
  NoDup ([leader] ++ fs1) ->
  (forall r, r ∈ ([leader] ++ fs1)%list -> exists cfg,
      calls st !! r = Some (mkCall cfg InFlight) /\ _retry cfg = false /\
      has_headers cfg = true) ->
  SecureStorage.getItem lib platform "refresh_token" (secureStore st) = (Ok t, store1) ->
  truthy t = true ->
  Waiting st (nextPromise st) (AwaitPost (default "" t)) ([leader] ++ fs1)%list
          (S (refreshPosts st)) store1
          (step (run (step st (Respond leader (Failure (reply leader)))) (joins reply fs1))
                (RefreshResume (nextPromise st))).
Proof.
  intros Hf Hs Hnd Hcs Hg Ht.
  destruct (Hcs leader) as (cfg0 & Hc0 & Hr0 & Hh0); [left|].
  pose proof (waiting_start st leader cfg0 (reply leader) Hf Hc0 Hr0 Hh0 (Hs leader)) as W1.
  pose proof (waiting_joins st _ AwaitGetItem _ _ reply fs1 eq_refl Hs _ _ W1 Hnd) as W2.
  specialize (W2 (fun f Hf' => Hcs f (list_elem_of_further _ _ _ Hf'))).
  set (st2 := run _ (joins reply fs1)) in *.
  rewrite (refreshResume_getItem st2 _ _ t store1 (w_refresh _ _ _ _ _ _ _ W2))
    by (rewrite (w_store _ _ _ _ _ _ _ W2); exact Hg).
  rewrite Ht.
  apply (waiting_update _ _ _ _ _ _ _ _ _ _ _ W2); try reflexivity.
  - cbn. apply lookup_insert_eq.
  - cbn. f_equal. apply (w_posts _ _ _ _ _ _ _ W2).
Qed.

Lemma single_flight_endpoint_error st reply (leader : nat) (fs1 fs2 fs3 : list nat) e :
  isRefreshingToken st = false ->
  (forall r, resp_status (reply r) = 401) ->
  NoDup (leader :: fs1 ++ fs2) ->
  (forall r, r ∈ (leader :: fs1 ++ fs2)%list -> exists cfg,
      calls st !! r = Some (mkCall cfg InFlight) /\ _retry cfg = false /\
      has_headers cfg = true) ->
  store_allows lib platform (secureStore st) (EndpointError e) ->
  let st' := run st (single_flight reply (nextPromise st) leader fs1 fs2 fs3
                       (EndpointError e)) in
  nextPromise st' = S (nextPromise st) /\
  refreshPosts st' = S (refreshPosts st) /\
  (forall r cfg, r ∈ (leader :: fs1 ++ fs2)%list ->
     calls st !! r = Some (mkCall cfg InFlight) ->
     calls st' !! r = Some (mkCall (set_retry cfg) AwaitDeleteAuth)) /\
  isRefreshingToken st' = true /\ tokenRefreshPromise st' = Some (nextPromise st) /\
  exists e', refreshes st' !! nextPromise st = Some (mkRefresh (Rejected e') []).
Proof.
  intros Hf Hs Hnd Hcs Hst. unfold single_flight.
  change (run st (?e :: ?es)) with (run (step st e) es).
  rewrite run_middle, run_middle.
  assert (Hnd2 : NoDup (([leader] ++ fs1) ++ fs2)) by (rewrite <- app_assoc; exact Hnd).
  pose proof Hnd2 as Hnd1. apply NoDup_app in Hnd1 as [Hnd1 _].
  unfold store_allows in Hst.
  destruct (SecureStorage.getItem lib platform "refresh_token" (secureStore st))
    as [v store1] eqn:Hg.
  destruct Hst as (t & -> & Ht).
  pose proof (single_flight_posted st reply leader fs1 t store1 Hf Hs Hnd1) as W3.
  specialize (W3 (fun r Hr => Hcs r (proj2 (elem_of_app (leader :: fs1) fs2 r) (or_introl Hr)))
                 Hg Ht).
  set (st3 := step _ (RefreshResume (nextPromise st))) in *.
  pose proof (waiting_joins st _ (AwaitPost _) _ _ reply fs2 eq_refl Hs _ _ W3 Hnd2) as W4.
  specialize (W4 (fun r Hr => Hcs r (proj2 (elem_of_app (leader :: fs1) fs2 r) (or_intror Hr)))).
  set (st4 := run st3 (joins reply fs2)) in *.
  change (run ?x []) with x.
  rewrite (refreshResponse_post st4 _ _ _ (PostError e) (w_refresh _ _ _ _ _ _ _ W4)).
  destruct (settle_Throw_waiting _ _ _ _ _ _ _ e W4 Hnd2) as (A & B & C & _ & F & P & R).
  split; [exact B|]. split; [exact C|]. split.
  - intros r cfg Hr. apply A. rewrite <- app_assoc. exact Hr.
  - split; [exact F|]. split; [exact P|]. eexists. exact R.
Qed.

Lemma single_flight_new_token st reply (leader : nat) (fs1 fs2 fs3 : list nat) token :
  isRefreshingToken st = false ->
  (forall r, resp_status (reply r) = 401) ->
  NoDup (leader :: fs1 ++ fs2 ++ fs3) ->
  (forall r, r ∈ (leader :: fs1 ++ fs2 ++ fs3)%list -> exists cfg,
      calls st !! r = Some (mkCall cfg InFlight) /\ _retry cfg = false /\
      has_headers cfg = true) ->
  store_allows lib platform (secureStore st) (NewToken token) ->
  let st' := run st (single_flight reply (nextPromise st) leader fs1 fs2 fs3
                       (NewToken token)) in
  nextPromise st' = S (nextPromise st) /\
  refreshPosts st' = S (refreshPosts st) /\
  (forall r cfg, r ∈ (leader :: fs1 ++ fs2 ++ fs3)%list ->
     calls st !! r = Some (mkCall cfg InFlight) ->
     calls st' !! r =
     Some (mkCall (set_header "Authorization" ("Bearer " ++ token) (set_retry cfg)) Queued)) /\
  isRefreshingToken st' = false.
Proof.
  intros Hf Hs Hnd Hcs Hst. unfold single_flight.
  change (run st (?e :: ?es)) with (run (step st e) es).
  rewrite run_middle, run_middle, run_middle.
  destruct (participants_NoDup _ _ _ _ Hnd) as (Hnd1 & Hnd2 & Hnd3).
  assert (Hcs' : forall r, r ∈ ((([leader] ++ fs1) ++ fs2) ++ fs3)%list -> exists cfg,
             calls st !! r = Some (mkCall cfg InFlight) /\ _retry cfg = false /\
             has_headers cfg = true).
  { intros r Hr. apply Hcs. rewrite <- !app_assoc in Hr. exact Hr. }
  unfold store_allows in Hst.
  destruct (SecureStorage.getItem lib platform "refresh_token" (secureStore st))
    as [v store1] eqn:Hg.
  destruct Hst as ((t & -> & Ht) & Htok & Hset).
  pose proof (single_flight_posted st reply leader fs1 t store1 Hf Hs Hnd1) as W3.
  specialize (W3 (fun r Hr => Hcs' r
    (proj2 (elem_of_app _ fs3 r) (or_introl (proj2 (elem_of_app _ fs2 r) (or_introl Hr)))))
    Hg Ht).
  set (st3 := step _ (RefreshResume (nextPromise st))) in *.
  pose proof (waiting_joins st _ (AwaitPost _) _ _ reply fs2 eq_refl Hs _ _ W3 Hnd2) as W4.
  specialize (W4 (fun r Hr => Hcs' r
    (proj2 (elem_of_app _ fs3 r) (or_introl (proj2 (elem_of_app _ fs2 r) (or_intror Hr)))))).
  set (st4 := run st3 (joins reply fs2)) in *.
  rewrite (refreshResponse_post st4 _ _ _ (PostData token) (w_refresh _ _ _ _ _ _ _ W4)).
  assert (W5 : Waiting st (nextPromise st) (AwaitSetItem token) (([leader] ++ fs1) ++ fs2)%list
                 (S (refreshPosts st)) store1
                 (set_refresh (nextPromise st)
                    (mkRefresh (AwaitSetItem token) (([leader] ++ fs1) ++ fs2)%list) st4)).
  { apply (waiting_update _ _ _ _ _ _ _ _ _ _ _ W4); try reflexivity.
    - cbn. apply lookup_insert_eq.
    - apply (w_posts _ _ _ _ _ _ _ W4).
    - apply (w_store _ _ _ _ _ _ _ W4). }
  set (st5 := set_refresh _ _ st4) in *.
  pose proof (waiting_joins st _ (AwaitSetItem _) _ _ reply fs3 eq_refl Hs _ _ W5 Hnd3) as W6.
  specialize (W6 (fun r Hr => Hcs' r (proj2 (elem_of_app _ fs3 r) (or_intror Hr)))).
  set (st6 := run st5 (joins reply fs3)) in *.
  change (run ?x []) with x.
  destruct (SecureStorage.setItem lib platform "auth_token" token store1) as [w store2] eqn:Hw.
  cbn [fst] in Hset. destruct w as [u|err]; [|discriminate].
  rewrite (refreshResume_setItem st6 _ _ token (Ok u) store2 (w_refresh _ _ _ _ _ _ _ W6))
    by (rewrite (w_store _ _ _ _ _ _ _ W6); exact Hw).
  assert (W7 : Waiting st (nextPromise st) (AwaitSetItem token)
                 ((([leader] ++ fs1) ++ fs2) ++ fs3)%list
                 (S (refreshPosts st)) store2 (set_store store2 st6)).
  { apply (waiting_update _ _ _ _ _ _ _ _ _ _ _ W6); try reflexivity.
    - apply (w_refresh _ _ _ _ _ _ _ W6).
    - apply (w_posts _ _ _ _ _ _ _ W6). }
  destruct (settle_Ok_waiting _ _ _ _ _ _ _ token W7 Hnd3) as (A & B & C & _ & D & _).
  { discriminate. }
  { exact Htok. }
  split; [exact B|]. split; [exact C|]. split; [|exact D].
  intros r cfg Hr. apply A. rewrite <- !app_assoc. exact Hr.
Qed.

(** *** The [catch] block *)

Lemma set_store_same st : set_store (secureStore st) st = st.
Proof. destruct st; reflexivity. Qed.

Lemma resume_secureStore o st w : secureStore (resume o st w) = secureStore st.
Proof.
  unfold resume. destruct (calls st !! w) as [[cfg []]|]; try reflexivity;
    destruct o; try reflexivity.
  destruct (negb _ && _); reflexivity.
Qed.

Lemma foldl_resume_secureStore o ws :
  forall st, secureStore (foldl (resume o) st ws) = secureStore st.
Proof.
  induction ws as [|w ws IH]; intros st; [reflexivity|].
  cbn [foldl]. rewrite IH. apply resume_secureStore.
Qed.

Lemma settle_refresh_secureStore p o st :
  secureStore (settle_refresh p o st) = secureStore st.
Proof.
  unfold settle_refresh. destruct (refreshes st !! p); [|reflexivity].
  rewrite foldl_resume_secureStore. reflexivity.
Qed.

Lemma resume_Throw_caught e st w r cfg :
  calls st !! r = Some (mkCall cfg AwaitDeleteAuth) ->
  calls (resume (Throw e) st w) !! r = Some (mkCall cfg AwaitDeleteAuth).
Proof.
  intros H. unfold resume.
  destruct (calls st !! w) as [[cfgw pcw]|] eqn:E; [|exact H].
  destruct (decide (w = r)) as [->|Hne].
  - rewrite H in E. injection E as <- <-. exact H.
  - destruct pcw; try exact H; cbn; rewrite lookup_insert_ne by exact Hne; exact H.
Qed.

Lemma resume_Throw_await e st w r cfg pc0 :
  calls st !! r = Some (mkCall cfg pc0) -> is_await pc0 = true ->
  calls (resume (Throw e) st w) !! r =
  Some (mkCall cfg (if decide (w = r) then AwaitDeleteAuth else pc0)).
Proof.
  intros H Hp. unfold resume. destruct (decide (w = r)) as [->|Hne].
  - rewrite H. destruct pc0; try discriminate; cbn; apply lookup_insert_eq.
  - destruct (calls st !! w) as [[cfgw pcw]|] eqn:E; [|exact H].
    destruct pcw; try exact H; cbn; rewrite lookup_insert_ne by exact Hne; exact H.
Qed.

Lemma foldl_resume_Throw_call e r cfg ws :
  forall st,
  calls st !! r = Some (mkCall cfg AwaitDeleteAuth) \/
  (r ∈ ws /\ exists pc0, calls st !! r = Some (mkCall cfg pc0) /\ is_await pc0 = true) ->
  calls (foldl (resume (Throw e)) st ws) !! r = Some (mkCall cfg AwaitDeleteAuth).
Proof.
  induction ws as [|w ws IH]; intros st [H | (Hr & pc0 & H & Hp)].
  - exact H.
  - inversion Hr.
  - cbn [foldl]. apply IH. left. apply resume_Throw_caught. exact H.
  - cbn [foldl]. apply IH.
    pose proof (resume_Throw_await e st w r cfg pc0 H Hp) as H'.
    destruct (decide (w = r)) as [->|Hne]; [left; exact H'|].
    right. split.
    + apply elem_of_cons in Hr as [->|Hr]; [contradiction|exact Hr].
    + exists pc0. auto.
Qed.

Lemma refresh_fails_settles st ev p t :
  refresh_fails lib platform st ev p -> refreshes st !! p = Some t ->
  exists e store',
    step st ev = settle_refresh p (Throw e) (set_store store' st).
Proof.
  intros Hf Ht. destruct ev as [| |p'|p' [tok|e]|]; try contradiction;
    destruct Hf as [-> Hf]; rewrite Ht in Hf; cbn [fmap option_fmap option_map] in Hf.
  - destruct t as [[] ws]; try contradiction; cbn [task] in Hf.
    + destruct (StorageFacts.getItem_total lib platform "refresh_token" (secureStore st))
        as [v Hv].
      destruct (SecureStorage.getItem lib platform "refresh_token" (secureStore st))
        as [v' store'] eqn:Hg. cbn [fst] in Hv, Hf. subst v'.
      rewrite (refreshResume_getItem st p ws v store' Ht Hg). rewrite (Hf v eq_refl). eauto.
    + destruct (SecureStorage.setItem lib platform "auth_token" token (secureStore st))
        as [w store'] eqn:Hs. cbn [fst] in Hf.
      rewrite (refreshResume_setItem st p ws token w store' Ht Hs).
      destruct w as [u|e]; [discriminate|]. eauto.
  - destruct Hf as [rt Hf]. destruct t as [tk ws]. cbn [task] in Hf. injection Hf as ->.
    rewrite (refreshResponse_post st p rt ws (PostError e) Ht).
    exists e, (secureStore st). rewrite set_store_same. reflexivity.
Qed.

Lemma storeDone_other st r r' :
  r' <> r -> calls (step st (StoreDone r')) !! r = calls st !! r.
Proof.
  intros Hne. cbn [ApiClient.step]. unfold storeDone.
  destruct (calls st !! r') as [[cfg []]|]; try reflexivity.
  - destruct (deleteItem "auth_token" (secureStore st)) as [[u|e] store']; cbn;
      apply lookup_insert_ne; exact Hne.
  - destruct (deleteItem "refresh_token" (secureStore st)) as [[u|e] store']; cbn;
      apply lookup_insert_ne; exact Hne.
Qed.

Lemma storeDone_keeps_absent st r' key :
  stored key (secureStore st) = None ->
  stored key (secureStore (step st (StoreDone r'))) = None.
Proof.
  intros H. cbn [ApiClient.step]. unfold storeDone.
  destruct (calls st !! r') as [[cfg []]|]; try exact H.
  - pose proof (deleteItem_keeps_absent "auth_token" key _ H) as H'.
    destruct (deleteItem "auth_token" (secureStore st)) as [[u|e] store']; exact H'.
  - pose proof (deleteItem_keeps_absent "refresh_token" key _ H) as H'.
    destruct (deleteItem "refresh_token" (secureStore st)) as [[u|e] store']; exact H'.
Qed.

Lemma getItem_stored key key' store :
  stored key' (snd (SecureStorage.getItem lib platform key store)) = stored key' store.
Proof.
  unfold SecureStorage.getItem. destruct (negb (is_web (OS store))); [reflexivity|].
  destruct (negb (truthy _)); [reflexivity|].
  destruct (Encryption.decrypt _ _ _ _) as [r c]. reflexivity.
Qed.

Lemma requestInterceptor_stored isConnected cfg store key :
  stored key (snd (requestInterceptor lib platform isConnected cfg store)) = stored key store.
Proof.
  unfold requestInterceptor. destruct (negb isConnected); [reflexivity|].
  pose proof (getItem_stored "auth_token" key store) as H1.
  destruct (SecureStorage.getItem lib platform "auth_token" store) as [tokenR store1].
  cbn [snd] in H1.
  destruct (headers _); [|exact H1]. destruct (environment _); [|exact H1].
  pose proof (getItem_stored "user_id" key store1) as H2.
  destruct (SecureStorage.getItem lib platform "user_id" store1) as [[userId|err] store2];
    cbn [snd] in H2; [destruct (truthy userId)|]; cbn [snd]; congruence.
Qed.

Lemma resume_other o st w r : w <> r -> calls (resume o st w) !! r = calls st !! r.
Proof.
  intros Hne. unfold resume. destruct (calls st !! w) as [[cfg []]|]; try reflexivity;
    destruct o; try destruct (negb _ && _); cbn; apply lookup_insert_ne; exact Hne.
Qed.

Lemma responseRejected_other r' e st r :
  r' <> r -> calls (responseRejected replacePatterns r' e st) !! r = calls st !! r.
Proof.
  intros Hne. unfold responseRejected.
  assert (Hs : forall cfg, calls (start_refresh r' cfg st) !! r = calls st !! r)
    by (intros cfg; cbn; apply lookup_insert_ne; exact Hne).
  destruct e as [msg|msg|cfg [response|] request axios_code|a];
    try (destruct (calls st !! r'); [cbn; apply lookup_insert_ne; exact Hne|reflexivity]);
    try (cbn; apply lookup_insert_ne; exact Hne).
  destruct (_ && _); [|cbn; apply lookup_insert_ne; exact Hne].
  destruct (isRefreshingToken st); [|apply Hs].
  destruct (tokenRefreshPromise st) as [p|]; [|apply Hs].
  unfold await_follower. destruct (refreshes st !! p) as [t|]; [|reflexivity].
  destruct (outcome_of (task t)).
  - rewrite resume_other by exact Hne. cbn. apply lookup_insert_ne. exact Hne.
  - cbn. apply lookup_insert_ne. exact Hne.
Qed.

Lemma responseRejected_store r e st :
  secureStore (responseRejected replacePatterns r e st) = secureStore st.
Proof.
  unfold responseRejected.
  destruct e as [msg|msg|cfg [response|] request axios_code|a]; try reflexivity;
    try (destruct (calls st !! r); reflexivity).
  destruct (_ && _); [|reflexivity].
  destruct (isRefreshingToken st); [|reflexivity].
  destruct (tokenRefreshPromise st) as [p|]; [|reflexivity].
  unfold await_follower. destruct (refreshes st !! p) as [t|]; [|reflexivity].
  destruct (outcome_of (task t)); [|reflexivity].
  rewrite resume_secureStore. reflexivity.
Qed.

Lemma step_of_other_call st ev r :
  of_other_call r ev ->
  calls (step st ev) !! r = calls st !! r /\
  forall key, stored key (secureStore st) = None ->
              stored key (secureStore (step st ev)) = None.
Proof.
  destruct ev as [r' c|r' reply|p|p reply|r']; cbn [of_other_call]; try contradiction;
    intros Hne.
  - cbn [ApiClient.step]. unfold dispatch.
    destruct (calls st !! r') as [[cfg []]|]; try (split; [reflexivity|auto]).
    pose proof (requestInterceptor_stored c cfg (secureStore st)) as Hst.
    destruct (requestInterceptor lib platform c cfg (secureStore st)) as [[cfg'|e] store'];
      cbn [snd] in Hst.
    + split; [cbn; apply lookup_insert_ne; exact Hne|].
      intros key H. cbn. rewrite Hst. exact H.
    + split; [rewrite responseRejected_other by exact Hne; reflexivity|].
      intros key H. rewrite responseRejected_store. cbn. rewrite Hst. exact H.
  - cbn [ApiClient.step]. unfold respond.
    destruct (calls st !! r') as [[cfg []]|]; try (split; [reflexivity|auto]).
    destruct reply as [response|response|].
    + split; [cbn; apply lookup_insert_ne; exact Hne|auto].
    + split; [apply responseRejected_other; exact Hne|].
      intros key H. rewrite responseRejected_store. exact H.
    + split; [apply responseRejected_other; exact Hne|].
      intros key H. rewrite responseRejected_store. exact H.
  - split; [apply storeDone_other; exact Hne|].
    intros key H. apply storeDone_keeps_absent. exact H.
Qed.

(** *** Steps that do not touch the stores *)

Lemma getItem_contents key store :
  contents (snd (SecureStorage.getItem lib platform key store)) = contents store.
Proof.
  unfold SecureStorage.getItem. destruct (negb (is_web (OS store))); [reflexivity|].
  destruct (negb (truthy _)); [reflexivity|].
  destruct (Encryption.decrypt _ _ _ _) as [r c]. reflexivity.
Qed.

Lemma requestInterceptor_contents isConnected cfg store :
  contents (snd (requestInterceptor lib platform isConnected cfg store)) = contents store.
Proof.
  unfold requestInterceptor. destruct (negb isConnected); [reflexivity|].
  pose proof (getItem_contents "auth_token" store) as H1.
  destruct (SecureStorage.getItem lib platform "auth_token" store) as [tokenR store1].
  cbn [snd] in H1.
  destruct (headers _); [|exact H1]. destruct (environment _); [|exact H1].
  pose proof (getItem_contents "user_id" store1) as H2.
  destruct (SecureStorage.getItem lib platform "user_id" store1) as [[userId|err] store2];
    cbn [snd] in H2; [destruct (truthy userId)|]; cbn [snd]; congruence.
Qed.

(** A call that is settled after a continuation ran was settled before. *)
Lemma resume_settled o st w r cfg out :
  calls (resume o st w) !! r = Some (mkCall cfg (Settled out)) ->
  calls st !! r = Some (mkCall cfg (Settled out)).
Proof.
  unfold resume. destruct (calls st !! w) as [[cfgw pcw]|] eqn:E; [|auto].
  destruct pcw; auto; destruct o; try destruct (negb _ && _); cbn;
    (destruct (decide (w = r)) as [->|Hne];
     [rewrite lookup_insert_eq; discriminate|rewrite lookup_insert_ne by exact Hne; auto]).
Qed.

Lemma foldl_resume_settled o r cfg out ws :
  forall st,
  calls (foldl (resume o) st ws) !! r = Some (mkCall cfg (Settled out)) ->
  calls st !! r = Some (mkCall cfg (Settled out)).
Proof.
  induction ws as [|w ws IH]; intros st H; [exact H|].
  cbn [foldl] in H. apply IH in H. apply resume_settled in H. exact H.
Qed.

Lemma settle_refresh_settled p o st r cfg out :
  calls (settle_refresh p o st) !! r = Some (mkCall cfg (Settled out)) ->
  calls st !! r = Some (mkCall cfg (Settled out)).
Proof.
  unfold settle_refresh. destruct (refreshes st !! p); [|auto].
  intros H. apply foldl_resume_settled in H. exact H.
Qed.

Lemma refresh_step_settled st ev r cfg out :
  (exists p, ev = RefreshResume p) \/ (exists p reply, ev = RefreshResponse p reply) ->
  calls (step st ev) !! r = Some (mkCall cfg (Settled out)) ->
  calls st !! r = Some (mkCall cfg (Settled out)).
Proof.
  intros [[p ->] | (p & reply & ->)]; cbn [ApiClient.step].
  - unfold refreshResume. destruct (refreshes st !! p) as [[[] ws]|]; auto.
    + destruct (SecureStorage.getItem lib platform "refresh_token" (secureStore st))
        as [[v|e] store'].
      * destruct (truthy v); [auto|]. intros H. apply settle_refresh_settled in H. exact H.
      * intros H. apply settle_refresh_settled in H. exact H.
    + destruct (SecureStorage.setItem lib platform "auth_token" token (secureStore st))
        as [[u|e] store']; intros H; apply settle_refresh_settled in H; exact H.
  - unfold refreshResponse. destruct (refreshes st !! p) as [[[] ws]|]; auto.
    destruct reply as [tok|e]; [auto|]. intros H. apply settle_refresh_settled in H. exact H.
Qed.

(** A step at the end of which a call is newly rejected with anything but
    the [AUTH_REQUIRED] object leaves both stores as they were. *)
Lemma other_errors_keep_stores st ev r cfg err :
  calls (step st ev) !! r = Some (mkCall cfg (Settled (Throw err))) ->
  calls st !! r <> Some (mkCall cfg (Settled (Throw err))) ->
  err <> Rejection AUTH_REQUIRED ->
  contents (secureStore (step st ev)) = contents (secureStore st).
Proof.
  intros H1 H2 H3. destruct ev as [r' c|r' reply|p|p reply|r'].
  - cbn [ApiClient.step]. unfold dispatch.
    destruct (calls st !! r') as [[cfg' []]|]; try reflexivity.
    pose proof (requestInterceptor_contents c cfg' (secureStore st)) as Hc.
    destruct (requestInterceptor lib platform c cfg' (secureStore st)) as [[cfg''|e] store'];
      cbn [snd] in Hc; [exact Hc|].
    rewrite responseRejected_store. exact Hc.
  - cbn [ApiClient.step]. unfold respond.
    destruct (calls st !! r') as [[cfg' []]|]; try reflexivity.
    destruct reply; try reflexivity; rewrite responseRejected_store; reflexivity.
  - exfalso. apply H2. apply (refresh_step_settled st (RefreshResume p)); eauto.
  - exfalso. apply H2. apply (refresh_step_settled st (RefreshResponse p reply)); eauto.
  - destruct (decide (r' = r)) as [->|Hne];
      [|exfalso; rewrite storeDone_other in H1 by exact Hne; contradiction].
    destruct (calls st !! r) as [[cfg' pc']|] eqn:E;
      [|cbn [ApiClient.step]; unfold storeDone; rewrite E; reflexivity].
    destruct pc';
      try (cbn [ApiClient.step]; unfold storeDone; rewrite E; reflexivity).
    + destruct (removal_rejected (secureStore st) (KEY_PREFIX ++ "auth_token")) eqn:R.
      * rewrite (storeDone_auth_rejected st r cfg' E R). reflexivity.
      * exfalso. rewrite (storeDone_auth st r cfg' E R) in H1. cbn in H1.
        rewrite lookup_insert_eq in H1. discriminate.
    + destruct (removal_rejected (secureStore st) (KEY_PREFIX ++ "refresh_token")) eqn:R.
      * rewrite (storeDone_refresh_rejected st r cfg' E R). reflexivity.
      * exfalso. rewrite (storeDone_refresh st r cfg' E R) in H1. cbn in H1.
        rewrite lookup_insert_eq in H1. injection H1 as _ <-. contradiction.
Qed.

(** *** What [handleApiError] makes of an HTTP error response *)

Lemma fromResponse_status a response :
  draft_status (fromResponse a response) = resp_status response.
Proof.
  unfold fromResponse. destruct (resp_data response); destruct (_ || _); reflexivity.
Qed.

Lemma handleApiError_response_status cfg response request axios_code e :
  handleApiError (AxiosError cfg (Some response) request axios_code) = Ok e ->
  status e = resp_status response.
Proof.
  unfold ErrorHandlers.handleApiError, sanitized.
  set (a := fromResponse _ response).
  pose proof (fromResponse_status
                (mkDraft 500 "UNKNOWN_ERROR"
                   (Text "An unexpected error occurred while communicating with the server.")
                   None) response) as Ha.
  fold a in Ha.
  destruct (String.eqb (draft_code a) ""); cbn [draft_message draft_status];
    (destruct (draft_message a); [|discriminate]); intros [= <-]; exact Ha.
Qed.

Lemma handleApiError_response_textual cfg response request axios_code :
  textual response ->
  exists e, handleApiError (AxiosError cfg (Some response) request axios_code) = Ok e.
Proof.
  intros Ht. unfold ErrorHandlers.handleApiError, sanitized.
  set (a := fromResponse _ response).
  assert (Ha : exists s, draft_message a = Text s).
  { subst a. unfold fromResponse. destruct (resp_data response) as [data|] eqn:D.
    - specialize (Ht data D).
      destruct (rd_message data) as [|m|]; [| |contradiction];
        try destruct (String.eqb m ""); destruct (rd_error data) as [|s|];
        try destruct (String.eqb s ""); cbn [draft_message];
        destruct (_ || _); cbn [draft_message]; eauto.
    - cbn [draft_message]. destruct (_ || _); cbn [draft_message]; eauto. }
  destruct Ha as [s Ha].
  destruct (String.eqb (draft_code a) ""); cbn [draft_message]; rewrite Ha; eauto.
Qed.

Lemma handleApiError_response_not_text cfg response request axios_code data :
  resp_data response = Some data -> rd_message data = MessageOther ->
  handleApiError (AxiosError cfg (Some response) request axios_code) = Throw not_a_function.
Proof.
  intros D M. unfold ErrorHandlers.handleApiError, sanitized, fromResponse.
  rewrite D, M. cbn [draft_message message_falsy message_is orb].
  destruct (String.eqb _ ""); reflexivity.
Qed.

Lemma handleApiError_response_no_body cfg response request axios_code :
  resp_data response = None ->
  exists e, handleApiError (AxiosError cfg (Some response) request axios_code) = Ok e /\
            code e = "UNKNOWN_ERROR".
Proof.
  intros H. unfold ErrorHandlers.handleApiError, fromResponse. rewrite H. cbn.
  eexists. split; reflexivity.
Qed.

Lemma fromResponse_code_body a response data :
  resp_data response = Some data -> rd_code data <> "" ->
  draft_code (fromResponse a response) = rd_code data.
Proof.
  intros H Hc. unfold fromResponse. rewrite H.
  destruct (String.eqb_spec (rd_code data) ""); [contradiction|]. cbn [negb draft_code].
  destruct (_ || _); reflexivity.
Qed.

Lemma handleApiError_response_code cfg response request axios_code data e :
  resp_data response = Some data -> rd_code data <> "" ->
  handleApiError (AxiosError cfg (Some response) request axios_code) = Ok e ->
  code e = rd_code data.
Proof.
  intros H Hc. unfold ErrorHandlers.handleApiError, sanitized.
  set (a := fromResponse _ response).
  assert (Ha : draft_code a = rd_code data) by (apply fromResponse_code_body; assumption).
  destruct (String.eqb_spec (draft_code a) "") as [E|E]; [congruence|].
  destruct (draft_message a); [|discriminate]. intros [= <-]. exact Ha.
Qed.

End WithLibraries.
End ClientFacts.


(** * Further properties *)

(** ** The symmetric cipher *)

Module CipherExtras.
Import Js JsFacts Encryption EncryptionFacts.

Lemma append_inj_l (p a b : string) : p ++ a = p ++ b -> a = b.
Proof. induction p as [|c p IH]; cbn; [tauto|]. intros [= H]. auto. Qed.

Lemma maskSensitiveData_visible_witness :
  maskSensitiveData "123-45-6789" 4 = "*******6789" /\
  String.length (maskSensitiveData "123-45-6789" 4) = String.length "123-45-6789".
Proof.
  destruct (CipherClaims.maskSensitiveData_visible "123-45-6789" 4) as [_ H]; [lia|].
  destruct H as [H1 H2]; [reflexivity|]. split; [rewrite H1; reflexivity|exact H2].
Defined.

Section WithLibraries.
Variable lib : CryptoJS.
Variable platform : Platform.

Lemma awaitKey_is_Some st : is_Some (encryptionKeyPromise (snd (awaitKey lib platform st))).
Proof.
  destruct (awaitKey lib platform st) as [key st1] eqn:K. cbn [snd].
  rewrite (awaitKey_caches _ _ _ _ _ K). eauto.
Qed.

Lemma encrypt_key data st :
  encryptionKeyPromise (snd (encrypt lib platform data st)) =
  encryptionKeyPromise (snd (awaitKey lib platform st)).
Proof. unfold encrypt. destruct (awaitKey lib platform st) as [key st1]. reflexivity. Qed.

Lemma decrypt_state data st :
  snd (decrypt lib platform data st) = snd (awaitKey lib platform st).
Proof. unfold decrypt. destruct (awaitKey lib platform st) as [key st1]. reflexivity. Qed.

(** [encrypt] succeeds and [decrypt], with the same key in the cache,
    inverts it. *)
Lemma encrypt_then_decrypt data st :
  AES_contract lib ->
  (forall i n, length (WordArray_random platform i n) = n) ->
  exists e, fst (encrypt lib platform data st) = Ok e /\ e <> "" /\
    forall st2,
      encryptionKeyPromise st2 = encryptionKeyPromise (snd (encrypt lib platform data st)) ->
      fst (decrypt lib platform e st2) = Ok data.
Proof.
  intros [Hrt Hb64] Hlen.
  destruct (encrypt lib platform data st) as [r st1] eqn:E.
  assert (Hok : exists e, r = Ok e).
  { revert E. unfold encrypt. destruct (awaitKey lib platform st) as [key st0].
    destruct (Hrt data key (WordArray_random platform (draws st0) 16)
                  (WordArray_random platform (S (draws st0)) 8)) as [ct [-> _]].
    cbn [try_catch]. intros [= <- _]. eauto. }
  destruct Hok as [e ->]. exists e. cbn [fst snd].
  destruct (encrypt_Ok _ _ _ _ _ _ E) as (key & ct & K & A & ->).
  destruct (Hb64 _ _ _ _ _ A) as [Hne Hcol].
  assert (Hiv : drawn_iv lib platform st <> []).
  { intros H. pose proof (Hlen (draws (snd (awaitKey lib platform st))) 16%nat) as L.
    unfold drawn_iv in H. rewrite H in L. discriminate. }
  split; [reflexivity|]. split.
  { destruct (drawn_iv lib platform st); [contradiction|discriminate]. }
  intros st2 Hkey. rewrite decrypt_blob with (key := key); try assumption; [|congruence].
  cbn [fst].
  destruct (Hrt data key (drawn_iv lib platform st)
      (WordArray_random platform (S (draws (snd (awaitKey lib platform st)))) 8))
      as [ct' [A' D]].
  rewrite A in A'. injection A' as <-. rewrite D. reflexivity.
Qed.

Lemma awaitKey_external st envKey :
  ENCRYPTION_KEY platform = Some envKey -> (32 <= String.length envKey)%nat ->
  encryptionKeyPromise st = None ->
  awaitKey lib platform st = (envKey, mkState (Some envKey) (draws st)).
Proof.
  intros He Hl Hn. unfold awaitKey, getEncryptionKey. rewrite Hn, He.
  destruct (String.eqb_spec envKey ""); [subst; simpl in Hl; lia|].
  destruct (Nat.leb_spec 32 (String.length envKey)); [reflexivity|lia].
Qed.

End WithLibraries.

(** X2.  The key is derived at most once: [encrypt] and [decrypt] leave a
    key in the cache, and when one is there already they use it, keep it, and
    [decrypt] changes nothing at all. *)
Theorem key_derived_once (lib : CryptoJS) (platform : Platform) :
  (forall data st,
      is_Some (encryptionKeyPromise (snd (encrypt lib platform data st))) /\
      is_Some (encryptionKeyPromise (snd (decrypt lib platform data st)))) /\
  (forall data st key,
      encryptionKeyPromise st = Some key ->
      encryptionKeyPromise (snd (encrypt lib platform data st)) = Some key /\
      fst (awaitKey lib platform (snd (encrypt lib platform data st))) = key /\
      snd (decrypt lib platform data st) = st).
Proof.
  split.
  - intros data st. rewrite encrypt_key, decrypt_state. split; apply awaitKey_is_Some.
  - intros data st key K. rewrite encrypt_key, decrypt_state.
    rewrite (awaitKey_cached _ _ _ _ K). cbn [snd]. split; [exact K|]. split; [|reflexivity].
    rewrite (awaitKey_cached lib platform _ key); [reflexivity|].
    rewrite encrypt_key, (awaitKey_cached _ _ _ _ K). exact K.
Qed.

(** X3.  With an encryption key of at least 32 characters in the
    environment, what one process encrypts another decrypts: [decrypt] in a
    state with an empty key cache returns the plaintext that [encrypt], in a
    state with an empty key cache, was given. *)
Theorem external_key_roundtrip (lib : CryptoJS) (platform : Platform) (envKey : string)
    (s : string) (st st' : State) :
  AES_contract lib ->
  (forall i n, length (WordArray_random platform i n) = n) ->
  ENCRYPTION_KEY platform = Some envKey -> (32 <= String.length envKey)%nat ->
  encryptionKeyPromise st = None -> encryptionKeyPromise st' = None ->
  exists e, fst (encrypt lib platform s st) = Ok e /\
            fst (decrypt lib platform e st') = Ok s.
Proof.
  intros Hc Hlen He Hl Hn Hn'.
  destruct (encrypt_then_decrypt lib platform s st Hc Hlen) as (e & E & _ & D).
  exists e. split; [exact E|].
  pose proof (awaitKey_external lib platform st' envKey He Hl Hn') as K'.
  assert (Hd : fst (decrypt lib platform e st') =
               fst (decrypt lib platform e (mkState (Some envKey) (draws st')))).
  { unfold decrypt. rewrite K'.
    rewrite (awaitKey_cached lib platform (mkState (Some envKey) (draws st')) envKey eq_refl).
    reflexivity. }
  rewrite Hd. apply D. cbn.
  rewrite encrypt_key, (awaitKey_external lib platform st envKey He Hl Hn). reflexivity.
Qed.

Lemma external_key_roundtrip_witness :
  exists e,
    fst (encrypt Fixture.cryptoJS Fixture.platformWithKey "abc123" (mkState None 0)) = Ok e /\
    fst (decrypt Fixture.cryptoJS Fixture.platformWithKey e (mkState None 7)) = Ok "abc123".
Proof.
  apply (external_key_roundtrip Fixture.cryptoJS Fixture.platformWithKey
           "0123456789abcdef0123456789abcdef" "abc123" (mkState None 0) (mkState None 7)
           CipherClaims.Fixture_AES_contract).
  - intros i n. cbn. apply length_replicate.
  - reflexivity.
  - cbn. lia.
  - reflexivity.
  - reflexivity.
Defined.

Lemma Hex_stringify_length bytes :
  String.length (Hex_stringify bytes) = (2 * length bytes)%nat.
Proof. induction bytes as [|b bs IH]; cbn [Hex_stringify String.length length]; lia. Qed.

Lemma hex_byte_lower b :
  let n := Byte.to_N b in
  is_lower_hex (hex_digit (n / 16)) = true /\ is_lower_hex (hex_digit (n mod 16)) = true.
Proof. destruct b; split; reflexivity. Qed.

Lemma Hex_stringify_lower bytes :
  forallb is_lower_hex (list_ascii_of_string (Hex_stringify bytes)) = true.
Proof.
  induction bytes as [|b bs IH]; [reflexivity|].
  cbn [Hex_stringify list_ascii_of_string forallb].
  destruct (hex_byte_lower b) as [-> ->]. exact IH.
Qed.

(** X4.  [generateRandomToken(length)] never fails; the token has
    [2 * length] characters, all of them digits or letters from [a] to [f];
    and it is read back by [CryptoJS.enc.Hex.parse] as [length] bytes. *)
Theorem generateRandomToken_hex (lib : CryptoJS) (platform : Platform)
    (n : nat) (st : State) :
  Random_contract platform ->
  let token := fst (generateRandomToken platform n st) in
  String.length token = (2 * n)%nat /\
  forallb is_lower_hex (list_ascii_of_string token) = true /\
  length (Hex_parse token) = n /\ Hex_stringify (Hex_parse token) = token.
Proof.
  intros [H1 H2]. unfold generateRandomToken.
  destruct (getRandomBytesAsync platform (draws st) n) as [bytes|e] eqn:E; cbn [fst].
  - rewrite Hex_stringify_length, Hex_parse_stringify, (H1 _ _ _ E).
    split; [reflexivity|]. split; [apply Hex_stringify_lower|]. split; reflexivity.
  - rewrite Hex_stringify_length, Hex_parse_stringify, H2.
    split; [reflexivity|]. split; [apply Hex_stringify_lower|]. split; reflexivity.
Qed.

Lemma generateRandomToken_hex_witness :
  let token := fst (generateRandomToken Fixture.platform 32 Fixture.cipher0) in
  String.length token = 64%nat /\
  forallb is_lower_hex (list_ascii_of_string token) = true /\
  length (Hex_parse token) = 32%nat /\ Hex_stringify (Hex_parse token) = token.
Proof.
  apply (generateRandomToken_hex Fixture.cryptoJS Fixture.platform 32 Fixture.cipher0).
  split.
  - intros i n bytes [= <-]. apply length_replicate.
  - intros i n. cbn. apply length_replicate.
Defined.

(** X5.  [decrypt] reads the first two pieces of its input only: whatever
    follows a second [":"] does not change its result. *)
Theorem decrypt_ignores_third_piece (lib : CryptoJS) (platform : Platform)
    (ivHex encryptedHex rest : string) (st : State) :
  has_colon ivHex = false -> has_colon encryptedHex = false ->
  decrypt lib platform (ivHex ++ ":" ++ encryptedHex ++ ":" ++ rest) st =
  decrypt lib platform (ivHex ++ ":" ++ encryptedHex) st.
Proof.
  intros H1 H2. unfold decrypt. destruct (awaitKey lib platform st) as [key st1].
  rewrite !(split_colon_app ivHex) by exact H1.
  rewrite (split_colon_app encryptedHex rest H2), (split_colon_no_colon _ H2).
  reflexivity.
Qed.

Lemma decrypt_ignores_third_piece_witness :
  decrypt Fixture.cryptoJS Fixture.platform "0101:S616263:tail:more" Fixture.cipher0 =
  decrypt Fixture.cryptoJS Fixture.platform "0101:S616263" Fixture.cipher0.
Proof.
  apply (decrypt_ignores_third_piece Fixture.cryptoJS Fixture.platform
           "0101" "S616263" "tail:more" Fixture.cipher0); reflexivity.
Defined.

Lemma append_inj_r (a b s : string) : a ++ s = b ++ s -> a = b.
Proof.
  intros H.
  assert (L : String.length a = String.length b).
  { apply (f_equal String.length) in H. rewrite !length_append in H. lia. }
  revert b H L. induction a as [|c a IH]; intros [|d b] H L; try discriminate L.
  - reflexivity.
  - cbn in H. injection H as -> H. f_equal. apply IH; [exact H|].
    cbn in L. lia.
Qed.

Lemma getEncryptionKey_device (lib : CryptoJS) (platform : Platform) dev seed st :
  (forall k, ENCRYPTION_KEY platform = Some k -> (String.length k < 32)%nat) ->
  getDeviceIdAsync platform = Ok dev ->
  getRandomBytesAsync platform (draws st) 16 = Ok seed ->
  getEncryptionKey lib platform st =
    (SHA256 lib ((if truthy dev then default "" dev else "unknown-device") ++ "-" ++
                 Hex_stringify seed ++ "-MedicalAppSecretKey"),
     tick st).
Proof.
  intros He Hd Hs. unfold getEncryptionKey.
  assert (E : match ENCRYPTION_KEY platform with
              | Some envKey =>
                  if negb (String.eqb envKey "") && (32 <=? String.length envKey)%nat
                  then (envKey, st) else deviceSpecificKey lib platform st
              | None => deviceSpecificKey lib platform st
              end = deviceSpecificKey lib platform st).
  { destruct (ENCRYPTION_KEY platform) as [k|]; [|reflexivity].
    specialize (He k eq_refl). destruct (Nat.leb_spec 32 (String.length k)); [lia|].
    rewrite andb_false_r. reflexivity. }
  rewrite E. unfold deviceSpecificKey. rewrite Hd, Hs. reflexivity.
Qed.

Lemma getEncryptionKey_fallback (lib : CryptoJS) (platform : Platform) st :
  (forall k, ENCRYPTION_KEY platform = Some k -> (String.length k < 32)%nat) ->
  (exists e, getDeviceIdAsync platform = Throw e) \/
  (exists e, getRandomBytesAsync platform (draws st) 16 = Throw e) ->
  fst (getEncryptionKey lib platform st) = "MedicalAppDefaultEncryptionKey12345678901234".
Proof.
  intros He Hd. unfold getEncryptionKey.
  assert (E : match ENCRYPTION_KEY platform with
              | Some envKey =>
                  if negb (String.eqb envKey "") && (32 <=? String.length envKey)%nat
                  then (envKey, st)
                  else deviceSpecificKey lib platform st
              | None => deviceSpecificKey lib platform st
              end = deviceSpecificKey lib platform st).
  { destruct (ENCRYPTION_KEY platform) as [k|]; [|reflexivity].
    specialize (He k eq_refl). destruct (Nat.leb_spec 32 (String.length k)); [lia|].
    rewrite andb_false_r. reflexivity. }
  rewrite E. unfold deviceSpecificKey.
  destruct Hd as [[e Hd]|[e Hd]].
  - rewrite Hd. reflexivity.
  - destruct (getDeviceIdAsync platform); [rewrite Hd|]; reflexivity.
Qed.

(** X29.  What [initEncryption] caches when no usable key is in the
    environment.  When [Device.getDeviceIdAsync()] or the random source
    throws (as a call of a function that the device package does not export
    does), the key is the fixed string of the [catch] block, the same after
    every derivation and on every device.  When both return, the
    device-specific key is not a stable key: each derivation draws a fresh
    random seed, so [initEncryption] replaces the cached key by a different
    one as soon as the two seeds differ (SHA-256 taken to be free of
    collisions), and what was encrypted under the earlier key is then
    decrypted under another key. *)
Theorem device_key_changes (lib : CryptoJS) (platform : Platform) (st : State) :
  (forall k, ENCRYPTION_KEY platform = Some k -> (String.length k < 32)%nat) ->
  let st1 := initEncryption lib platform st in
  let st2 := initEncryption lib platform st1 in
  ((exists e, getDeviceIdAsync platform = Throw e) ->
   encryptionKeyPromise st1 = Some "MedicalAppDefaultEncryptionKey12345678901234" /\
   encryptionKeyPromise st2 = Some "MedicalAppDefaultEncryptionKey12345678901234") /\
  ((exists e, getRandomBytesAsync platform (draws st) 16 = Throw e) ->
   encryptionKeyPromise st1 = Some "MedicalAppDefaultEncryptionKey12345678901234") /\
  (forall dev seed1 seed2,
     getDeviceIdAsync platform = Ok dev ->
     getRandomBytesAsync platform (draws st) 16 = Ok seed1 ->
     getRandomBytesAsync platform (S (draws st)) 16 = Ok seed2 ->
     seed1 <> seed2 ->
     (forall a b, SHA256 lib a = SHA256 lib b -> a = b) ->
     exists key1 key2,
       encryptionKeyPromise st1 = Some key1 /\ encryptionKeyPromise st2 = Some key2 /\
       key1 <> key2 /\
       forall data, fst (awaitKey lib platform (snd (decrypt lib platform data st2))) = key2).
Proof.
  intros He st1 st2.
  assert (P : forall s, encryptionKeyPromise (initEncryption lib platform s) =
                        Some (fst (getEncryptionKey lib platform s))).
  { intros s. unfold initEncryption. destruct (getEncryptionKey lib platform s). reflexivity. }
  split; [|split].
  - intros Hd. subst st2 st1. rewrite !P.
    rewrite !(getEncryptionKey_fallback lib platform _ He (or_introl Hd)). auto.
  - intros Hd. subst st1. rewrite P.
    rewrite (getEncryptionKey_fallback lib platform _ He (or_intror Hd)). reflexivity.
  - intros dev seed1 seed2 Hd H1 H2 Hne Hinj.
    assert (E1 : st1 = mkState (Some (fst (getEncryptionKey lib platform st))) (S (draws st))).
    { subst st1. unfold initEncryption.
      rewrite (getEncryptionKey_device lib platform dev seed1 st He Hd H1). reflexivity. }
    assert (E2 : st2 = mkState (Some (fst (getEncryptionKey lib platform st1)))
                               (S (S (draws st)))).
    { subst st2. unfold initEncryption.
      assert (H2' : getRandomBytesAsync platform (draws st1) 16 = Ok seed2)
        by (rewrite E1; exact H2).
      rewrite (getEncryptionKey_device lib platform dev seed2 st1 He Hd H2').
      rewrite E1. reflexivity. }
    exists (fst (getEncryptionKey lib platform st)), (fst (getEncryptionKey lib platform st1)).
    split; [rewrite E1; reflexivity|]. split; [rewrite E2; reflexivity|]. split.
    + rewrite (getEncryptionKey_device lib platform dev seed1 st He Hd H1).
      assert (H2' : getRandomBytesAsync platform (draws st1) 16 = Ok seed2)
        by (rewrite E1; exact H2).
      rewrite (getEncryptionKey_device lib platform dev seed2 st1 He Hd H2').
      cbn [fst]. intros K. apply Hinj in K.
      apply append_inj_l in K. apply (append_inj_l "-") in K.
      apply Hne, Hex_stringify_inj.
      apply (append_inj_r _ _ "-MedicalAppSecretKey"). exact K.
    + intros data. rewrite decrypt_state.
      rewrite (awaitKey_cached lib platform st2 (fst (getEncryptionKey lib platform st1)))
        by (rewrite E2; reflexivity).
      cbn [snd]. rewrite (awaitKey_cached lib platform st2 _ ltac:(rewrite E2; reflexivity)).
      reflexivity.
Qed.

Lemma device_key_changes_witness :
  (let st1 := initEncryption Fixture.cryptoJS Fixture.platformWithoutDeviceId
                Fixture.cipher0 in
   let st2 := initEncryption Fixture.cryptoJS Fixture.platformWithoutDeviceId st1 in
   encryptionKeyPromise st1 = Some "MedicalAppDefaultEncryptionKey12345678901234" /\
   encryptionKeyPromise st2 = Some "MedicalAppDefaultEncryptionKey12345678901234") /\
  (let st1 := initEncryption Fixture.cryptoJS Fixture.platform Fixture.cipher0 in
   let st2 := initEncryption Fixture.cryptoJS Fixture.platform st1 in
   exists key1 key2,
     encryptionKeyPromise st1 = Some key1 /\ encryptionKeyPromise st2 = Some key2 /\
     key1 <> key2 /\
     forall data,
       fst (awaitKey Fixture.cryptoJS Fixture.platform
              (snd (decrypt Fixture.cryptoJS Fixture.platform data st2))) = key2).
Proof.
  split.
  - apply (device_key_changes Fixture.cryptoJS Fixture.platformWithoutDeviceId
             Fixture.cipher0).
    + intros k H. discriminate H.
    + eexists. reflexivity.
  - apply (device_key_changes Fixture.cryptoJS Fixture.platform Fixture.cipher0)
      with (dev := Some "device-1") (seed1 := replicate 16 (byte_of_N 0))
           (seed2 := replicate 16 (byte_of_N 1)).
    + intros k H. discriminate H.
    + reflexivity.
    + reflexivity.
    + reflexivity.
    + discriminate.
    + intros a b H. cbn in H.
      change ("sha256(" ++ a ++ ")" = "sha256(" ++ b ++ ")") in H.
      apply append_inj_l in H. apply (append_inj_r _ _ ")"). exact H.
Defined.

End CipherExtras.

(** ** The credential store *)

Module StorageExtras.
Import Js JsFacts SecureStorage StorageFacts.

Lemma prefixed_ne (key key' : string) :
  key <> key' -> KEY_PREFIX ++ key <> KEY_PREFIX ++ key'.
Proof. intros H E. apply H. exact (CipherExtras.append_inj_l _ _ _ E). Qed.

Lemma prefix_append (p k : string) : String.prefix p (p ++ k) = true.
Proof.
  induction p as [|c p IH]; [destruct k; reflexivity|].
  change (String c p ++ k) with (String c (p ++ k)). cbn [String.prefix].
  destruct (ascii_dec c c); [exact IH|contradiction].
Qed.

Section WithLibraries.
Variable lib : Encryption.CryptoJS.
Variable platform : Encryption.Platform.

(** The result of [decrypt] depends on the state through the key only. *)
Lemma decrypt_same_key blob c1 c2 :
  fst (Encryption.awaitKey lib platform c1) = fst (Encryption.awaitKey lib platform c2) ->
  fst (Encryption.decrypt lib platform blob c1) = fst (Encryption.decrypt lib platform blob c2).
Proof.
  unfold Encryption.decrypt.
  destruct (Encryption.awaitKey lib platform c1) as [k1 s1].
  destruct (Encryption.awaitKey lib platform c2) as [k2 s2].
  cbn [fst]. intros ->. reflexivity.
Qed.

Lemma awaitKey_after_encrypt value c :
  fst (Encryption.awaitKey lib platform (snd (Encryption.encrypt lib platform value c))) =
  fst (Encryption.awaitKey lib platform c).
Proof.
  destruct (Encryption.awaitKey lib platform c) as [k c1] eqn:K. cbn [fst].
  rewrite (EncryptionFacts.awaitKey_cached lib platform _ k); [reflexivity|].
  rewrite CipherExtras.encrypt_key, K. cbn [snd].
  exact (EncryptionFacts.awaitKey_caches _ _ _ _ _ K).
Qed.

Lemma awaitKey_after_decrypt blob c :
  fst (Encryption.awaitKey lib platform (snd (Encryption.decrypt lib platform blob c))) =
  fst (Encryption.awaitKey lib platform c).
Proof.
  rewrite CipherExtras.decrypt_state.
  destruct (Encryption.awaitKey lib platform c) as [k c1] eqn:K. cbn [fst snd].
  rewrite (EncryptionFacts.awaitKey_cached lib platform _ k); [reflexivity|].
  exact (EncryptionFacts.awaitKey_caches _ _ _ _ _ K).
Qed.

(** [getItem] reads the entry of its key and, on the web, the key of the
    cipher; nothing else of the state. *)
Lemma getItem_depends key st st' :
  OS st' = OS st ->
  stored key st' = stored key st ->
  fst (Encryption.awaitKey lib platform (cipher st')) =
    fst (Encryption.awaitKey lib platform (cipher st)) ->
  fst (getItem lib platform key st') = fst (getItem lib platform key st).
Proof.
  unfold getItem, stored. intros -> Hs Hk.
  destruct (is_web (OS st)); cbn [negb].
  - rewrite Hs. destruct (negb (truthy _)); [reflexivity|].
    pose proof (decrypt_same_key (default "" (AsyncStorage st !! (KEY_PREFIX ++ key)))
                  _ _ Hk) as D.
    destruct (Encryption.decrypt lib platform _ (cipher st')) as [r' c'].
    destruct (Encryption.decrypt lib platform _ (cipher st)) as [r c].
    cbn [fst] in *. subst r'. reflexivity.
  - cbn [fst try_catch]. rewrite Hs. reflexivity.
Qed.

Lemma setItem_OS key value st : OS (snd (setItem lib platform key value st)) = OS st.
Proof.
  unfold setItem. destruct (negb (is_web (OS st))); [reflexivity|].
  destruct (Encryption.encrypt _ _ _ _) as [[e|err] c]; reflexivity.
Qed.

Lemma setItem_cipher_key key value st :
  fst (Encryption.awaitKey lib platform (cipher (snd (setItem lib platform key value st)))) =
  fst (Encryption.awaitKey lib platform (cipher st)).
Proof.
  unfold setItem. destruct (negb (is_web (OS st))); [reflexivity|].
  pose proof (awaitKey_after_encrypt value (cipher st)) as H.
  destruct (Encryption.encrypt _ _ _ _) as [[e|err] c]; exact H.
Qed.

Lemma setItem_stored_other key key' value st :
  key <> key' ->
  stored key' (snd (setItem lib platform key value st)) = stored key' st.
Proof.
  intros Hne. apply prefixed_ne in Hne. unfold setItem, stored.
  destruct (is_web (OS st)) eqn:W; cbn [negb].
  - destruct (Encryption.encrypt _ _ _ _) as [[e|err] c]; cbn; rewrite W;
      [apply lookup_insert_ne; exact Hne|reflexivity].
  - cbn. rewrite W. apply lookup_insert_ne; exact Hne.
Qed.

Lemma deleteItem_stored_other key key' st :
  key <> key' ->
  stored key' (snd (deleteItem key st)) = stored key' st.
Proof.
  intros Hne. apply prefixed_ne in Hne. unfold deleteItem, stored, platform_remove.
  destruct (removal_rejected st (KEY_PREFIX ++ key));
    destruct (is_web (OS st)) eqn:W; cbn; rewrite W; try reflexivity;
    apply lookup_delete_ne; exact Hne.
Qed.

Lemma deleteItem_frame key st :
  OS (snd (deleteItem key st)) = OS st /\ cipher (snd (deleteItem key st)) = cipher st.
Proof.
  unfold deleteItem, platform_remove.
  destruct (removal_rejected st (KEY_PREFIX ++ key)), (negb (is_web (OS st))); auto.
Qed.

Lemma getItem_absent key st : stored key st = None -> fst (getItem lib platform key st) = Ok None.
Proof.
  unfold getItem, stored. destruct (is_web (OS st)); cbn [negb]; intros ->; reflexivity.
Qed.

Lemma hasKey_getItem key st v :
  fst (getItem lib platform key st) = Ok v ->
  fst (hasKey lib platform key st) = Ok (bool_decide (v <> None)).
Proof.
  unfold hasKey. destruct (getItem lib platform key st) as [r st']. cbn [fst].
  intros ->. reflexivity.
Qed.

Lemma setItem_getItem_same key value st :
  Encryption.AES_contract lib ->
  (forall i n, length (Encryption.WordArray_random platform i n) = n) ->
  fst (setItem lib platform key value st) = Ok tt /\
  fst (getItem lib platform key (snd (setItem lib platform key value st))) = Ok (Some value).
Proof.
  intros Hc Hlen. unfold setItem.
  destruct (is_web (OS st)) eqn:W; cbn [negb].
  - destruct (CipherExtras.encrypt_then_decrypt lib platform value (cipher st) Hc Hlen)
      as (e & E & Hne & D).
    destruct (Encryption.encrypt lib platform value (cipher st)) as [r c].
    cbn [fst snd] in *. subst r. cbn [fst snd]. split; [reflexivity|].
    unfold getItem. cbn [OS AsyncStorage cipher]. rewrite W. cbn [negb].
    rewrite lookup_insert_eq, (truthy_nonempty _ Hne). cbn [negb default id].
    specialize (D c eq_refl).
    destruct (Encryption.decrypt lib platform e c) as [r c']. cbn [fst] in *. subst r.
    reflexivity.
  - cbn [fst snd]. split; [reflexivity|].
    unfold getItem. cbn [OS SecureStore]. rewrite W. cbn [negb fst try_catch].
    rewrite lookup_insert_eq. reflexivity.
Qed.

End WithLibraries.



(** X7.  When the platform accepts the removal, [deleteItem] returns,
    [getItem] then returns [null] for the key and [hasKey] answers [false],
    and removing a key that is not stored changes nothing; when the platform
    rejects the removal, [deleteItem] throws its own error, which names the
    key, and the store is as it was. *)
Theorem deleteItem_then_absent (lib : Encryption.CryptoJS) (platform : Encryption.Platform)
    (key : string) (st : State) :
  let st1 := snd (deleteItem key st) in
  (removal_rejected st (KEY_PREFIX ++ key) = false ->
   fst (deleteItem key st) = Ok tt /\
   fst (getItem lib platform key st1) = Ok None /\
   fst (hasKey lib platform key st1) = Ok false /\
   (stored key st = None -> st1 = st)) /\
  (removal_rejected st (KEY_PREFIX ++ key) = true ->
   deleteItem key st =
     (Throw (Error ("Failed to delete secure data for key: " ++ key)), st)).
Proof.
  intros st1. split.
  - intros Ha. destruct (ClientFacts.deleteItem_accepted key st Ha) as [D S].
    assert (G : fst (getItem lib platform key st1) = Ok None)
      by (apply getItem_absent; exact S).
    split; [exact D|].
    split; [exact G|]. split; [rewrite (hasKey_getItem _ _ _ _ _ G); reflexivity|].
    unfold st1, stored, deleteItem, platform_remove. rewrite Ha.
    destruct st as [os ss as' c rej]. cbn.
    destruct (is_web os); cbn; intros H; rewrite delete_id by exact H; reflexivity.
  - apply ClientFacts.deleteItem_rejected.
Qed.

(** X8.  Keys are independent: storing or removing a value under one key
    does not change what [getItem] returns for another key, on either
    backend. *)
Theorem other_keys_untouched (lib : Encryption.CryptoJS) (platform : Encryption.Platform)
    (key key' value : string) (st : State) :
  key <> key' ->
  fst (getItem lib platform key' (snd (setItem lib platform key value st))) =
    fst (getItem lib platform key' st) /\
  fst (getItem lib platform key' (snd (deleteItem key st))) =
    fst (getItem lib platform key' st).
Proof.
  intros Hne. split.
  - apply getItem_depends.
    + apply setItem_OS.
    + apply setItem_stored_other; exact Hne.
    + apply setItem_cipher_key.
  - apply getItem_depends.
    + apply deleteItem_frame.
    + apply deleteItem_stored_other; exact Hne.
    + rewrite (proj2 (deleteItem_frame key st)). reflexivity.
Qed.

Lemma other_keys_untouched_witness :
  fst (getItem Fixture.cryptoJS Fixture.platform "refresh_token"
         (snd (setItem Fixture.cryptoJS Fixture.platform "auth_token" "tok-2"
                 Fixture.nativeStore))) =
    fst (getItem Fixture.cryptoJS Fixture.platform "refresh_token" Fixture.nativeStore) /\
  fst (getItem Fixture.cryptoJS Fixture.platform "refresh_token"
         (snd (deleteItem "auth_token" Fixture.nativeStore))) =
    fst (getItem Fixture.cryptoJS Fixture.platform "refresh_token" Fixture.nativeStore).
Proof.
  apply (other_keys_untouched Fixture.cryptoJS Fixture.platform
           "auth_token" "refresh_token" "tok-2" Fixture.nativeStore).
  discriminate.
Defined.

(** X9.  On the web [clear] removes every entry this module wrote (every
    key reads as absent afterwards) and keeps the entries of [AsyncStorage]
    whose key lacks the prefix; on a native platform [clear] removes
    nothing. *)
Theorem clear_prefixed_only (lib : Encryption.CryptoJS) (platform : Encryption.Platform)
    (st : State) :
  (is_web (OS st) = true ->
   (forall key, fst (getItem lib platform key (clear st)) = Ok None) /\
   (forall k, String.prefix KEY_PREFIX k = true -> AsyncStorage (clear st) !! k = None) /\
   (forall k, String.prefix KEY_PREFIX k = false ->
              AsyncStorage (clear st) !! k = AsyncStorage st !! k)) /\
  (is_web (OS st) = false -> clear st = st).
Proof.
  unfold clear. split; intros W; rewrite W; [|reflexivity].
  assert (P : forall k, String.prefix KEY_PREFIX k = true ->
     filter (fun kv : string * string => negb (String.prefix KEY_PREFIX (fst kv)) = true)
            (AsyncStorage st) !! k = None).
  { intros k Hk. apply map_lookup_filter_None. right. intros v _. cbn [fst].
    rewrite Hk. discriminate. }
  split; [|split; [exact P|]].
  - intros key. apply getItem_absent. unfold stored. cbn [OS AsyncStorage]. rewrite W.
    apply P, prefix_append.
  - intros k Hk. cbn [AsyncStorage].
    destruct (AsyncStorage st !! k) as [v|] eqn:L.
    + apply map_lookup_filter_Some. split; [exact L|]. cbn [fst]. rewrite Hk. reflexivity.
    + apply map_lookup_filter_None. left. exact L.
Qed.



End StorageExtras.

(** ** The normalization of errors *)

Module ErrorExtras.
Import Js JsFacts ErrorHandlers.

Section WithRegExp.
Variable replacePatterns : string -> string.

Abbreviation handleApiError := (ErrorHandlers.handleApiError replacePatterns).

Abbreviation generic_message :=
  "An unexpected error occurred while communicating with the server.".

Abbreviation initial := (mkDraft 500 "UNKNOWN_ERROR" (Text generic_message) None).

Lemma fromResponse_code response : draft_code (fromResponse initial response) <> "".
Proof.
  unfold fromResponse.
  destruct (resp_data response) as [rd|]; cbn [draft_code draft_message draft_status].
  - assert (H : (if negb (String.eqb (rd_code rd) "") then rd_code rd
                 else if truthy_error (rd_error rd)
                      then match rd_error rd with ErrorString s => s | _ => "API_ERROR" end
                      else draft_code initial) <> "").
    { destruct (String.eqb_spec (rd_code rd) ""); cbn [negb]; [|assumption].
      destruct (rd_error rd) as [|s|]; cbn [truthy_error]; try discriminate.
      destruct (String.eqb_spec s ""); cbn [negb]; [discriminate|assumption]. }
    destruct (_ || _); cbn [draft_code]; exact H.
  - destruct (_ || _); cbn [draft_code]; discriminate.
Qed.

Lemma handleApiError_response cfg response request axios_code :
  handleApiError (AxiosError cfg (Some response) request axios_code) =
  sanitized replacePatterns (fromResponse initial response).
Proof.
  unfold ErrorHandlers.handleApiError.
  destruct (String.eqb_spec (draft_code (fromResponse initial response)) "") as [E|E];
    [|reflexivity].
  destruct (fromResponse_code response E).
Qed.

(** X11.  The code of a normalized Axios error is never empty, so the
    fallback [axiosError.code || 'API_ERROR'] is never taken: neither the code
    of the Axios error nor its request configuration has any influence on
    what [handleApiError] returns or throws. *)
Theorem axios_code_never_used (cfg cfg' : AxiosRequestConfig)
    (response : option AxiosResponse) (request : bool) (axios_code axios_code' : string) :
  (forall e, handleApiError (AxiosError cfg response request axios_code) = Ok e ->
             code e <> "") /\
  handleApiError (AxiosError cfg response request axios_code) =
  handleApiError (AxiosError cfg' response request axios_code').
Proof.
  unfold ErrorHandlers.handleApiError.
  set (a := match response with
            | Some r => fromResponse initial r
            | None => if request
                      then mkDraft 0 "NETWORK_ERROR"
                             (Text "Network error. Please check your internet connection.")
                             (draft_errors initial)
                      else initial
            end).
  assert (Ha : draft_code a <> "").
  { subst a. destruct response as [r|]; [apply fromResponse_code|].
    destruct request; discriminate. }
  destruct (String.eqb_spec (draft_code a) ""); [contradiction|].
  split; [|reflexivity].
  intros e. unfold sanitized. destruct (draft_message a); [|discriminate].
  intros [= <-]. exact Ha.
Qed.


End WithRegExp.
End ErrorExtras.

(** ** The API client: every schedule *)

Module ClientExtras.
Import Js JsFacts SecureStorage ErrorHandlers ApiClient ClientFacts.

Ltac fields :=
  cbn [isRefreshingToken tokenRefreshPromise refreshes nextPromise calls secureStore
       refreshPosts sent set_call set_store set_refresh count_post log_sent finally
       start_refresh replay settle_call].

Ltac fields_in H :=
  cbn [isRefreshingToken tokenRefreshPromise refreshes nextPromise calls secureStore
       refreshPosts sent set_call set_store set_refresh count_post log_sent finally
       start_refresh replay settle_call] in H.

Lemma lifecycle_refl st r : lifecycle st st r.
Proof. unfold lifecycle. destruct (calls st !! r); constructor. reflexivity. Qed.

Lemma lifecycle_eq st st' r : calls st' !! r = calls st !! r -> lifecycle st st' r.
Proof. unfold lifecycle. intros ->. destruct (calls st !! r); constructor. reflexivity. Qed.

Lemma lifecycle_trans st1 st2 st3 r :
  lifecycle st1 st2 r -> lifecycle st2 st3 r -> lifecycle st1 st3 r.
Proof.
  unfold lifecycle. intros H1 H2.
  destruct H1 as [c1 c2 H1|]; inversion H2; subst; constructor.
  etrans; eassumption.
Qed.

Lemma lifecycle_move st st' r c c' :
  calls st !! r = Some c -> calls st' !! r = Some c' -> moves c c' -> lifecycle st st' r.
Proof. unfold lifecycle. intros -> -> H. constructor. apply rtc_once, H. Qed.

(** One call moves, the others stay. *)
Lemma lifecycle_set_call st st' r c c' :
  calls st !! r = Some c -> calls st' = <[r := c']> (calls st) -> moves c c' ->
  forall r', lifecycle st st' r'.
Proof.
  intros Hc Hs Hm r'. destruct (decide (r' = r)) as [->|Hne].
  - apply (lifecycle_move _ _ _ c c'); [exact Hc| |exact Hm].
    rewrite Hs. apply lookup_insert_eq.
  - apply lifecycle_eq. rewrite Hs. apply lookup_insert_ne. congruence.
Qed.

Section WithLibraries.
Variable lib : Encryption.CryptoJS.
Variable platform : Encryption.Platform.
Variable replacePatterns : string -> string.

Abbreviation step := (ApiClient.step lib platform replacePatterns).
Abbreviation run := (ApiClient.run lib platform replacePatterns).
Abbreviation handleApiError := (ErrorHandlers.handleApiError replacePatterns).

Lemma rejection_cases error :
  (exists a, ErrorHandlers.rejection replacePatterns error = Rejection a) \/
  ErrorHandlers.rejection replacePatterns error = not_a_function.
Proof.
  unfold ErrorHandlers.rejection, ErrorHandlers.handleApiError, sanitized.
  match goal with |- context [draft_message ?d] => destruct (draft_message d) end; eauto.
Qed.

Lemma moves_rejection cfg error :
  moves (mkCall cfg InFlight)
        (mkCall cfg (Settled (Throw (ErrorHandlers.rejection replacePatterns error)))).
Proof.
  destruct (rejection_cases error) as [[a ->]| ->]; [apply failed|apply normalization_failed].
Qed.

Lemma resume_lifecycle o st w r : lifecycle st (resume o st w) r.
Proof.
  unfold resume. destruct (calls st !! w) as [[cfg pc0]|] eqn:E; [|apply lifecycle_refl].
  destruct pc0; try apply lifecycle_refl; destruct o as [token|e].
  - destruct (negb (String.eqb token "") && has_headers cfg).
    + eapply lifecycle_set_call; [exact E|reflexivity|]. apply replayed. reflexivity.
    + eapply lifecycle_set_call; [exact E|reflexivity|]. apply refresh_restarted.
  - eapply lifecycle_set_call; [exact E|reflexivity|]. apply refresh_failed. reflexivity.
  - eapply lifecycle_set_call; [exact E|reflexivity|]. apply replayed. reflexivity.
  - eapply lifecycle_set_call; [exact E|reflexivity|]. apply refresh_failed. reflexivity.
Qed.

Lemma foldl_resume_lifecycle o ws r :
  forall st, lifecycle st (foldl (resume o) st ws) r.
Proof.
  induction ws as [|w ws IH]; intros st; cbn [foldl]; [apply lifecycle_refl|].
  eapply lifecycle_trans; [apply resume_lifecycle|apply IH].
Qed.

Lemma settle_refresh_lifecycle p o st r : lifecycle st (settle_refresh p o st) r.
Proof.
  unfold settle_refresh. destruct (refreshes st !! p) as [t|]; [|apply lifecycle_refl].
  eapply lifecycle_trans; [|apply foldl_resume_lifecycle]. apply lifecycle_eq. reflexivity.
Qed.

Lemma await_follower_lifecycle st r cfg p :
  calls st !! r = Some (mkCall cfg InFlight) -> _retry cfg = false ->
  forall r', lifecycle st (await_follower r (set_retry cfg) p st) r'.
Proof.
  intros Hc Hr r'. unfold await_follower.
  destruct (refreshes st !! p) as [t|]; [|apply lifecycle_refl].
  assert (H1 : lifecycle st (set_call r (mkCall (set_retry cfg) (AwaitFollower p)) st) r').
  { eapply lifecycle_set_call; [exact Hc|reflexivity|]. apply refresh_joined, Hr. }
  destruct (outcome_of (task t)) as [o|].
  - eapply lifecycle_trans; [exact H1|apply resume_lifecycle].
  - eapply lifecycle_trans; [exact H1|]. apply lifecycle_eq. reflexivity.
Qed.

Lemma responseRejected_axios_lifecycle st r cfg response request axios_code :
  calls st !! r = Some (mkCall cfg InFlight) ->
  forall r',
  lifecycle st (responseRejected replacePatterns r
                  (AxiosError cfg response request axios_code) st) r'.
Proof.
  intros Hc r'. unfold responseRejected. destruct response as [response|].
  - destruct (resp_status response =? 401); cbn [andb].
    + destruct (_retry cfg) eqn:Hr; cbn [negb].
      * eapply lifecycle_set_call; [exact Hc|reflexivity|]. apply moves_rejection.
      * destruct (isRefreshingToken st); [destruct (tokenRefreshPromise st) as [p|]|].
        -- apply await_follower_lifecycle; assumption.
        -- eapply lifecycle_set_call; [exact Hc|reflexivity|]. apply refresh_started, Hr.
        -- eapply lifecycle_set_call; [exact Hc|reflexivity|]. apply refresh_started, Hr.
    + eapply lifecycle_set_call; [exact Hc|reflexivity|]. apply moves_rejection.
  - eapply lifecycle_set_call; [exact Hc|reflexivity|]. apply moves_rejection.
Qed.

Lemma requestInterceptor_throws isConnected cfg store e :
  fst (requestInterceptor lib platform isConnected cfg store) = Throw e ->
  e = Error "No network connection available" \/
  e = TypeError "Cannot read properties of undefined (reading 'version')".
Proof.
  unfold requestInterceptor. destruct isConnected; cbn [negb fst]; [|intros [= <-]; auto].
  destruct (SecureStorage.getItem lib platform "auth_token" store) as [tokenR store1].
  set (config1 := match tokenR with Ok _ => _ | Throw _ => _ end).
  destruct (headers config1); [|discriminate].
  destruct (environment config1); [|cbn; intros [= <-]; auto].
  destruct (StorageFacts.getItem_total lib platform "user_id" store1) as [v Hv].
  destruct (SecureStorage.getItem lib platform "user_id" store1) as [userIdR store2].
  cbn [fst] in Hv. subst userIdR. destruct (truthy v); discriminate.
Qed.

Lemma dispatch_lifecycle st r isConnected r' : lifecycle st (dispatch lib platform replacePatterns r isConnected st) r'.
Proof.
  unfold dispatch. destruct (calls st !! r) as [[cfg pc0]|] eqn:E; [|apply lifecycle_refl].
  destruct pc0; try apply lifecycle_refl.
  destruct (requestInterceptor lib platform isConnected cfg (secureStore st))
    as [[cfg'|e] store'] eqn:RI.
  - eapply lifecycle_set_call; [exact E|reflexivity|]. apply sent_to_transport.
    destruct isConnected.
    + apply (requestInterceptor_retry lib platform cfg (secureStore st)). rewrite RI. reflexivity.
    + unfold requestInterceptor in RI. discriminate.
  - assert (He : e = Error "No network connection available" \/
                 e = TypeError "Cannot read properties of undefined (reading 'version')").
    { apply (requestInterceptor_throws isConnected cfg (secureStore st)). rewrite RI. reflexivity. }
    destruct He as [-> | ->]; unfold responseRejected; fields; rewrite E;
      rewrite ?rejection_Error, ?rejection_TypeError;
      (eapply lifecycle_set_call; [exact E|reflexivity|]); apply rejected_before_sending.
Qed.

Lemma respond_lifecycle st r reply r' : lifecycle st (respond replacePatterns r reply st) r'.
Proof.
  unfold respond. destruct (calls st !! r) as [[cfg pc0]|] eqn:E; [|apply lifecycle_refl].
  destruct pc0; try apply lifecycle_refl. destruct reply.
  - eapply lifecycle_set_call; [exact E|reflexivity|]. apply answered.
  - apply responseRejected_axios_lifecycle, E.
  - apply responseRejected_axios_lifecycle, E.
Qed.

Lemma storeDone_lifecycle st r r' : lifecycle st (storeDone r st) r'.
Proof.
  unfold storeDone. destruct (calls st !! r) as [[cfg pc0]|] eqn:E; [|apply lifecycle_refl].
  destruct pc0; try apply lifecycle_refl.
  - destruct (deleteItem_cases "auth_token" (secureStore st)) as [[_ D]|[_ D]].
    + destruct (SecureStorage.deleteItem "auth_token" (secureStore st)) as [d store'].
      cbn [fst] in D. subst d.
      eapply lifecycle_set_call; [exact E|reflexivity|]. apply auth_token_deleted.
    + rewrite D. eapply lifecycle_set_call; [exact E|reflexivity|]. apply auth_token_kept.
  - destruct (deleteItem_cases "refresh_token" (secureStore st)) as [[_ D]|[_ D]].
    + destruct (SecureStorage.deleteItem "refresh_token" (secureStore st)) as [d store'].
      cbn [fst] in D. subst d.
      eapply lifecycle_set_call; [exact E|reflexivity|]. apply tokens_deleted.
    + rewrite D. eapply lifecycle_set_call; [exact E|reflexivity|]. apply refresh_token_kept.
Qed.

Lemma refreshResume_lifecycle st p r : lifecycle st (refreshResume lib platform p st) r.
Proof.
  unfold refreshResume. destruct (refreshes st !! p) as [[t ws]|]; [|apply lifecycle_refl].
  destruct t; try apply lifecycle_refl.
  - destruct (SecureStorage.getItem lib platform "refresh_token" (secureStore st))
      as [[v|e] store'].
    + destruct (truthy v); [apply lifecycle_eq; reflexivity|].
      eapply lifecycle_trans; [|apply settle_refresh_lifecycle]. apply lifecycle_eq. reflexivity.
    + eapply lifecycle_trans; [|apply settle_refresh_lifecycle]. apply lifecycle_eq. reflexivity.
  - destruct (SecureStorage.setItem lib platform "auth_token" token (secureStore st))
      as [[u|e] store'];
      (eapply lifecycle_trans; [|apply settle_refresh_lifecycle]); apply lifecycle_eq; reflexivity.
Qed.

Lemma refreshResponse_lifecycle st p reply r : lifecycle st (refreshResponse p reply st) r.
Proof.
  unfold refreshResponse. destruct (refreshes st !! p) as [[t ws]|]; [|apply lifecycle_refl].
  destruct t; try apply lifecycle_refl. destruct reply.
  - apply lifecycle_eq. reflexivity.
  - apply settle_refresh_lifecycle.
Qed.

Lemma step_lifecycle st ev r : lifecycle st (step st ev) r.
Proof.
  destruct ev; cbn [ApiClient.step].
  - apply dispatch_lifecycle.
  - apply respond_lifecycle.
  - apply refreshResume_lifecycle.
  - apply refreshResponse_lifecycle.
  - apply storeDone_lifecycle.
Qed.

Lemma run_lifecycle evs r : forall st, lifecycle st (run st evs) r.
Proof.
  induction evs as [|ev evs IH]; intros st; [apply lifecycle_refl|].
  rewrite run_cons. eapply lifecycle_trans; [apply step_lifecycle|apply IH].
Qed.

(** *** What the steps leave alone *)

Lemma resume_quiet o st w :
  refreshPosts (resume o st w) = refreshPosts st /\ sent (resume o st w) = sent st.
Proof.
  unfold resume. destruct (calls st !! w) as [[cfg pc0]|]; [|auto].
  destruct pc0; auto; destruct o; auto.
  destruct (negb _ && _); auto.
Qed.

Lemma foldl_resume_quiet o ws :
  forall st, refreshPosts (foldl (resume o) st ws) = refreshPosts st /\
             sent (foldl (resume o) st ws) = sent st.
Proof.
  induction ws as [|w ws IH]; intros st; cbn [foldl]; [auto|].
  destruct (IH (resume o st w)) as [-> ->]. apply resume_quiet.
Qed.

Lemma settle_refresh_quiet p o st :
  refreshPosts (settle_refresh p o st) = refreshPosts st /\
  sent (settle_refresh p o st) = sent st.
Proof.
  unfold settle_refresh. destruct (refreshes st !! p); [|auto].
  apply (foldl_resume_quiet o (waiters r) (set_refresh p _ st)).
Qed.

Lemma await_follower_quiet r cfg p st :
  refreshPosts (await_follower r cfg p st) = refreshPosts st /\
  sent (await_follower r cfg p st) = sent st.
Proof.
  unfold await_follower. destruct (refreshes st !! p) as [t|]; [|auto].
  destruct (outcome_of (task t)) as [o|]; [|auto].
  apply (resume_quiet o (set_call r (mkCall cfg (AwaitFollower p)) st) r).
Qed.

Lemma responseRejected_quiet r e st :
  refreshPosts (responseRejected replacePatterns r e st) = refreshPosts st /\
  sent (responseRejected replacePatterns r e st) = sent st.
Proof.
  unfold responseRejected.
  destruct e as [msg|msg|cfg [response|] request c|a];
    try (destruct (calls st !! r); auto; fail); auto.
  destruct (_ && _); auto.
  destruct (isRefreshingToken st); [destruct (tokenRefreshPromise st)|]; auto.
  apply await_follower_quiet.
Qed.

Lemma storeDone_quiet r st :
  refreshPosts (storeDone r st) = refreshPosts st /\ sent (storeDone r st) = sent st.
Proof.
  unfold storeDone. destruct (calls st !! r) as [[cfg pc0]|]; [|auto].
  destruct pc0; auto;
    destruct (SecureStorage.deleteItem _ (secureStore st)) as [[u|e] store']; auto.
Qed.

Lemma settle_refresh_sent p o st : sent (settle_refresh p o st) = sent st.
Proof. apply settle_refresh_quiet. Qed.

Lemma refresh_steps_sent st ev :
  (exists p, ev = RefreshResume p) \/ (exists p reply, ev = RefreshResponse p reply) ->
  sent (step st ev) = sent st.
Proof.
  intros [[p ->]|(p & reply & ->)]; cbn [ApiClient.step].
  - unfold refreshResume. destruct (refreshes st !! p) as [[t ws]|]; [|reflexivity].
    destruct t; try reflexivity.
    + destruct (SecureStorage.getItem lib platform "refresh_token" (secureStore st))
        as [[v|e] store'].
      * destruct (truthy v); [reflexivity|]. rewrite settle_refresh_sent. reflexivity.
      * rewrite settle_refresh_sent. reflexivity.
    + destruct (SecureStorage.setItem lib platform "auth_token" token (secureStore st))
        as [[u|e] store']; rewrite settle_refresh_sent; reflexivity.
  - unfold refreshResponse. destruct (refreshes st !! p) as [[t ws]|]; [|reflexivity].
    destruct t; try reflexivity. destruct reply; [reflexivity|apply settle_refresh_sent].
Qed.

(** Only a dispatch that passes the request interceptor hands a request to
    the transport. *)
Lemma step_sent st ev :
  sent (step st ev) = sent st \/
  exists r cfg cfg',
    ev = Dispatch r true /\ calls st !! r = Some (mkCall cfg Queued) /\
    _retry cfg' = _retry cfg /\ sent (step st ev) = (r, cfg') :: sent st.
Proof.
  destruct ev as [r isConnected|r reply|p|p reply|r].
  - cbn [ApiClient.step]. unfold dispatch.
    destruct (calls st !! r) as [[cfg pc0]|] eqn:E; [|auto]. destruct pc0; auto.
    destruct (requestInterceptor lib platform isConnected cfg (secureStore st))
      as [[cfg'|e] store'] eqn:RI.
    + right. exists r, cfg, cfg'. destruct isConnected.
      * split; [reflexivity|]. split; [exact E|]. split; [|reflexivity].
        apply (requestInterceptor_retry lib platform cfg (secureStore st)).
        rewrite RI. reflexivity.
      * unfold requestInterceptor in RI. discriminate.
    + left. exact (proj2 (responseRejected_quiet r e (set_store store' st))).
  - left. cbn [ApiClient.step]. unfold respond.
    destruct (calls st !! r) as [[cfg pc0]|]; [|reflexivity]. destruct pc0; try reflexivity.
    destruct reply; [reflexivity|apply responseRejected_quiet..].
  - left. apply refresh_steps_sent. eauto.
  - left. apply refresh_steps_sent. eauto.
  - left. exact (proj2 (storeDone_quiet r st)).
Qed.

End WithLibraries.

(** *** Consequences of the life cycle *)

Lemma moves_settled cfg o c' : moves (mkCall cfg (Settled o)) c' -> False.
Proof. intros H. inversion H; subst; discriminate. Qed.

Lemma rtc_moves_settled cfg o c' :
  rtc moves (mkCall cfg (Settled o)) c' -> c' = mkCall cfg (Settled o).
Proof.
  intros H. apply rtc_inv in H as [H|(y & H & _)]; [congruence|].
  destruct (moves_settled _ _ _ H).
Qed.

Lemma lifecycle_settled st st' r cfg o :
  lifecycle st st' r -> calls st !! r = Some (mkCall cfg (Settled o)) ->
  calls st' !! r = Some (mkCall cfg (Settled o)).
Proof.
  unfold lifecycle. intros H Hc. rewrite Hc in H. inversion H as [c c' Hm|]; subst.
  f_equal. apply rtc_moves_settled, Hm.
Qed.

Lemma rtc_moves_rejected c cfg e :
  rtc moves c (mkCall cfg (Settled (Throw e))) ->
  c = mkCall cfg (Settled (Throw e)) \/ client_error e.
Proof.
  intros H. apply rtc_inv_r in H as [H|(y & _ & H)]; [auto|].
  right. unfold client_error. inversion H; subst; eauto.
Qed.

Lemma lifecycle_normalized st st' :
  (forall r, lifecycle st st' r) -> Normalized st -> Normalized st'.
Proof.
  intros L Hn r cfg e H. specialize (L r).
  unfold lifecycle in L. rewrite H in L. inversion L as [c c' Hm Hc|]; subst.
  apply rtc_moves_rejected in Hm as [->|Ha]; [|exact Ha].
  apply (Hn r cfg e). symmetry. assumption.
Qed.

Lemma moves_sends c c' : moves c c' -> (sends_of c' <= sends_of c)%nat.
Proof.
  intros H. destruct H; unfold sends_of; cbn [pc config set_retry set_header _retry];
    try match goal with H : _retry _ = _ |- _ => rewrite H end;
    try match goal with H : is_await ?pc = true |- _ => destruct pc; try discriminate end;
    repeat match goal with |- context [if ?b then _ else _] => destruct b end; lia.
Qed.

Lemma rtc_moves_sends c c' : rtc moves c c' -> (sends_of c' <= sends_of c)%nat.
Proof.
  induction 1 as [|x y z Hxy _ IH]; [lia|]. pose proof (moves_sends _ _ Hxy). lia.
Qed.

Lemma lifecycle_sends st st' r :
  lifecycle st st' r -> (sends_left st' r <= sends_left st r)%nat.
Proof.
  unfold lifecycle, sends_left. intros H. destruct H as [c c' H|]; cbn; [|lia].
  apply rtc_moves_sends, H.
Qed.

Lemma sends_of_bound c : (sends_of c <= 2)%nat.
Proof.
  unfold sends_of. destruct (pc c); try destruct (_retry (config c)); lia.
Qed.

(** X13.  Whatever the schedule, each call [apiClient(config)] goes through
    its life cycle and nothing else: it is sent or rejected by the request
    interceptor; once on the wire it is answered, rejected with its
    normalized error or with the [TypeError] that [handleApiError] threw, or
    waits for a refresh; a waiting call is replayed, or enters the [catch]
    block, which ends with [AUTH_REQUIRED] after both removals or with the
    error of the removal that failed; and no call appears that was not
    made. *)
Theorem call_lifecycle (lib : Encryption.CryptoJS) (platform : Encryption.Platform)
    (replacePatterns : string -> string) (st : State) (evs : list Event) (r : nat) :
  lifecycle st (ApiClient.run lib platform replacePatterns st evs) r.
Proof. apply run_lifecycle. Qed.

(** X14.  A settled call stays as it is: no later event changes the value
    or the error its promise was settled with. *)
Theorem settled_is_final (lib : Encryption.CryptoJS) (platform : Encryption.Platform)
    (replacePatterns : string -> string) (st : State) (evs : list Event) (r : nat)
    (cfg : AxiosRequestConfig) (outcome : result AxiosResponse) :
  calls st !! r = Some (mkCall cfg (Settled outcome)) ->
  calls (ApiClient.run lib platform replacePatterns st evs) !! r =
    Some (mkCall cfg (Settled outcome)).
Proof.
  revert st. induction evs as [|ev evs IH]; intros st H; [exact H|].
  rewrite run_cons. apply IH.
  exact (lifecycle_settled _ _ _ _ _ (step_lifecycle lib platform replacePatterns st ev r) H).
Qed.

Lemma settled_is_final_witness :
  let st := Fixture.step (Fixture.fourInFlight Fixture.nativeStore)
              (Respond 0 (Success (mkAxiosResponse 200 None))) in
  calls (Fixture.run st
           [Respond 0 (Failure Fixture.unauthorized); Dispatch 0 true; StoreDone 0;
            Respond 1 (Failure Fixture.unauthorized); RefreshResume 0]) !! 0%nat =
    Some (mkCall Fixture.getPatients (Settled (Ok (mkAxiosResponse 200 None)))).
Proof.
  apply (settled_is_final Fixture.cryptoJS Fixture.platform Fixture.replacePatterns
           (Fixture.step (Fixture.fourInFlight Fixture.nativeStore)
              (Respond 0 (Success (mkAxiosResponse 200 None))))).
  vm_compute. reflexivity.
Defined.

(** X15.  The raw errors of the transport and of the request interceptor
    never reach a caller: if every rejected call was rejected with an
    [ApiError] object, with the [TypeError] that [handleApiError] throws on a
    message that is no string, or with the error of a removal that failed in
    the [catch] block, then after any schedule this is still so. *)
Theorem rejections_normalized (lib : Encryption.CryptoJS) (platform : Encryption.Platform)
    (replacePatterns : string -> string) (st : State) (evs : list Event) :
  Normalized st -> Normalized (ApiClient.run lib platform replacePatterns st evs).
Proof. apply lifecycle_normalized. intros r. apply run_lifecycle. Qed.

Lemma rejections_normalized_witness :
  let st := Fixture.client Fixture.nativeStore
              [(0%nat, mkCall Fixture.getMe Queued);
               (1%nat, mkCall Fixture.getPatients InFlight);
               (2%nat, mkCall Fixture.getPatients InFlight)] in
  let st' := Fixture.run st
               [Dispatch 0 true; Respond 1 NoResponse;
                Respond 2 (Failure (mkAxiosResponse 422
                                      (Some (mkResponseData "" ErrorAbsent MessageOther
                                               None))))] in
  Normalized st' /\
  calls st' !! 1%nat =
    Some (mkCall Fixture.getPatients (Settled (Throw (Rejection
      (mkApiError 0 "NETWORK_ERROR"
         "Network error. Please check your internet connection." None))))) /\
  calls st' !! 2%nat =
    Some (mkCall Fixture.getPatients
            (Settled (Throw (TypeError "sanitizedMessage.replace is not a function")))).
Proof.
  split; [|split; vm_compute; reflexivity].
  apply (rejections_normalized Fixture.cryptoJS Fixture.platform Fixture.replacePatterns).
  intros r cfg e H. apply elem_of_list_to_map_2 in H.
  repeat (apply elem_of_cons in H as [H|H]; [discriminate H|]).
  apply elem_of_nil in H. destruct H.
Defined.

(** X16.  No request is handed to the transport more than twice, in any
    schedule: the number of times call [r] was sent, plus the number of times
    it can still be sent (two before its [_retry] flag is set, one after),
    never grows. *)
Theorem sent_at_most_twice (lib : Encryption.CryptoJS) (platform : Encryption.Platform)
    (replacePatterns : string -> string) (st : State) (evs : list Event) (r : nat) :
  let st' := ApiClient.run lib platform replacePatterns st evs in
  (times_sent r st' + sends_left st' r <= times_sent r st + sends_left st r)%nat /\
  (times_sent r st' <= times_sent r st + 2)%nat.
Proof.
  cbv zeta.
  assert (H : (times_sent r (ApiClient.run lib platform replacePatterns st evs) +
               sends_left (ApiClient.run lib platform replacePatterns st evs) r <=
               times_sent r st + sends_left st r)%nat).
  { revert st. induction evs as [|ev evs IH]; intros st; [rewrite run_nil; lia|].
    rewrite run_cons.
    etrans; [apply IH|].
    pose proof (step_lifecycle lib platform replacePatterns st ev r) as L.
    destruct (step_sent lib platform replacePatterns st ev)
      as [Hs|(r0 & cfg & cfg' & -> & Hc & Hr & Hs)].
    - unfold times_sent. rewrite Hs. pose proof (lifecycle_sends _ _ _ L). lia.
    - unfold times_sent. rewrite Hs. rewrite filter_cons. cbn [fst].
      destruct (decide (r0 = r)) as [->|Hne].
      + cbn [length]. pose proof (dispatch_sent lib platform replacePatterns st r cfg) as D.
        assert (Hl : (sends_left (ApiClient.step lib platform replacePatterns st
                                    (Dispatch r true)) r + 1 = sends_left st r)%nat).
        { unfold sends_left. rewrite Hc.
          cbn [ApiClient.step]. unfold dispatch. rewrite Hc.
          cbn [ApiClient.step] in Hs. unfold dispatch in Hs. rewrite Hc in Hs.
          destruct (requestInterceptor lib platform true cfg (secureStore st))
            as [[cfg2|e] store'] eqn:RI.
          - fields. rewrite lookup_insert_eq. cbn [from_option]. unfold sends_of.
            cbn [pc config]. fields_in Hs. injection Hs as <-. rewrite Hr.
            destruct (_retry cfg); reflexivity.
          - exfalso. destruct (responseRejected_quiet replacePatterns r e (set_store store' st))
              as [_ Q]. rewrite Q in Hs. fields_in Hs.
            apply (f_equal length) in Hs. cbn in Hs. lia. }
        lia.
      + pose proof (lifecycle_sends _ _ _ L). lia. }
  split; [exact H|].
  unfold sends_left in H at 2.
  assert (B : (from_option sends_of 0 (calls st !! r) <= 2)%nat).
  { destruct (calls st !! r); cbn; [apply sends_of_bound|lia]. }
  lia.
Qed.

(** X17.  [getQueryFn({ on401: 'returnNull' })] never returns [null] for a
    call that the API client rejected: the client rejects with [ApiError]
    objects, which have no [response] property, so the query function
    rethrows, a 401 included. *)
Theorem returnNull_never_taken (lib : Encryption.CryptoJS) (platform : Encryption.Platform)
    (replacePatterns : string -> string) (st : State) (evs : list Event) (r : nat)
    (cfg : AxiosRequestConfig) (outcome : result AxiosResponse)
    (on401 : option UseAuth.On401) :
  Normalized st ->
  calls (ApiClient.run lib platform replacePatterns st evs) !! r =
    Some (mkCall cfg (Settled outcome)) ->
  UseAuth.getQueryFn on401 outcome =
    match outcome with
    | Ok response => Ok (UseAuth.Data (resp_data response))
    | Throw e => Throw e
    end.
Proof.
  intros Hn H. destruct outcome as [response|e]; [reflexivity|].
  destruct (lifecycle_normalized _ _ (fun r => run_lifecycle lib platform replacePatterns evs r st)
              Hn r cfg e H) as [[a ->]|[->|[key ->]]]; reflexivity.
Qed.

Lemma returnNull_never_taken_witness :
  let st := Fixture.client Fixture.nativeStore
              [(0%nat, mkCall (set_retry Fixture.getPatients) InFlight)] in
  let a := mkApiError 401 "UNKNOWN_ERROR"
             "An unexpected error occurred while communicating with the server." None in
  calls (Fixture.run st [Respond 0 (Failure Fixture.unauthorized)]) !! 0%nat =
    Some (mkCall (set_retry Fixture.getPatients) (Settled (Throw (Rejection a)))) /\
  UseAuth.getQueryFn (Some UseAuth.returnNull) (Throw (Rejection a)) = Throw (Rejection a).
Proof.
  split; [vm_compute; reflexivity|].
  apply (returnNull_never_taken Fixture.cryptoJS Fixture.platform Fixture.replacePatterns
           (Fixture.client Fixture.nativeStore
              [(0%nat, mkCall (set_retry Fixture.getPatients) InFlight)])
           [Respond 0 (Failure Fixture.unauthorized)] 0%nat
           (set_retry Fixture.getPatients)
           (Throw (Rejection
              (mkApiError 401 "UNKNOWN_ERROR"
                 "An unexpected error occurred while communicating with the server."
                 None)))
           (Some UseAuth.returnNull)).
  - intros r cfg e H. apply elem_of_list_to_map_2 in H.
    repeat (apply elem_of_cons in H as [H|H]; [discriminate H|]).
    apply elem_of_nil in H. destruct H.
  - vm_compute. reflexivity.
Defined.

(** *** The gate of the refresh *)

Lemma consistent_same st st' :
  isRefreshingToken st' = isRefreshingToken st ->
  tokenRefreshPromise st' = tokenRefreshPromise st ->
  refreshes st' = refreshes st -> nextPromise st' = nextPromise st ->
  Consistent st -> Consistent st'.
Proof. intros H1 H2 H3 H4 [F P N]. split; rewrite ?H1, ?H2, ?H3, ?H4; assumption. Qed.

Lemma consistent_set_refresh p t st :
  is_Some (refreshes st !! p) -> Consistent st -> Consistent (set_refresh p t st).
Proof.
  intros Hp [F P N]. split; fields; [exact F| |].
  - intros q Hq. destruct (decide (q = p)) as [->|Hne].
    + rewrite lookup_insert_eq. eauto.
    + rewrite lookup_insert_ne by congruence. apply P, Hq.
  - intros q. destruct (decide (q = p)) as [->|Hne].
    + intros _. apply N, Hp.
    + rewrite lookup_insert_ne by congruence. apply N.
Qed.

Lemma consistent_finally st : Consistent st -> Consistent (finally st).
Proof.
  intros [F P N]. split; fields; [|discriminate|exact N].
  split; [discriminate|]. intros [x Hx]. discriminate.
Qed.

Lemma consistent_start_refresh r cfg st : Consistent st -> Consistent (start_refresh r cfg st).
Proof.
  intros [F P N]. split; fields.
  - split; eauto.
  - intros q [= <-]. rewrite lookup_insert_eq. eauto.
  - intros q. destruct (decide (q = nextPromise st)) as [->|Hne]; [lia|].
    rewrite lookup_insert_ne by congruence. intros H. apply N in H. lia.
Qed.

Lemma consistent_set_call r c st : Consistent st -> Consistent (set_call r c st).
Proof. apply consistent_same; reflexivity. Qed.

Lemma consistent_resume o st w : Consistent st -> Consistent (resume o st w).
Proof.
  intros H. unfold resume. destruct (calls st !! w) as [[cfg pc0]|]; [|exact H].
  destruct pc0; try exact H; destruct o as [token|e];
    try (apply consistent_set_call; exact H);
    try (apply consistent_finally, consistent_set_call; exact H).
  destruct (negb _ && _);
    [apply consistent_finally, consistent_set_call|apply consistent_start_refresh]; exact H.
Qed.

Lemma consistent_foldl_resume o ws :
  forall st, Consistent st -> Consistent (foldl (resume o) st ws).
Proof.
  induction ws as [|w ws IH]; intros st H; cbn [foldl]; [exact H|].
  apply IH, consistent_resume, H.
Qed.

Lemma consistent_settle_refresh p o st : Consistent st -> Consistent (settle_refresh p o st).
Proof.
  intros H. unfold settle_refresh. destruct (refreshes st !! p) as [t|] eqn:E; [|exact H].
  apply consistent_foldl_resume, consistent_set_refresh; [rewrite E; eauto|exact H].
Qed.

Lemma consistent_await_follower r cfg p st :
  Consistent st -> Consistent (await_follower r cfg p st).
Proof.
  intros H. unfold await_follower. destruct (refreshes st !! p) as [t|] eqn:E; [|exact H].
  destruct (outcome_of (task t)).
  - apply consistent_resume, consistent_set_call, H.
  - apply consistent_set_refresh; [fields; rewrite E; eauto|].
    apply consistent_set_call, H.
Qed.

Section WithLibraries.
Variable lib : Encryption.CryptoJS.
Variable platform : Encryption.Platform.
Variable replacePatterns : string -> string.

Lemma consistent_responseRejected r e st :
  Consistent st -> Consistent (responseRejected replacePatterns r e st).
Proof.
  intros H. unfold responseRejected.
  destruct e as [msg|msg|cfg [response|] request c|a];
    try (destruct (calls st !! r); [apply consistent_set_call|]; exact H);
    try (apply consistent_set_call; exact H).
  destruct (_ && _); [|apply consistent_set_call; exact H].
  destruct (isRefreshingToken st); [destruct (tokenRefreshPromise st)|];
    first [apply consistent_await_follower|apply consistent_start_refresh]; exact H.
Qed.

Lemma consistent_step st ev :
  Consistent st -> Consistent (ApiClient.step lib platform replacePatterns st ev).
Proof.
  intros H. destruct ev as [r isConnected|r reply|p|p reply|r]; cbn [ApiClient.step].
  - unfold dispatch. destruct (calls st !! r) as [[cfg pc0]|]; [|exact H].
    destruct pc0; try exact H.
    destruct (requestInterceptor lib platform isConnected cfg (secureStore st))
      as [[cfg'|e] store'].
    + revert H. apply consistent_same; reflexivity.
    + apply consistent_responseRejected. revert H. apply consistent_same; reflexivity.
  - unfold respond. destruct (calls st !! r) as [[cfg pc0]|]; [|exact H].
    destruct pc0; try exact H. destruct reply.
    + apply consistent_set_call, H.
    + apply consistent_responseRejected, H.
    + apply consistent_responseRejected, H.
  - unfold refreshResume. destruct (refreshes st !! p) as [[t ws]|] eqn:E; [|exact H].
    destruct t; try exact H.
    + destruct (SecureStorage.getItem lib platform "refresh_token" (secureStore st))
        as [[v|e] store'].
      * destruct (truthy v).
        -- assert (H1 : Consistent (set_refresh p (mkRefresh (AwaitPost (default "" v)) ws)
                                      (set_store store' st))).
           { apply consistent_set_refresh; [fields; rewrite E; eauto|].
             revert H. apply consistent_same; reflexivity. }
           revert H1. apply consistent_same; reflexivity.
        -- apply consistent_settle_refresh. revert H. apply consistent_same; reflexivity.
      * apply consistent_settle_refresh. revert H. apply consistent_same; reflexivity.
    + destruct (SecureStorage.setItem lib platform "auth_token" token (secureStore st))
        as [[u|e] store'];
        apply consistent_settle_refresh; revert H; apply consistent_same; reflexivity.
  - unfold refreshResponse. destruct (refreshes st !! p) as [[t ws]|] eqn:E; [|exact H].
    destruct t; try exact H. destruct reply.
    + apply consistent_set_refresh; [rewrite E; eauto|exact H].
    + apply consistent_settle_refresh, H.
  - unfold storeDone. destruct (calls st !! r) as [[cfg pc0]|]; [|exact H].
    destruct pc0; try exact H.
    + destruct (SecureStorage.deleteItem "auth_token" (secureStore st)) as [[u|e] store'].
      * revert H. apply consistent_same; reflexivity.
      * apply consistent_finally. revert H. apply consistent_same; reflexivity.
    + destruct (SecureStorage.deleteItem "refresh_token" (secureStore st)) as [[u|e] store'];
        apply consistent_finally; revert H; apply consistent_same; reflexivity.
Qed.

(** A step leaves the refresh token absent and, then, makes no request to
    the refresh endpoint. *)
Lemma step_without_refresh_token st ev :
  stored "refresh_token" (secureStore st) = None ->
  stored "refresh_token"
    (secureStore (ApiClient.step lib platform replacePatterns st ev)) = None /\
  refreshPosts (ApiClient.step lib platform replacePatterns st ev) = refreshPosts st.
Proof.
  intros H. destruct ev as [r isConnected|r reply|p|p reply|r].
  - split.
    + apply (step_of_other_call lib platform replacePatterns st (Dispatch r isConnected) (S r));
        [cbn; lia|exact H].
    + cbn [ApiClient.step]. unfold dispatch. destruct (calls st !! r) as [[cfg pc0]|]; [|auto].
      destruct pc0; auto.
      destruct (requestInterceptor lib platform isConnected cfg (secureStore st))
        as [[cfg'|e] store']; [reflexivity|].
      exact (proj1 (responseRejected_quiet replacePatterns r e (set_store store' st))).
  - split.
    + apply (step_of_other_call lib platform replacePatterns st (Respond r reply) (S r));
        [cbn; lia|exact H].
    + cbn [ApiClient.step]. unfold respond. destruct (calls st !! r) as [[cfg pc0]|]; [|auto].
      destruct pc0; auto. destruct reply; [reflexivity|apply responseRejected_quiet..].
  - cbn [ApiClient.step]. unfold refreshResume.
    destruct (refreshes st !! p) as [[t ws]|] eqn:E; [|auto].
    destruct t; auto.
    + pose proof (StorageExtras.getItem_absent lib platform _ _ H) as G.
      pose proof (getItem_stored lib platform "refresh_token" "refresh_token" (secureStore st))
        as S1.
      destruct (SecureStorage.getItem lib platform "refresh_token" (secureStore st))
        as [v store']. cbn [fst snd] in G, S1. subst v. cbn [truthy].
      rewrite settle_refresh_secureStore.
      rewrite (proj1 (settle_refresh_quiet p _ (set_store store' st))).
      fields. split; [congruence|reflexivity].
    + pose proof (StorageExtras.setItem_stored_other lib platform "auth_token" "refresh_token"
                    token (secureStore st)) as S1.
      destruct (SecureStorage.setItem lib platform "auth_token" token (secureStore st))
        as [w store']. cbn [snd] in S1.
      assert (Hs : stored "refresh_token" store' = None)
        by (rewrite S1; [exact H|discriminate]).
      destruct w as [u|e]; rewrite settle_refresh_secureStore,
        (proj1 (settle_refresh_quiet p _ (set_store store' st))); fields; auto.
  - cbn [ApiClient.step]. unfold refreshResponse.
    destruct (refreshes st !! p) as [[t ws]|] eqn:E; [|auto].
    destruct t; auto. destruct reply; [auto|].
    rewrite settle_refresh_secureStore, (proj1 (settle_refresh_quiet p _ st)). auto.
  - split.
    + apply storeDone_keeps_absent, H.
    + apply storeDone_quiet.
Qed.

(** *** The [catch] block under any schedule *)

Lemma resume_caught o st w r cfg pc0 :
  calls st !! r = Some (mkCall cfg pc0) -> is_await pc0 = false ->
  calls (resume o st w) !! r = Some (mkCall cfg pc0).
Proof.
  intros H Hp. destruct (decide (w = r)) as [->|Hne].
  - unfold resume. rewrite H. destruct pc0; try discriminate; exact H.
  - rewrite resume_other by exact Hne. exact H.
Qed.

Lemma foldl_resume_caught o r cfg pc0 ws :
  forall st,
  calls st !! r = Some (mkCall cfg pc0) -> is_await pc0 = false ->
  calls (foldl (resume o) st ws) !! r = Some (mkCall cfg pc0).
Proof.
  induction ws as [|w ws IH]; intros st H Hp; [exact H|].
  cbn [foldl]. apply IH; [|exact Hp]. apply resume_caught; assumption.
Qed.

Lemma settle_refresh_caught p o st r cfg pc0 :
  calls st !! r = Some (mkCall cfg pc0) -> is_await pc0 = false ->
  calls (settle_refresh p o st) !! r = Some (mkCall cfg pc0).
Proof.
  intros H Hp. unfold settle_refresh. destruct (refreshes st !! p); [|exact H].
  apply foldl_resume_caught; assumption.
Qed.

(** A call in its [catch] block moves with its own [StoreDone] only. *)
Lemma step_caught st ev r cfg pc0 :
  calls st !! r = Some (mkCall cfg pc0) ->
  pc0 = AwaitDeleteAuth \/ pc0 = AwaitDeleteRefresh ->
  ev <> StoreDone r ->
  calls (ApiClient.step lib platform replacePatterns st ev) !! r = Some (mkCall cfg pc0).
Proof.
  intros H Hpc Hev.
  assert (Hp : is_await pc0 = false) by (destruct Hpc as [-> | ->]; reflexivity).
  destruct ev as [r' c|r' reply|p|p reply|r'].
  - destruct (decide (r' = r)) as [->|Hne].
    + cbn [ApiClient.step]. unfold dispatch. rewrite H.
      destruct Hpc as [-> | ->]; exact H.
    + rewrite (proj1 (step_of_other_call lib platform replacePatterns st (Dispatch r' c) r Hne)).
      exact H.
  - destruct (decide (r' = r)) as [->|Hne].
    + cbn [ApiClient.step]. unfold respond. rewrite H.
      destruct Hpc as [-> | ->]; exact H.
    + rewrite (proj1 (step_of_other_call lib platform replacePatterns st (Respond r' reply) r
                        Hne)).
      exact H.
  - cbn [ApiClient.step]. unfold refreshResume.
    destruct (refreshes st !! p) as [[t ws]|]; [|exact H]. destruct t; try exact H.
    + destruct (SecureStorage.getItem lib platform "refresh_token" (secureStore st))
        as [[v|e] store'].
      * destruct (truthy v); [exact H|]. apply settle_refresh_caught; [exact H|exact Hp].
      * apply settle_refresh_caught; [exact H|exact Hp].
    + destruct (SecureStorage.setItem lib platform "auth_token" token (secureStore st))
        as [[u|e] store']; (apply settle_refresh_caught; [exact H|exact Hp]).
  - cbn [ApiClient.step]. unfold refreshResponse.
    destruct (refreshes st !! p) as [[t ws]|]; [|exact H]. destruct t; try exact H.
    destruct reply; [exact H|]. apply settle_refresh_caught; [exact H|exact Hp].
  - rewrite storeDone_other by congruence. exact H.
Qed.

Lemma run_caught evs r cfg pc0 :
  forall st,
  calls st !! r = Some (mkCall cfg pc0) ->
  pc0 = AwaitDeleteAuth \/ pc0 = AwaitDeleteRefresh ->
  besides_catch_of r evs ->
  calls (ApiClient.run lib platform replacePatterns st evs) !! r = Some (mkCall cfg pc0).
Proof.
  induction evs as [|ev evs IH]; intros st H Hpc Hevs; [exact H|].
  rewrite run_cons. apply Forall_cons in Hevs as [Hev Hevs].
  apply IH; [|exact Hpc|exact Hevs]. apply step_caught; assumption.
Qed.

(** Which removals the platform rejects is no matter of the client. *)
Lemma getItem_removal_rejected key store :
  removal_rejected (snd (SecureStorage.getItem lib platform key store)) =
  removal_rejected store.
Proof.
  unfold SecureStorage.getItem. destruct (negb (is_web (OS store))); [reflexivity|].
  destruct (negb (truthy _)); [reflexivity|].
  destruct (Encryption.decrypt _ _ _ _) as [x c]. reflexivity.
Qed.

Lemma setItem_removal_rejected key value store :
  removal_rejected (snd (SecureStorage.setItem lib platform key value store)) =
  removal_rejected store.
Proof.
  unfold SecureStorage.setItem. destruct (negb (is_web (OS store))); [reflexivity|].
  destruct (Encryption.encrypt _ _ _ _) as [[x|e] c]; reflexivity.
Qed.

Lemma requestInterceptor_removal_rejected isConnected cfg store :
  removal_rejected (snd (requestInterceptor lib platform isConnected cfg store)) =
  removal_rejected store.
Proof.
  unfold requestInterceptor. destruct (negb isConnected); [reflexivity|].
  pose proof (getItem_removal_rejected "auth_token" store) as H1.
  destruct (SecureStorage.getItem lib platform "auth_token" store) as [tokenR store1].
  cbn [snd] in H1.
  destruct (headers _); [|exact H1]. destruct (environment _); [|exact H1].
  pose proof (getItem_removal_rejected "user_id" store1) as H2.
  destruct (SecureStorage.getItem lib platform "user_id" store1) as [[userId|err] store2];
    cbn [snd] in H2; [destruct (truthy userId)|]; cbn [snd]; congruence.
Qed.

Lemma step_removal_rejected st ev :
  removal_rejected (secureStore (ApiClient.step lib platform replacePatterns st ev)) =
  removal_rejected (secureStore st).
Proof.
  destruct ev as [r c|r reply|p|p reply|r]; cbn [ApiClient.step].
  - unfold dispatch. destruct (calls st !! r) as [[cfg []]|]; try reflexivity.
    pose proof (requestInterceptor_removal_rejected c cfg (secureStore st)) as Hst.
    destruct (requestInterceptor lib platform c cfg (secureStore st)) as [[cfg'|e] store'];
      cbn [snd] in Hst; [exact Hst|].
    rewrite responseRejected_store. exact Hst.
  - unfold respond. destruct (calls st !! r) as [[cfg []]|]; try reflexivity.
    destruct reply; try reflexivity; rewrite responseRejected_store; reflexivity.
  - unfold refreshResume. destruct (refreshes st !! p) as [[t ws]|]; [|reflexivity].
    destruct t; try reflexivity.
    + pose proof (getItem_removal_rejected "refresh_token" (secureStore st)) as G.
      destruct (SecureStorage.getItem lib platform "refresh_token" (secureStore st))
        as [[v|e] store']; cbn [snd] in G.
      * destruct (truthy v); [exact G|]. rewrite settle_refresh_secureStore. exact G.
      * rewrite settle_refresh_secureStore. exact G.
    + pose proof (setItem_removal_rejected "auth_token" token (secureStore st)) as G.
      destruct (SecureStorage.setItem lib platform "auth_token" token (secureStore st))
        as [[u|e] store']; cbn [snd] in G; rewrite settle_refresh_secureStore; exact G.
  - unfold refreshResponse. destruct (refreshes st !! p) as [[t ws]|]; [|reflexivity].
    destruct t; try reflexivity. destruct reply; [reflexivity|].
    rewrite settle_refresh_secureStore. reflexivity.
  - unfold storeDone. destruct (calls st !! r) as [[cfg []]|]; try reflexivity.
    + pose proof (deleteItem_removal_rejected "auth_token" (secureStore st)) as D.
      destruct (SecureStorage.deleteItem "auth_token" (secureStore st)) as [[u|e] store'];
        exact D.
    + pose proof (deleteItem_removal_rejected "refresh_token" (secureStore st)) as D.
      destruct (SecureStorage.deleteItem "refresh_token" (secureStore st)) as [[u|e] store'];
        exact D.
Qed.

Lemma run_removal_rejected evs :
  forall st,
  removal_rejected (secureStore (ApiClient.run lib platform replacePatterns st evs)) =
  removal_rejected (secureStore st).
Proof.
  induction evs as [|ev evs IH]; intros st; [reflexivity|].
  rewrite run_cons, IH. apply step_removal_rejected.
Qed.

Lemma run_without_refresh_token evs :
  forall st,
  stored "refresh_token" (secureStore st) = None ->
  stored "refresh_token"
    (secureStore (ApiClient.run lib platform replacePatterns st evs)) = None.
Proof.
  induction evs as [|ev evs IH]; intros st H; [exact H|].
  rewrite run_cons. apply IH, step_without_refresh_token, H.
Qed.

(** The access token is written by [refreshToken()] only. *)
Lemma step_without_auth_token st ev :
  (forall p, ev <> RefreshResume p) ->
  stored "auth_token" (secureStore st) = None ->
  stored "auth_token" (secureStore (ApiClient.step lib platform replacePatterns st ev)) = None.
Proof.
  intros Hev H. destruct ev as [r c|r reply|p|p reply|r].
  - apply (step_of_other_call lib platform replacePatterns st (Dispatch r c) (S r));
      [cbn; lia|exact H].
  - apply (step_of_other_call lib platform replacePatterns st (Respond r reply) (S r));
      [cbn; lia|exact H].
  - destruct (Hev p eq_refl).
  - cbn [ApiClient.step]. unfold refreshResponse.
    destruct (refreshes st !! p) as [[t ws]|]; [|exact H]. destruct t; try exact H.
    destruct reply; [exact H|]. rewrite settle_refresh_secureStore. exact H.
  - apply storeDone_keeps_absent, H.
Qed.

Lemma run_without_auth_token evs :
  forall st,
  Forall (fun ev => forall p, ev <> RefreshResume p) evs ->
  stored "auth_token" (secureStore st) = None ->
  stored "auth_token" (secureStore (ApiClient.run lib platform replacePatterns st evs)) = None.
Proof.
  induction evs as [|ev evs IH]; intros st Hevs H; [exact H|].
  rewrite run_cons. apply Forall_cons in Hevs as [Hev Hevs].
  apply IH; [exact Hevs|]. apply step_without_auth_token; assumption.
Qed.

(** The [catch] block of call [r], whatever happens between its steps: once
    [r] has caught the failure of its refresh, its next step removes the
    access token or ends the call with the error of the removal; its step
    after that removes the refresh token, which stays absent, and ends the
    call with [AUTH_REQUIRED] or with the error of the removal; the [finally]
    block runs whenever the call ends. *)
Lemma catch_block_first st r cfg evs :
  calls st !! r = Some (mkCall cfg AwaitDeleteAuth) ->
  besides_catch_of r evs ->
  let st0 := ApiClient.run lib platform replacePatterns st evs in
  let st1 := ApiClient.step lib platform replacePatterns st0 (StoreDone r) in
  (removal_rejected (secureStore st) (KEY_PREFIX ++ "auth_token") = false ->
   calls st1 !! r = Some (mkCall cfg AwaitDeleteRefresh) /\
   stored "auth_token" (secureStore st1) = None /\
   isRefreshingToken st1 = isRefreshingToken st0 /\
   tokenRefreshPromise st1 = tokenRefreshPromise st0) /\
  (removal_rejected (secureStore st) (KEY_PREFIX ++ "auth_token") = true ->
   calls st1 !! r = Some (mkCall cfg (Settled (Throw (removal_failure "auth_token")))) /\
   secureStore st1 = secureStore st0 /\
   isRefreshingToken st1 = false /\ tokenRefreshPromise st1 = None).
Proof.
  intros Hc Hevs st0 st1.
  assert (C0 : calls st0 !! r = Some (mkCall cfg AwaitDeleteAuth))
    by (apply run_caught; auto).
  assert (R0 : removal_rejected (secureStore st0) = removal_rejected (secureStore st))
    by apply run_removal_rejected.
  split; intros Hr; rewrite <- R0 in Hr; subst st1.
  - rewrite (storeDone_auth lib platform replacePatterns st0 r cfg C0 Hr). fields.
    split; [apply lookup_insert_eq|]. split; [|split; reflexivity].
    apply deleteItem_accepted, Hr.
  - rewrite (storeDone_auth_rejected lib platform replacePatterns st0 r cfg C0 Hr). fields.
    split; [apply lookup_insert_eq|]. split; [|split; reflexivity].
    reflexivity.
Qed.

Lemma catch_block_second st r cfg evs :
  calls st !! r = Some (mkCall cfg AwaitDeleteRefresh) ->
  besides_catch_of r evs ->
  let st0 := ApiClient.run lib platform replacePatterns st evs in
  let st1 := ApiClient.step lib platform replacePatterns st0 (StoreDone r) in
  isRefreshingToken st1 = false /\ tokenRefreshPromise st1 = None /\
  (removal_rejected (secureStore st) (KEY_PREFIX ++ "refresh_token") = false ->
   calls st1 !! r = Some (mkCall cfg (Settled (Throw (Rejection AUTH_REQUIRED)))) /\
   stored "refresh_token" (secureStore st1) = None /\
   (stored "auth_token" (secureStore st0) = None ->
    stored "auth_token" (secureStore st1) = None)) /\
  (removal_rejected (secureStore st) (KEY_PREFIX ++ "refresh_token") = true ->
   calls st1 !! r = Some (mkCall cfg (Settled (Throw (removal_failure "refresh_token")))) /\
   secureStore st1 = secureStore st0).
Proof.
  intros Hc Hevs st0 st1.
  assert (C0 : calls st0 !! r = Some (mkCall cfg AwaitDeleteRefresh))
    by (apply run_caught; auto).
  assert (R0 : removal_rejected (secureStore st0) = removal_rejected (secureStore st))
    by apply run_removal_rejected.
  rewrite <- R0. subst st1.
  destruct (removal_rejected (secureStore st0) (KEY_PREFIX ++ "refresh_token")) eqn:Hr.
  - rewrite (storeDone_refresh_rejected lib platform replacePatterns st0 r cfg C0 Hr). fields.
    split; [reflexivity|]. split; [reflexivity|]. split; [discriminate|].
    intros _. split; [apply lookup_insert_eq|reflexivity].
  - rewrite (storeDone_refresh lib platform replacePatterns st0 r cfg C0 Hr). fields.
    split; [reflexivity|]. split; [reflexivity|]. split; [|discriminate].
    intros _. split; [apply lookup_insert_eq|]. split.
    + apply deleteItem_accepted, Hr.
    + apply deleteItem_keeps_absent.
Qed.

Lemma run_catch_block st r evs1 evs2 :
  ApiClient.run lib platform replacePatterns st
    (evs1 ++ StoreDone r :: evs2 ++ [StoreDone r]) =
  ApiClient.step lib platform replacePatterns
    (ApiClient.run lib platform replacePatterns
       (ApiClient.step lib platform replacePatterns
          (ApiClient.run lib platform replacePatterns st evs1) (StoreDone r)) evs2)
    (StoreDone r).
Proof. rewrite run_middle, run_app, run_cons, run_nil. reflexivity. Qed.

Lemma catch_block st r cfg evs1 evs2 :
  calls st !! r = Some (mkCall cfg AwaitDeleteAuth) ->
  besides_catch_of r evs1 -> besides_catch_of r evs2 ->
  let st2 := ApiClient.run lib platform replacePatterns st
               (evs1 ++ StoreDone r :: evs2 ++ [StoreDone r]) in
  (removals_accepted (secureStore st) ->
   calls st2 !! r = Some (mkCall cfg (Settled (Throw (Rejection AUTH_REQUIRED)))) /\
   stored "refresh_token" (secureStore st2) = None /\
   (Forall (fun ev => forall p, ev <> RefreshResume p) evs2 ->
    stored "auth_token" (secureStore st2) = None) /\
   isRefreshingToken st2 = false /\ tokenRefreshPromise st2 = None) /\
  (removal_rejected (secureStore st) (KEY_PREFIX ++ "auth_token") = true ->
   calls st2 !! r = Some (mkCall cfg (Settled (Throw (removal_failure "auth_token"))))) /\
  (removal_rejected (secureStore st) (KEY_PREFIX ++ "auth_token") = false ->
   removal_rejected (secureStore st) (KEY_PREFIX ++ "refresh_token") = true ->
   calls st2 !! r = Some (mkCall cfg (Settled (Throw (removal_failure "refresh_token")))) /\
   isRefreshingToken st2 = false /\ tokenRefreshPromise st2 = None).
Proof.
  intros Hc H1 H2 st2. subst st2. rewrite run_catch_block.
  destruct (catch_block_first st r cfg evs1 Hc H1) as [Fa Fr].
  set (stB := ApiClient.step lib platform replacePatterns
                (ApiClient.run lib platform replacePatterns st evs1) (StoreDone r)) in *.
  assert (RB : removal_rejected (secureStore stB) = removal_rejected (secureStore st)).
  { subst stB. rewrite step_removal_rejected. apply run_removal_rejected. }
  split; [|split].
  - intros [Ha Hr]. destruct (Fa Ha) as (CB & SB & _).
    destruct (catch_block_second stB r cfg evs2 CB H2) as (F & P & Sa & _).
    rewrite RB in Sa. destruct (Sa Hr) as (C2 & S2 & A2).
    split; [exact C2|]. split; [exact S2|]. split; [|split; assumption].
    intros Hev. apply A2. apply run_without_auth_token; assumption.
  - intros Ha. destruct (Fr Ha) as (CB & _).
    pose proof (run_lifecycle lib platform replacePatterns (evs2 ++ [StoreDone r]) r stB) as L.
    rewrite run_app, run_cons, run_nil in L.
    exact (lifecycle_settled _ _ _ _ _ L CB).
  - intros Ha Hr. destruct (Fa Ha) as (CB & _).
    destruct (catch_block_second stB r cfg evs2 CB H2) as (F & P & _ & Sr).
    rewrite RB in Sr. destruct (Sr Hr) as (C2 & _).
    split; [exact C2|]. split; assumption.
Qed.

(** A 401 that arrives while the promise variable holds a rejected
    promise. *)
Lemma respond_joins_rejected st r cfg response p e ws :
  calls st !! r = Some (mkCall cfg InFlight) ->
  _retry cfg = false -> resp_status response = 401 ->
  isRefreshingToken st = true -> tokenRefreshPromise st = Some p ->
  refreshes st !! p = Some (mkRefresh (Rejected e) ws) ->
  ApiClient.step lib platform replacePatterns st (Respond r (Failure response)) =
  set_call r (mkCall (set_retry cfg) AwaitDeleteAuth)
    (set_call r (mkCall (set_retry cfg) (AwaitFollower p)) st).
Proof.
  intros Hc Hr H401 Hf Hp Hq. cbn [ApiClient.step]. unfold respond. rewrite Hc.
  unfold responseRejected. rewrite H401, Hr, Hf, Hp. cbn [Z.eqb Pos.eqb negb andb].
  unfold await_follower. rewrite Hq. cbn [task outcome_of].
  unfold resume. fields. rewrite lookup_insert_eq. reflexivity.
Qed.

(** The failure of a refresh puts the calls that wait for it into their
    [catch] blocks. *)
Lemma refresh_fails_caught st ev p t r cfg pc0 :
  refresh_fails lib platform st ev p ->
  refreshes st !! p = Some t -> r ∈ waiters t ->
  calls st !! r = Some (mkCall cfg pc0) -> is_await pc0 = true ->
  calls (ApiClient.step lib platform replacePatterns st ev) !! r =
    Some (mkCall cfg AwaitDeleteAuth).
Proof.
  intros Hf Ht Hr Hc Hp.
  destruct (refresh_fails_settles lib platform replacePatterns _ _ _ _ Hf Ht)
    as (e & store' & ->).
  unfold settle_refresh. cbn [refreshes set_store]. rewrite Ht.
  apply foldl_resume_Throw_call. right. split; [exact Hr|]. exists pc0. auto.
Qed.

(** What [Promise.reject(handleApiError(error))] rejects with when the
    error carries a response. *)
Lemma rejection_response_textual cfg response request axios_code :
  textual response ->
  exists a,
    ErrorHandlers.rejection replacePatterns (AxiosError cfg (Some response) request axios_code)
      = Rejection a /\
    status a = resp_status response.
Proof.
  intros Ht.
  destruct (handleApiError_response_textual replacePatterns cfg response request axios_code Ht)
    as [a Ha].
  exists a. unfold ErrorHandlers.rejection. rewrite Ha. split; [reflexivity|].
  apply (handleApiError_response_status replacePatterns cfg response request axios_code a Ha).
Qed.

Lemma rejection_response_not_text cfg response request axios_code data :
  resp_data response = Some data -> rd_message data = MessageOther ->
  ErrorHandlers.rejection replacePatterns (AxiosError cfg (Some response) request axios_code)
    = not_a_function.
Proof.
  intros D M. unfold ErrorHandlers.rejection.
  rewrite (handleApiError_response_not_text replacePatterns cfg response request axios_code
             data D M).
  reflexivity.
Qed.

End WithLibraries.

(** X18.  The two module-level variables agree in every state the client
    can reach: [isRefreshingToken] is set exactly when [tokenRefreshPromise]
    holds a promise, and that promise is one that a call of [refreshToken()]
    returned.  (So line 81 never awaits [null].) *)
Theorem gate_consistent (lib : Encryption.CryptoJS) (platform : Encryption.Platform)
    (replacePatterns : string -> string) (st : State) (evs : list Event) :
  Consistent st -> Consistent (ApiClient.run lib platform replacePatterns st evs).
Proof.
  revert st. induction evs as [|ev evs IH]; intros st H; [exact H|].
  rewrite run_cons. apply IH, consistent_step, H.
Qed.

Lemma gate_consistent_witness :
  Consistent
    (Fixture.run (Fixture.fourInFlight Fixture.nativeStore)
       [Respond 0 (Failure Fixture.unauthorized); Respond 1 (Failure Fixture.unauthorized);
        RefreshResume 0; RefreshResponse 0 (PostData "fresh"); RefreshResume 0;
        Respond 2 (Failure Fixture.unauthorized)]) /\
  tokenRefreshPromise
    (Fixture.run (Fixture.fourInFlight Fixture.nativeStore)
       [Respond 0 (Failure Fixture.unauthorized); Respond 1 (Failure Fixture.unauthorized);
        RefreshResume 0; RefreshResponse 0 (PostData "fresh"); RefreshResume 0;
        Respond 2 (Failure Fixture.unauthorized)]) = Some 1%nat.
Proof.
  split; [|vm_compute; reflexivity].
  apply (gate_consistent Fixture.cryptoJS Fixture.platform Fixture.replacePatterns).
  split.
  - cbn. split; [discriminate|]. intros [x Hx]. discriminate.
  - cbn. discriminate.
  - cbn. intros p [x Hx]. rewrite lookup_empty in Hx. discriminate.
Defined.

(** X19.  The client never writes a refresh token: when none is stored,
    none is stored after any schedule, and no request is made to the refresh
    endpoint (every refresh throws before its POST). *)
Theorem refresh_token_never_written (lib : Encryption.CryptoJS)
    (platform : Encryption.Platform) (replacePatterns : string -> string)
    (st : State) (evs : list Event) :
  stored "refresh_token" (secureStore st) = None ->
  let st' := ApiClient.run lib platform replacePatterns st evs in
  stored "refresh_token" (secureStore st') = None /\
  refreshPosts st' = refreshPosts st.
Proof.
  revert st. induction evs as [|ev evs IH]; intros st H; [split; [exact H|reflexivity]|].
  cbv zeta. rewrite run_cons.
  destruct (step_without_refresh_token lib platform replacePatterns st ev H) as [H1 H2].
  destruct (IH _ H1) as [H3 H4]. split; [exact H3|congruence].
Qed.

Lemma refresh_token_never_written_witness :
  let st' := Fixture.run (Fixture.fourInFlight Fixture.emptyStore)
               [Respond 0 (Failure Fixture.unauthorized);
                Respond 1 (Failure Fixture.unauthorized); RefreshResume 0;
                StoreDone 0; StoreDone 0; Respond 2 (Failure Fixture.unauthorized);
                RefreshResume 1] in
  stored "refresh_token" (secureStore st') = None /\ refreshPosts st' = 0%nat.
Proof.
  apply (refresh_token_never_written Fixture.cryptoJS Fixture.platform
           Fixture.replacePatterns (Fixture.fourInFlight Fixture.emptyStore)).
  reflexivity.
Defined.

(** *** Failures that are no expired token *)



(** *** A 401 that arrives while [catch] blocks run *)

(** X21.  After a refresh has failed and until the first [finally] block
    has run, the flag is still set and the promise variable holds the rejected
    promise: a call that receives its 401 then awaits that promise and falls
    into the [catch] block at once, without a refresh of its own.  Whatever
    the other calls and refreshes do between its steps, it is rejected with
    [AUTH_REQUIRED] after its two removals when the platform accepts them
    (the refresh token is absent then, and the access token too unless a
    call of [refreshToken()] ran in between), and with the error of the
    removal that the platform rejected otherwise. *)
Theorem late_401_joins_failed_refresh (lib : Encryption.CryptoJS)
    (platform : Encryption.Platform) (replacePatterns : string -> string)
    (st : State) (r : nat) (cfg : AxiosRequestConfig) (response : AxiosResponse)
    (p : nat) (e : JsError) (ws : list nat) (evs1 evs2 : list Event) :
  calls st !! r = Some (mkCall cfg InFlight) ->
  _retry cfg = false -> resp_status response = 401 ->
  isRefreshingToken st = true -> tokenRefreshPromise st = Some p ->
  refreshes st !! p = Some (mkRefresh (Rejected e) ws) ->
  besides_catch_of r evs1 -> besides_catch_of r evs2 ->
  let st1 := ApiClient.step lib platform replacePatterns st (Respond r (Failure response)) in
  let st2 := ApiClient.run lib platform replacePatterns st1
               (evs1 ++ StoreDone r :: evs2 ++ [StoreDone r]) in
  calls st1 !! r = Some (mkCall (set_retry cfg) AwaitDeleteAuth) /\
  nextPromise st1 = nextPromise st /\ refreshes st1 = refreshes st /\
  refreshPosts st1 = refreshPosts st /\
  (removals_accepted (secureStore st) ->
   calls st2 !! r =
     Some (mkCall (set_retry cfg) (Settled (Throw (Rejection AUTH_REQUIRED)))) /\
   stored "refresh_token" (secureStore st2) = None /\
   (Forall (fun ev => forall q, ev <> RefreshResume q) evs2 ->
    stored "auth_token" (secureStore st2) = None)) /\
  (removal_rejected (secureStore st) (KEY_PREFIX ++ "auth_token") = true ->
   calls st2 !! r =
     Some (mkCall (set_retry cfg) (Settled (Throw (removal_failure "auth_token"))))) /\
  (removal_rejected (secureStore st) (KEY_PREFIX ++ "auth_token") = false ->
   removal_rejected (secureStore st) (KEY_PREFIX ++ "refresh_token") = true ->
   calls st2 !! r =
     Some (mkCall (set_retry cfg) (Settled (Throw (removal_failure "refresh_token"))))).
Proof.
  intros Hc Hr H401 Hf Hp Hq H1 H2 st1 st2.
  assert (E1 : st1 = set_call r (mkCall (set_retry cfg) AwaitDeleteAuth)
                       (set_call r (mkCall (set_retry cfg) (AwaitFollower p)) st)).
  { subst st1. cbn [ApiClient.step]. unfold respond. rewrite Hc.
    unfold responseRejected. rewrite H401, Hr, Hf, Hp. cbn [Z.eqb Pos.eqb negb andb].
    unfold await_follower. rewrite Hq. cbn [task outcome_of].
    unfold resume. fields. rewrite lookup_insert_eq. reflexivity. }
  assert (C1 : calls st1 !! r = Some (mkCall (set_retry cfg) AwaitDeleteAuth)).
  { rewrite E1. fields. apply lookup_insert_eq. }
  assert (S1 : secureStore st1 = secureStore st) by (rewrite E1; reflexivity).
  split; [exact C1|].
  split; [rewrite E1; reflexivity|]. split; [rewrite E1; reflexivity|].
  split; [rewrite E1; reflexivity|].
  destruct (catch_block lib platform replacePatterns st1 r (set_retry cfg) evs1 evs2 C1 H1 H2)
    as (A & B & C).
  rewrite S1 in A, B, C. split; [|split].
  - intros Ha. destruct (A Ha) as (A1 & A2 & A3 & _). auto.
  - exact B.
  - intros Ha Hb. apply (C Ha Hb).
Qed.

Lemma late_401_joins_failed_refresh_witness :
  let st := Fixture.run (Fixture.fourInFlight Fixture.emptyStore)
              [Respond 0 (Failure Fixture.unauthorized); RefreshResume 0] in
  let st1 := Fixture.step st (Respond 1 (Failure Fixture.unauthorized)) in
  let st2 := Fixture.run st1 ([StoreDone 0] ++ StoreDone 1 :: [StoreDone 0] ++ [StoreDone 1]) in
  calls st1 !! 1%nat = Some (mkCall (set_retry Fixture.getPatients) AwaitDeleteAuth) /\
  nextPromise st1 = nextPromise st /\ refreshes st1 = refreshes st /\
  refreshPosts st1 = refreshPosts st /\
  calls st2 !! 1%nat =
    Some (mkCall (set_retry Fixture.getPatients)
            (Settled (Throw (Rejection AUTH_REQUIRED)))) /\
  stored "refresh_token" (secureStore st2) = None /\
  stored "auth_token" (secureStore st2) = None.
Proof.
  destruct (late_401_joins_failed_refresh Fixture.cryptoJS Fixture.platform
              Fixture.replacePatterns
              (Fixture.run (Fixture.fourInFlight Fixture.emptyStore)
                 [Respond 0 (Failure Fixture.unauthorized); RefreshResume 0])
              1 Fixture.getPatients Fixture.unauthorized 0
              (Error "No refresh token available") [] [StoreDone 0] [StoreDone 0])
    as (A & B & C & D & E & _).
  - vm_compute. reflexivity.
  - reflexivity.
  - reflexivity.
  - vm_compute. reflexivity.
  - vm_compute. reflexivity.
  - vm_compute. reflexivity.
  - repeat constructor; discriminate.
  - repeat constructor; discriminate.
  - destruct E as (E1 & E2 & E3); [split; vm_compute; reflexivity|].
    split; [exact A|]. split; [exact B|]. split; [exact C|]. split; [exact D|].
    split; [exact E1|]. split; [exact E2|].
    apply E3. repeat constructor. intros q H. discriminate H.
Defined.

(** X22.  The [finally] block of a call whose refresh failed clears the
    gate of whatever refresh is pending by then: when that call finishes its
    [catch] block while a newer refresh [p] is pending, the next 401 does not
    join [p] but starts another call of [refreshToken()], and the two
    refreshes are pending together. *)
Theorem stale_finally_reopens_gate (lib : Encryption.CryptoJS)
    (platform : Encryption.Platform) (replacePatterns : string -> string)
    (st : State) (r r2 p : nat) (cfg cfg2 : AxiosRequestConfig) (t : Refresh)
    (response : AxiosResponse) :
  calls st !! r = Some (mkCall cfg AwaitDeleteRefresh) ->
  isRefreshingToken st = true -> tokenRefreshPromise st = Some p ->
  refreshes st !! p = Some t -> outcome_of (task t) = None ->
  (p < nextPromise st)%nat ->
  r2 <> r -> calls st !! r2 = Some (mkCall cfg2 InFlight) ->
  _retry cfg2 = false -> resp_status response = 401 ->
  let st' := ApiClient.run lib platform replacePatterns st
               [StoreDone r; Respond r2 (Failure response)] in
  refreshes st' !! p = Some t /\
  refreshes st' !! nextPromise st = Some (mkRefresh AwaitGetItem [r2]) /\
  tokenRefreshPromise st' = Some (nextPromise st) /\
  nextPromise st' = S (nextPromise st) /\
  calls st' !! r2 = Some (mkCall (set_retry cfg2) (AwaitLeader (nextPromise st))).
Proof.
  intros Hc Hf Hp Ht Ho Hlt Hne Hc2 Hr H401 st'. subst st'.
  rewrite run_cons, run_cons, run_nil.
  destruct (removal_rejected (secureStore st) (KEY_PREFIX ++ "refresh_token")) eqn:R;
    [rewrite (storeDone_refresh_rejected lib platform replacePatterns st r cfg Hc R)
    |rewrite (storeDone_refresh lib platform replacePatterns st r cfg Hc R)];
  set (st1 := finally _);
  (assert (C2 : calls st1 !! r2 = Some (mkCall cfg2 InFlight))
     by (subst st1; fields; rewrite lookup_insert_ne by congruence; exact Hc2));
  rewrite (respond_leader lib platform replacePatterns st1 r2 cfg2 response C2 H401 Hr eq_refl);
  subst st1; fields;
  (split; [rewrite lookup_insert_ne by lia; exact Ht|]);
  (split; [apply lookup_insert_eq|]); (split; [reflexivity|]); (split; [reflexivity|]);
  apply lookup_insert_eq.
Qed.
Lemma stale_finally_reopens_gate_witness :
  let st := Fixture.run (Fixture.fourInFlight Fixture.emptyStore)
              [Respond 0 (Failure Fixture.unauthorized);
               Respond 1 (Failure Fixture.unauthorized); RefreshResume 0;
               StoreDone 0; StoreDone 0; Respond 2 (Failure Fixture.unauthorized);
               StoreDone 1] in
  let st' := Fixture.run st [StoreDone 1; Respond 3 (Failure Fixture.unauthorized)] in
  refreshes st' !! 1%nat = Some (mkRefresh AwaitGetItem [2%nat]) /\
  refreshes st' !! nextPromise st = Some (mkRefresh AwaitGetItem [3%nat]) /\
  tokenRefreshPromise st' = Some (nextPromise st) /\
  nextPromise st' = S (nextPromise st) /\
  calls st' !! 3%nat =
    Some (mkCall (set_retry Fixture.getPatients) (AwaitLeader (nextPromise st))).
Proof.
  apply (stale_finally_reopens_gate Fixture.cryptoJS Fixture.platform
           Fixture.replacePatterns
           (Fixture.run (Fixture.fourInFlight Fixture.emptyStore)
              [Respond 0 (Failure Fixture.unauthorized);
               Respond 1 (Failure Fixture.unauthorized); RefreshResume 0;
               StoreDone 0; StoreDone 0; Respond 2 (Failure Fixture.unauthorized);
               StoreDone 1])
           1 3 1 (set_retry Fixture.getPatients) Fixture.getPatients
           (mkRefresh AwaitGetItem [2%nat]) Fixture.unauthorized).
  - vm_compute. reflexivity.
  - vm_compute. reflexivity.
  - vm_compute. reflexivity.
  - vm_compute. reflexivity.
  - reflexivity.
  - vm_compute. lia.
  - lia.
  - vm_compute. reflexivity.
  - reflexivity.
  - reflexivity.
Defined.

(** *** The headers of a dispatched request *)

Lemma requestInterceptor_headers (lib : Encryption.CryptoJS) (platform : Encryption.Platform)
    cfg hs env store token userId :
  headers cfg = Some hs -> environment cfg = Some env ->
  fst (SecureStorage.getItem lib platform "auth_token" store) = Ok token ->
  fst (SecureStorage.getItem lib platform "user_id"
         (snd (SecureStorage.getItem lib platform "auth_token" store))) = Ok userId ->
  exists cfg' hs',
    fst (requestInterceptor lib platform true cfg store) = Ok cfg' /\
    headers cfg' = Some hs' /\ url cfg' = url cfg /\ _retry cfg' = _retry cfg /\
    hs' !! "Authorization" =
      (if truthy token then Some ("Bearer " ++ default "" token) else hs !! "Authorization") /\
    hs' !! "X-App-Version" = Some (version env) /\
    hs' !! "X-User-ID" =
      (if truthy userId then Some (default "" userId) else hs !! "X-User-ID") /\
    forall k, k <> "Authorization" -> k <> "X-App-Version" -> k <> "X-User-ID" ->
              hs' !! k = hs !! k.
Proof.
  intros Hh He Ht Hu. unfold requestInterceptor. cbn [negb].
  destruct (SecureStorage.getItem lib platform "auth_token" store) as [tokenR store1].
  cbn [fst snd] in Ht, Hu. subst tokenR.
  destruct (SecureStorage.getItem lib platform "user_id" store1) as [userIdR store2].
  cbn [fst] in Hu. subst userIdR.
  unfold set_header. cbn [headers environment url _retry]. rewrite Hh.
  destruct (truthy token), (truthy userId);
    cbn [headers environment url _retry fmap option_fmap option_map]; rewrite ?Hh, ?He;
    cbn [headers environment url _retry fmap option_fmap option_map fst];
    eexists; eexists; (split; [reflexivity|]);
    cbn [headers url _retry fmap option_fmap option_map];
    (split; [reflexivity|]); (split; [reflexivity|]); (split; [reflexivity|]);
    (split; [|split; [|split]]);
    try (intros k K1 K2 K3);
    repeat first [rewrite lookup_insert_eq | rewrite lookup_insert_ne by congruence];
    reflexivity.
Qed.

(** X23.  What the request interceptor attaches to a request that has
    headers and an [environment] property: [Authorization] with the stored
    access token when there is one (the caller's header is kept otherwise),
    [X-App-Version] with the version of the request's own [environment], and
    [X-User-ID] with the stored user id when there is one; every other header,
    the URL and the [_retry] flag are as the caller gave them. *)
Theorem request_headers (lib : Encryption.CryptoJS) (platform : Encryption.Platform)
    (cfg : AxiosRequestConfig) (hs : gmap string string) (env : Environment)
    (store : SecureStorage.State) :
  headers cfg = Some hs -> environment cfg = Some env ->
  exists token userId cfg' hs',
    fst (SecureStorage.getItem lib platform "auth_token" store) = Ok token /\
    fst (SecureStorage.getItem lib platform "user_id"
           (snd (SecureStorage.getItem lib platform "auth_token" store))) = Ok userId /\
    fst (requestInterceptor lib platform true cfg store) = Ok cfg' /\
    headers cfg' = Some hs' /\ url cfg' = url cfg /\ _retry cfg' = _retry cfg /\
    hs' !! "Authorization" =
      (if truthy token then Some ("Bearer " ++ default "" token) else hs !! "Authorization") /\
    hs' !! "X-App-Version" = Some (version env) /\
    hs' !! "X-User-ID" =
      (if truthy userId then Some (default "" userId) else hs !! "X-User-ID") /\
    forall k, k <> "Authorization" -> k <> "X-App-Version" -> k <> "X-User-ID" ->
              hs' !! k = hs !! k.
Proof.
  intros Hh He.
  destruct (StorageFacts.getItem_total lib platform "auth_token" store) as [token Ht].
  destruct (StorageFacts.getItem_total lib platform "user_id"
              (snd (SecureStorage.getItem lib platform "auth_token" store))) as [userId Hu].
  destruct (requestInterceptor_headers lib platform cfg hs env store token userId Hh He Ht Hu)
    as (cfg' & hs' & H).
  exists token, userId, cfg', hs'. split; [exact Ht|]. split; [exact Hu|]. exact H.
Qed.

Lemma request_headers_witness :
  exists token userId cfg' hs',
    fst (SecureStorage.getItem Fixture.cryptoJS Fixture.platform "auth_token"
           Fixture.nativeStore) = Ok token /\
    fst (SecureStorage.getItem Fixture.cryptoJS Fixture.platform "user_id"
           (snd (SecureStorage.getItem Fixture.cryptoJS Fixture.platform "auth_token"
                   Fixture.nativeStore))) = Ok userId /\
    fst (requestInterceptor Fixture.cryptoJS Fixture.platform true Fixture.getPatients
           Fixture.nativeStore) = Ok cfg' /\
    headers cfg' = Some hs' /\ url cfg' = url Fixture.getPatients /\
    _retry cfg' = _retry Fixture.getPatients /\
    hs' !! "Authorization" =
      (if truthy token then Some ("Bearer " ++ default "" token)
       else Fixture.defaultHeaders !! "Authorization") /\
    hs' !! "X-App-Version" = Some "1.0.0" /\
    hs' !! "X-User-ID" =
      (if truthy userId then Some (default "" userId)
       else Fixture.defaultHeaders !! "X-User-ID") /\
    forall k, k <> "Authorization" -> k <> "X-App-Version" -> k <> "X-User-ID" ->
              hs' !! k = Fixture.defaultHeaders !! k.
Proof.
  apply (request_headers Fixture.cryptoJS Fixture.platform Fixture.getPatients
           Fixture.defaultHeaders (mkEnvironment "1.0.0") Fixture.nativeStore);
    reflexivity.
Defined.



(** *** A refresh that returns the empty token *)

Lemma foldl_resume_other o ws r :
  forall st, r ∉ ws -> calls (foldl (resume o) st ws) !! r = calls st !! r.
Proof.
  induction ws as [|w ws IH]; intros st Hr; cbn [foldl]; [reflexivity|].
  rewrite IH by (intros H; apply Hr; right; exact H).
  apply resume_other. intros ->. apply Hr. left.
Qed.

Lemma foldl_restart (fs : list nat) :
  forall st,
  NoDup fs ->
  (forall f, f ∈ fs -> exists cfg q, calls st !! f = Some (mkCall cfg (AwaitFollower q))) ->
  let st' := foldl (resume (Ok "")) st fs in
  nextPromise st' = (nextPromise st + length fs)%nat /\
  refreshPosts st' = refreshPosts st /\
  forall f, f ∈ fs ->
    exists cfg q q',
      calls st !! f = Some (mkCall cfg (AwaitFollower q)) /\
      calls st' !! f = Some (mkCall cfg (AwaitLeader q')) /\
      (nextPromise st <= q' < nextPromise st')%nat.
Proof.
  induction fs as [|f fs IH]; intros st Hnd Hfs; cbn [foldl length].
  - split; [lia|]. split; [reflexivity|]. intros f Hf. inversion Hf.
  - apply NoDup_cons in Hnd as [Hf Hnd].
    destruct (Hfs f) as (cfg & q & Hc); [left|].
    assert (E : resume (Ok "") st f = start_refresh f cfg st).
    { unfold resume. rewrite Hc. reflexivity. }
    rewrite E.
    destruct (IH (start_refresh f cfg st) Hnd) as (N & P & F).
    { intros f' Hf'. fields. rewrite lookup_insert_ne by (intros ->; contradiction).
      apply Hfs. right. exact Hf'. }
    fields_in N. split; [lia|]. split; [exact P|].
    intros f' Hf'. apply elem_of_cons in Hf' as [->|Hf'].
    + exists cfg, q, (nextPromise st). split; [exact Hc|]. split; [|lia].
      rewrite foldl_resume_other by exact Hf. fields. apply lookup_insert_eq.
    + destruct (F f' Hf') as (cfg' & q1 & q2 & C1 & C2 & B).
      fields_in C1. rewrite lookup_insert_ne in C1 by (intros ->; contradiction).
      fields_in B. exists cfg', q1, q2. split; [exact C1|]. split; [exact C2|]. lia.
Qed.

(** X25.  When the refresh endpoint returns an empty token, the call that
    started the refresh is replayed with the header [Bearer ] and every call
    that had joined the refresh falls through to line 89 and starts a
    refresh of its own: [refreshToken()] is called once more for each of
    them. *)
Theorem empty_token_restarts (lib : Encryption.CryptoJS) (platform : Encryption.Platform)
    (replacePatterns : string -> string) (st : State) (p leader : nat) (fs : list nat)
    (cfg : AxiosRequestConfig) :
  refreshes st !! p = Some (mkRefresh (AwaitSetItem "") (leader :: fs)) ->
  NoDup (leader :: fs) ->
  calls st !! leader = Some (mkCall cfg (AwaitLeader p)) ->
  (forall f, f ∈ fs -> exists cfg' q, calls st !! f = Some (mkCall cfg' (AwaitFollower q))) ->
  is_ok (fst (SecureStorage.setItem lib platform "auth_token" "" (secureStore st))) = true ->
  let st' := ApiClient.step lib platform replacePatterns st (RefreshResume p) in
  nextPromise st' = (nextPromise st + length fs)%nat /\
  calls st' !! leader = Some (mkCall (set_header "Authorization" "Bearer " cfg) Queued) /\
  forall f, f ∈ fs ->
    exists cfg' q',
      calls st' !! f = Some (mkCall cfg' (AwaitLeader q')) /\
      (nextPromise st <= q' < nextPromise st')%nat.
Proof.
  intros Hp Hnd Hl Hfs Hok st'. subst st'.
  destruct (SecureStorage.setItem lib platform "auth_token" "" (secureStore st))
    as [w store'] eqn:S1.
  rewrite (refreshResume_setItem lib platform replacePatterns st p _ _ w store' Hp S1).
  cbn [fst] in Hok. destruct w as [u|e]; [|discriminate].
  unfold settle_refresh. fields. rewrite Hp. cbn [waiters foldl].
  apply NoDup_cons in Hnd as [Hlf Hnd].
  set (st2 := set_refresh p _ (set_store store' st)).
  assert (E : resume (Ok "") st2 leader =
              replay leader (set_header "Authorization" "Bearer " cfg) st2).
  { unfold resume. subst st2. fields. rewrite Hl. reflexivity. }
  rewrite E.
  destruct (foldl_restart fs
              (replay leader (set_header "Authorization" "Bearer " cfg) st2) Hnd)
    as (N & _ & F).
  { intros f Hf. subst st2. fields.
    rewrite lookup_insert_ne by (intros ->; contradiction). apply Hfs, Hf. }
  split; [exact N|]. split.
  - rewrite foldl_resume_other by exact Hlf. fields. apply lookup_insert_eq.
  - intros f Hf. destruct (F f Hf) as (cfg' & q1 & q2 & _ & C & B).
    exists cfg', q2. split; [exact C|exact B].
Qed.

Lemma empty_token_restarts_witness :
  let st := Fixture.run (Fixture.fourInFlight Fixture.nativeStore)
              [Respond 0 (Failure Fixture.unauthorized);
               Respond 1 (Failure Fixture.unauthorized);
               Respond 2 (Failure Fixture.unauthorized); RefreshResume 0;
               RefreshResponse 0 (PostData "")] in
  let st' := Fixture.step st (RefreshResume 0) in
  nextPromise st' = (nextPromise st + 2)%nat /\
  calls st' !! 0%nat =
    Some (mkCall (set_header "Authorization" "Bearer " (set_retry Fixture.getPatients))
            Queued) /\
  forall f, f ∈ [1%nat; 2%nat] ->
    exists cfg' q',
      calls st' !! f = Some (mkCall cfg' (AwaitLeader q')) /\
      (nextPromise st <= q' < nextPromise st')%nat.
Proof.
  apply (empty_token_restarts Fixture.cryptoJS Fixture.platform Fixture.replacePatterns
           (Fixture.run (Fixture.fourInFlight Fixture.nativeStore)
              [Respond 0 (Failure Fixture.unauthorized);
               Respond 1 (Failure Fixture.unauthorized);
               Respond 2 (Failure Fixture.unauthorized); RefreshResume 0;
               RefreshResponse 0 (PostData "")])
           0 0 [1%nat; 2%nat] (set_retry Fixture.getPatients)).
  - vm_compute. reflexivity.
  - repeat (apply NoDup_cons_2; [intros H; repeat (apply elem_of_cons in H as [H|H];
      [discriminate H|]); inversion H|]). apply NoDup_nil_2.
  - vm_compute. reflexivity.
  - intros f Hf. apply elem_of_cons in Hf as [->|Hf];
      [eexists; eexists; vm_compute; reflexivity|].
    apply elem_of_cons in Hf as [->|Hf]; [eexists; eexists; vm_compute; reflexivity|].
    inversion Hf.
  - vm_compute. reflexivity.
Defined.

End ClientExtras.

(** ** The API client: what the specification says of it *)

Module ClientClaims.
Import Js JsFacts SecureStorage ErrorHandlers ApiClient ClientFacts.

(** Reads a field of a state built with the setters. *)
Ltac state_fields :=
  cbn [isRefreshingToken tokenRefreshPromise refreshes nextPromise calls secureStore
       refreshPosts sent set_call set_store set_refresh count_post log_sent finally
       start_refresh replay settle_call].

(** C3 (compliance headers), where the code departs from it.  A request
    configuration that has headers and no [environment] property of its own,
    as every caller in the repository makes it, does not get the version
    header: the request interceptor throws, the call is rejected with a
    [CLIENT_ERROR], and nothing is handed to the transport. *)
Theorem version_header_not_attached (lib : Encryption.CryptoJS)
    (platform : Encryption.Platform) (replacePatterns : string -> string)
    (st : State) (r : nat) (cfg : AxiosRequestConfig) :
  calls st !! r = Some (mkCall cfg Queued) ->
  has_headers cfg = true -> environment cfg = None ->
  let st' := ApiClient.step lib platform replacePatterns st (Dispatch r true) in
  fst (requestInterceptor lib platform true cfg (secureStore st)) =
    Throw (TypeError "Cannot read properties of undefined (reading 'version')") /\
  sent st' = sent st /\
  calls st' !! r =
    Some (mkCall cfg (Settled (Throw (Rejection
      (mkApiError 500 "CLIENT_ERROR"
         (sanitizeErrorMessage replacePatterns
            "Cannot read properties of undefined (reading 'version')") None))))).
Proof.
  intros Hc Hh He st'. subst st'.
  split; [apply requestInterceptor_no_environment; assumption|].
  rewrite (dispatch_no_environment lib platform replacePatterns st r cfg Hc Hh He).
  rewrite rejection_TypeError.
  split; [reflexivity|]. state_fields. apply lookup_insert_eq.
Qed.

Lemma version_header_not_attached_witness :
  let st := Fixture.client Fixture.nativeStore [(0%nat, mkCall Fixture.getMe Queued)] in
  fst (requestInterceptor Fixture.cryptoJS Fixture.platform true Fixture.getMe
         Fixture.nativeStore) =
    Throw (TypeError "Cannot read properties of undefined (reading 'version')") /\
  sent (Fixture.step st (Dispatch 0 true)) = [] /\
  calls (Fixture.step st (Dispatch 0 true)) !! 0%nat =
    Some (mkCall Fixture.getMe (Settled (Throw (Rejection
      (mkApiError 500 "CLIENT_ERROR"
         "Cannot read properties of undefined (reading 'version')" None))))).
Proof.
  apply (version_header_not_attached Fixture.cryptoJS Fixture.platform
           Fixture.replacePatterns
           (Fixture.client Fixture.nativeStore [(0%nat, mkCall Fixture.getMe Queued)])
           0 Fixture.getMe); reflexivity.
Defined.

(** C4 (connectivity check), as the code has it.  A call made while there is
    no network is rejected by the request interceptor: nothing is handed to
    the transport, the call's [_retry] flag, the stores and the refresh state
    are untouched, and the error the caller receives has status 500 and code
    [CLIENT_ERROR]. *)
Theorem offline_fails_fast (lib : Encryption.CryptoJS) (platform : Encryption.Platform)
    (replacePatterns : string -> string) (st : State) (r : nat) (cfg : AxiosRequestConfig) :
  calls st !! r = Some (mkCall cfg Queued) ->
  let st' := ApiClient.step lib platform replacePatterns st (Dispatch r false) in
  calls st' !! r =
    Some (mkCall cfg (Settled (Throw (Rejection
      (mkApiError 500 "CLIENT_ERROR"
         (sanitizeErrorMessage replacePatterns "No network connection available") None))))) /\
  sent st' = sent st /\ secureStore st' = secureStore st /\
  refreshPosts st' = refreshPosts st /\ nextPromise st' = nextPromise st /\
  isRefreshingToken st' = isRefreshingToken st.
Proof.
  intros Hc st'. subst st'.
  rewrite (dispatch_offline lib platform replacePatterns st r cfg Hc).
  rewrite rejection_Error.
  split; [state_fields; apply lookup_insert_eq|]. repeat split; reflexivity.
Qed.

Lemma offline_fails_fast_witness :
  let st := Fixture.client Fixture.nativeStore [(0%nat, mkCall Fixture.getPatients Queued)] in
  calls (Fixture.step st (Dispatch 0 false)) !! 0%nat =
    Some (mkCall Fixture.getPatients (Settled (Throw (Rejection
      (mkApiError 500 "CLIENT_ERROR" "No network connection available" None))))) /\
  sent (Fixture.step st (Dispatch 0 false)) = [] /\
  secureStore (Fixture.step st (Dispatch 0 false)) = Fixture.nativeStore /\
  refreshPosts (Fixture.step st (Dispatch 0 false)) = 0%nat /\
  nextPromise (Fixture.step st (Dispatch 0 false)) = 0%nat /\
  isRefreshingToken (Fixture.step st (Dispatch 0 false)) = false.
Proof.
  apply (offline_fails_fast Fixture.cryptoJS Fixture.platform Fixture.replacePatterns
           (Fixture.client Fixture.nativeStore [(0%nat, mkCall Fixture.getPatients Queued)])
           0 Fixture.getPatients). reflexivity.
Defined.

(** C4 as stated does not hold: the error of a call made without network
    has the code [CLIENT_ERROR], not [NETWORK_ERROR]. *)
Lemma offline_error_kind_counterexample :
  exists e,
    calls (Fixture.step
             (Fixture.client Fixture.nativeStore [(0%nat, mkCall Fixture.getPatients Queued)])
             (Dispatch 0 false)) !! 0%nat =
      Some (mkCall Fixture.getPatients (Settled (Throw (Rejection e)))) /\
    code e = "CLIENT_ERROR" /\ code e <> "NETWORK_ERROR".
Proof.
  eexists. split; [reflexivity|]. split; [reflexivity|]. discriminate.
Qed.










(** When the endpoint returns the empty string as token, a call that waited
    for the refresh falls through to line 89 and starts a second refresh. *)
Remark empty_token_second_refresh :
  let st' := Fixture.run (Fixture.fourInFlight Fixture.nativeStore)
               [Respond 0 (Failure Fixture.unauthorized);
                Respond 1 (Failure Fixture.unauthorized); RefreshResume 0;
                RefreshResponse 0 (PostData ""); RefreshResume 0; RefreshResume 1] in
  nextPromise st' = 2%nat /\ refreshPosts st' = 2%nat /\
  pc <$> calls st' !! 1%nat = Some (AwaitLeader 1).
Proof. repeat split; vm_compute; reflexivity. Qed.

End ClientClaims.


(** ** Form validation *)

Module ValidationExtras.
Import Js JsFacts Validation.

Lemma number_rules_None x rules :
  number_rules x rules = None <->
  (forall l, min rules = Some l -> lt x (of_Z (limit_value l)) = false) /\
  (forall l, max rules = Some l -> lt (of_Z (limit_value l)) x = false).
Proof.
  unfold number_rules.
  destruct (min rules) as [l1|], (max rules) as [l2|];
    repeat match goal with
    | |- context [lt ?a ?b] => destruct (lt a b) eqn:?
    end;
    (split;
     [ intros Hv; try discriminate Hv; split; intros ? [= <-]; assumption
     | intros (K1 & K2); try reflexivity;
       try (specialize (K1 _ eq_refl); congruence);
       try (specialize (K2 _ eq_refl); congruence) ]).
Qed.

Lemma lt_of_Z a b : lt (of_Z a) (of_Z b) = (a <? b).
Proof.
  unfold lt, of_Z, QArith_base.Qle_bool, QArith_base.inject_Z. cbn.
  rewrite !Z.mul_1_r. symmetry. apply Z.ltb_antisym.
Qed.

Lemma string_rules_None s rules :
  string_rules s rules = None <->
  (forall l, minLength rules = Some l -> limit_value l <= Z.of_nat (String.length s)) /\
  (forall l, maxLength rules = Some l -> Z.of_nat (String.length s) <= limit_value l) /\
  (forall l, pattern rules = Some l -> limit_value l s = true).
Proof.
  unfold string_rules.
  destruct (minLength rules) as [l1|], (maxLength rules) as [l2|], (pattern rules) as [l3|];
    repeat match goal with
    | |- context [?a <? ?b] => destruct (Z.ltb_spec a b)
    | |- context [negb (limit_value ?l ?x)] => destruct (limit_value l x) eqn:?; cbn [negb]
    end;
    (split;
     [ intros Hv; try discriminate Hv; repeat split; intros ? [= <-]; try lia; assumption
     | intros (K1 & K2 & K3); try reflexivity;
       try (specialize (K1 _ eq_refl); lia);
       try (specialize (K2 _ eq_refl); lia);
       try (specialize (K3 _ eq_refl); congruence) ]).
Qed.

Lemma custom_rule_None value allValues rules :
  custom_rule value allValues rules = None <->
  (forall f, validate_fn rules = Some f ->
     f value allValues = VerdictUndefined \/ f value allValues = VerdictBoolean true).
Proof.
  unfold custom_rule. destruct (validate_fn rules) as [f|].
  - destruct (f value allValues) as [m|[|]|] eqn:E; split; intros H; try discriminate H;
      try reflexivity; try (intros ? [= <-]; rewrite E; auto);
      destruct (H _ eq_refl) as [K|K]; rewrite E in K; discriminate K.
  - split; [intros _ ? [=]|reflexivity].
Qed.

(** X26.  When [validateValue] accepts (returns [undefined]): a required
    value must not be missing ([undefined], [null], a string of white space,
    an empty array); [undefined], [null] and the empty string are then
    accepted without looking further; any other value must, if it is a
    number, be neither [< min] nor [> max], and respect [minLength],
    [maxLength] and [pattern] if it is a string, and the custom function
    must return neither a message nor [false].  The comparisons are those of
    JavaScript: the order of the integers on integers, and false on [NaN],
    which therefore passes every [min] and [max]. *)
Theorem accepted_iff (value : Value) (rules : ValidationRule)
    (allValues : gmap string Value) :
  (validateValue value (Some rules) allValues = None <->
   (required_truthy (required rules) = true -> isValueEmpty value = false) /\
   (value = VUndefined \/ value = VNull \/ value = VString "" \/
    (forall x, value = VNumber x ->
       (forall l, min rules = Some l -> lt x (of_Z (limit_value l)) = false) /\
       (forall l, max rules = Some l -> lt (of_Z (limit_value l)) x = false)) /\
    (forall s, value = VString s ->
       (forall l, minLength rules = Some l -> limit_value l <= Z.of_nat (String.length s)) /\
       (forall l, maxLength rules = Some l -> Z.of_nat (String.length s) <= limit_value l) /\
       (forall l, pattern rules = Some l -> limit_value l s = true)) /\
    (forall f, validate_fn rules = Some f ->
       f value allValues = VerdictUndefined \/ f value allValues = VerdictBoolean true))) /\
  (forall a b, lt (of_Z a) (of_Z b) = (a <? b)) /\
  (forall y, lt NaN y = false /\ lt y NaN = false).
Proof.
  split; [|split; [exact lt_of_Z|intros y; destruct y; split; reflexivity]].
  unfold validateValue.
  assert (Body :
    match value with
    | VUndefined | VNull | VString "" => None
    | _ =>
        match
          match value with
          | VNumber x => number_rules x rules
          | VString s => string_rules s rules
          | _ => None
          end
        with
        | Some message => Some message
        | None => custom_rule value allValues rules
        end
    end = None <->
    (value = VUndefined \/ value = VNull \/ value = VString "" \/
     (forall x, value = VNumber x ->
        (forall l, min rules = Some l -> lt x (of_Z (limit_value l)) = false) /\
        (forall l, max rules = Some l -> lt (of_Z (limit_value l)) x = false)) /\
     (forall s, value = VString s ->
        (forall l, minLength rules = Some l -> limit_value l <= Z.of_nat (String.length s)) /\
        (forall l, maxLength rules = Some l -> Z.of_nat (String.length s) <= limit_value l) /\
        (forall l, pattern rules = Some l -> limit_value l s = true)) /\
     (forall f, validate_fn rules = Some f ->
        f value allValues = VerdictUndefined \/ f value allValues = VerdictBoolean true))).
  { pose proof (custom_rule_None value allValues rules) as C.
    destruct value as [| |b|n|s|items]; [tauto|tauto| | | |].
    - rewrite C. split.
      + intros H. do 3 right. split; [discriminate|]. split; [discriminate|exact H].
      + intros [H|[H|[H|(_ & _ & H)]]]; try discriminate H. exact H.
    - pose proof (number_rules_None n rules) as N.
      destruct (number_rules n rules) as [m|].
      + split; [discriminate|].
        intros [H|[H|[H|(H & _ & _)]]]; try discriminate H.
        destruct N as [_ N]. discriminate N. apply (H n eq_refl).
      + rewrite C. split.
        * intros H. do 3 right. split; [|split; [discriminate|exact H]].
          intros n' [= <-]. apply N. reflexivity.
        * intros [H|[H|[H|(_ & _ & H)]]]; try discriminate H. exact H.
    - destruct s as [|c s]; [tauto|].
      pose proof (string_rules_None (String c s) rules) as S.
      destruct (string_rules (String c s) rules) as [m|].
      + split; [discriminate|].
        intros [H|[H|[H|(_ & H & _)]]]; try discriminate H.
        destruct S as [_ S]. discriminate S. apply (H _ eq_refl).
      + rewrite C. split.
        * intros H. do 3 right. split; [discriminate|]. split; [|exact H].
          intros s' [= <-]. apply S. reflexivity.
        * intros [H|[H|[H|(_ & _ & H)]]]; try discriminate H. exact H.
    - rewrite C. split.
      + intros H. do 3 right. split; [discriminate|]. split; [discriminate|exact H].
      + intros [H|[H|[H|(_ & _ & H)]]]; try discriminate H. exact H. }
  destruct (required_truthy (required rules)) eqn:R, (isValueEmpty value) eqn:B; cbn [andb].
  - split; [discriminate|]. intros [H _]. specialize (H eq_refl). discriminate.
  - rewrite Body. tauto.
  - rewrite Body. split; [intros H; split; [discriminate|exact H]|tauto].
  - rewrite Body. tauto.
Qed.

(** X27.  [validationRuleSets.confirmPassword]: a missing value gets
    ['Please confirm your password'], the password itself is accepted, and
    any other value gets ['Passwords must match']. *)
Theorem confirmPassword_accepts (getPassword : string) (value : Value)
    (allValues : gmap string Value) :
  let result := validateValue value (Some (confirmPassword getPassword)) allValues in
  (isValueEmpty value = true -> result = Some "Please confirm your password") /\
  (isValueEmpty value = false -> value = VString getPassword -> result = None) /\
  (isValueEmpty value = false -> value <> VString getPassword ->
   result = Some "Passwords must match").
Proof.
  cbv zeta. unfold validateValue.
  change (required_truthy (required (confirmPassword getPassword))) with true.
  cbn [andb]. split; [intros ->; reflexivity|].
  split.
  - intros B ->. rewrite B. cbn [isValueEmpty] in B.
    destruct getPassword as [|c s]; [discriminate B|].
    unfold string_rules, custom_rule. cbn [confirmPassword minLength maxLength pattern validate_fn].
    rewrite String.eqb_refl. reflexivity.
  - intros B Hne. rewrite B.
    destruct value as [| |b|n|s|items]; try discriminate B; try reflexivity.
    destruct s as [|c s]; [discriminate B|].
    unfold string_rules, custom_rule. cbn [confirmPassword minLength maxLength pattern validate_fn].
    destruct (String.eqb_spec (String c s) getPassword) as [E|E]; [|reflexivity].
    destruct Hne. congruence.
Qed.

(** X28.  The errors [validate] reports: a field has an error exactly when
    it has rules and [validateValue] returns a non-empty message for its
    value, which is then the error; so the form has no errors exactly when
    every field with rules is accepted or gets the empty message. *)
Theorem validate_errors (values : gmap string Value) (rules : gmap string ValidationRule) :
  (forall key message,
     validate values rules !! key = Some message <->
     exists fieldRules,
       rules !! key = Some fieldRules /\ message <> "" /\
       validateValue (default VUndefined (values !! key)) (Some fieldRules) values =
         Some message) /\
  (validate values rules = ∅ <->
   forall key fieldRules, rules !! key = Some fieldRules ->
     truthy (validateValue (default VUndefined (values !! key)) (Some fieldRules) values)
       = false).
Proof.
  assert (L : forall key message,
     validate values rules !! key = Some message <->
     exists fieldRules,
       rules !! key = Some fieldRules /\ message <> "" /\
       validateValue (default VUndefined (values !! key)) (Some fieldRules) values =
         Some message).
  { intros key message. unfold validate. rewrite map_lookup_imap.
    destruct (rules !! key) as [fieldRules|]; cbn [mbind option_bind].
    - destruct (validateValue (default VUndefined (values !! key)) (Some fieldRules) values)
        as [m|] eqn:E; cbn [truthy].
      + destruct (String.eqb_spec m ""); cbn [negb].
        * split; [discriminate|]. intros (fr & [= <-] & Hne & H).
          rewrite E in H. injection H as ->. contradiction.
        * split.
          -- intros [= <-]. exists fieldRules. rewrite E. auto.
          -- intros (fr & [= <-] & Hne & H). rewrite E in H. exact H.
      + split; [discriminate|]. intros (fr & [= <-] & _ & H). rewrite E in H. discriminate.
    - split; [discriminate|]. intros (fr & H & _). discriminate. }
  split; [exact L|].
  split.
  - intros He key fieldRules Hr.
    destruct (validateValue (default VUndefined (values !! key)) (Some fieldRules) values)
      as [m|] eqn:E; [|reflexivity].
    cbn [truthy]. destruct (String.eqb_spec m ""); [reflexivity|].
    assert (K : validate values rules !! key = Some m).
    { apply L. exists fieldRules. auto. }
    rewrite He, lookup_empty in K. discriminate.
  - intros H. apply map_eq. intros key. rewrite lookup_empty.
    destruct (validate values rules !! key) as [m|] eqn:E; [|reflexivity].
    apply L in E as (fr & Hr & Hne & Hv). specialize (H _ _ Hr). rewrite Hv in H.
    cbn [truthy] in H. destruct (String.eqb_spec m ""); [contradiction|discriminate].
Qed.
End ValidationExtras.
